(** * Task orchestration, message bus, registry and batch workflow

    A shallow embedding of [src/infrastructure]: [agent_orchestrator.py],
    [message_bus.py], [orchestrator_adapter.py], [model_registry.py] and
    [abliteration_workflow.py], with the properties of the lock protocol,
    the bus, the registry snapshots and the batch report, and of
    [run_abliteration_experiment] of [src/control_center.py], which calls
    them.

    Conventions of the embedding.
    - A timestamp (the ISO string written by [iso_now] and read back by
      [parse_timestamp]) is the instant it denotes, an integer number of
      clock ticks; [stale_after] is a duration in the same unit.
    - Every public operation reads the clock; the reading is the argument
      [now] of the operation.
    - [uuid.uuid4().hex[:n]] is an argument of the operation that draws it.
      The [event_id] of an event, a uuid nothing reads, is left out.
    - The JSON files are the fields of the persisted state; an operation
      that returns before [_save_tasks] leaves the task file as it was, while
      [_log_event] appends to the event file at once. *)

From Stdlib Require Import ZArith Lia Ascii String.
From stdpp Require Import gmap strings list fin_maps.

Local Open Scope string_scope.
Local Open Scope Z_scope.
Local Open Scope list_scope.

(** ** Python values shared by the modules *)

(** A JSON-like value: what the payload and metadata dictionaries hold. *)
#[local] Unset Elimination Schemes.
Inductive Val :=
| VNone
| VStr (s : string)
| VInt (z : Z)
| VDict (d : list (string * Val)).
#[local] Set Elimination Schemes.

Definition Dict := list (string * Val).

(** [d.get(k)]: the value under the key, [None] when the key is absent. *)
Fixpoint dict_get (k : string) (d : Dict) : option Val :=
  match d with
  | [] => None
  | (k', v) :: d' => if String.eqb k' k then Some v else dict_get k d'
  end.

(** [type(v).__name__]. *)
Definition type_name (v : Val) : string :=
  match v with
  | VNone => "NoneType"
  | VStr _ => "str"
  | VInt _ => "int"
  | VDict _ => "dict"
  end.

(** The exceptions the modules raise. *)
Inductive PyExn :=
| KeyError (msg : string)
| ValueError (msg : string)
| RuntimeError (msg : string)
| AttributeError (msg : string)
| Exception (msg : string).

(** The outcome of a call that may raise. *)
Inductive result (A : Type) :=
| Ok (a : A)
| Raise (e : PyExn).
Arguments Ok {A} a.
Arguments Raise {A} e.

#[global] Instance result_fmap : FMap result := fun A B f r =>
  match r with Ok a => Ok (f a) | Raise e => Raise e end.

Definition is_ok {A} (r : result A) : bool :=
  match r with Ok _ => true | Raise _ => false end.

(** Truth value of a string: [bool(s)]. *)
Definition truthy (s : string) : bool := negb (String.eqb s "").

(* ===================================================================== *)
(** ** agent_orchestrator.py *)
(* ===================================================================== *)

Module Orchestrator.

Inductive TaskStatus := pending | in_progress | completed | failed.

#[global] Instance TaskStatus_eq_dec : EqDecision TaskStatus.
Proof. solve_decision. Defined.

Record OrchestratedTask := {
  task_id : string;
  title : string;
  payload : Dict;
  created_at : Z;
  created_by : string;
  status : TaskStatus;
  lock_owner : option string;
  lock_acquired_at : option Z;
  heartbeat_at : option Z;
  completed_at : option Z;
  failure_reason : Val  (* null, or the [reason] given to [fail_task] *)
}.

Record Event := {
  ev_timestamp : Z;
  ev_type : string;
  ev_task_id : string;
  ev_actor : string;
  ev_metadata : Dict
}.

(** [tasks.json] and [events.jsonl]. *)
Record Store := {
  tasks : gmap string OrchestratedTask;
  events : list Event
}.

(** The fields of [self] the operations read.  The hook returns [Some msg]
    when it raises, [msg] being [str(exc)]. *)
Record AgentOrchestrator := {
  stale_after : Z;
  event_hook : option (Event -> option string)
}.

(** The store written by [__init__]: [_save_tasks({})], no event yet. *)
Definition empty_store : Store := {| tasks := ∅; events := [] |}.

(** *** Field updates of a task dictionary *)

Definition set_lock (t : OrchestratedTask) (st : TaskStatus)
    (owner : option string) (acquired hb : option Z) : OrchestratedTask :=
  {| task_id := task_id t; title := title t; payload := payload t;
     created_at := created_at t; created_by := created_by t;
     status := st; lock_owner := owner; lock_acquired_at := acquired;
     heartbeat_at := hb; completed_at := completed_at t;
     failure_reason := failure_reason t |}.

Definition set_heartbeat_at (t : OrchestratedTask) (hb : option Z) : OrchestratedTask :=
  {| task_id := task_id t; title := title t; payload := payload t;
     created_at := created_at t; created_by := created_by t;
     status := status t; lock_owner := lock_owner t;
     lock_acquired_at := lock_acquired_at t;
     heartbeat_at := hb; completed_at := completed_at t;
     failure_reason := failure_reason t |}.

Definition set_completed_at (t : OrchestratedTask) (c : option Z) : OrchestratedTask :=
  {| task_id := task_id t; title := title t; payload := payload t;
     created_at := created_at t; created_by := created_by t;
     status := status t; lock_owner := lock_owner t;
     lock_acquired_at := lock_acquired_at t;
     heartbeat_at := heartbeat_at t; completed_at := c;
     failure_reason := failure_reason t |}.

Definition set_failure_reason (t : OrchestratedTask) (r : Val) : OrchestratedTask :=
  {| task_id := task_id t; title := title t; payload := payload t;
     created_at := created_at t; created_by := created_by t;
     status := status t; lock_owner := lock_owner t;
     lock_acquired_at := lock_acquired_at t;
     heartbeat_at := heartbeat_at t; completed_at := completed_at t;
     failure_reason := r |}.

(** *** Internal helpers *)

(** [_log_event]: the event is appended; when the hook raises, a synthetic
    [event_hook_error] event follows it. *)
Definition _log_event (self : AgentOrchestrator) (event_type tid actor : string)
    (metadata : Dict) (now : Z) (log : list Event) : list Event :=
  let event := {| ev_timestamp := now; ev_type := event_type; ev_task_id := tid;
                  ev_actor := actor; ev_metadata := metadata |} in
  let log1 := log ++ [event] in
  match event_hook self with
  | None => log1
  | Some hook =>
      match hook event with
      | None => log1
      | Some err =>
          log1 ++ [ {| ev_timestamp := now; ev_type := "event_hook_error";
                       ev_task_id := tid; ev_actor := "orchestrator";
                       ev_metadata := [("error", VStr err);
                                       ("source_event_type", VStr event_type)] |} ]
      end
  end.

(** [_recover_stale_lock]: result, the task dictionary after the call, the
    event file after the call. *)
Definition _recover_stale_lock (self : AgentOrchestrator) (task : OrchestratedTask)
    (tid : string) (now : Z) (log : list Event)
    : bool * OrchestratedTask * list Event :=
  match lock_owner task, heartbeat_at task with
  | Some owner, Some heartbeat =>
      if negb (truthy owner) then (false, task, log)
      else if now - heartbeat <=? stale_after self then (false, task, log)
      else (true,
            set_lock task pending None None None,
            _log_event self "lock_recovered" tid "orchestrator"
              [("previous_owner", VStr owner)] now log)
  | _, _ => (false, task, log)
  end.

Definition unknown_task (tid : string) : PyExn :=
  KeyError ("Unknown task_id: " +:+ tid).

(** [_get_task_or_raise]. *)
Definition _get_task_or_raise (ts : gmap string OrchestratedTask) (tid : string)
    : result OrchestratedTask :=
  match ts !! tid with
  | None => Raise (unknown_task tid)
  | Some task => Ok task
  end.

Definition is_terminal (s : TaskStatus) : bool :=
  match s with completed | failed => true | _ => false end.

(** [task.get("lock_owner") != agent_id]. *)
Definition owner_differs (o : option string) (agent_id : string) : bool :=
  match o with
  | Some a => negb (String.eqb a agent_id)
  | None => true
  end.

(** [owner and owner != agent_id], for [owner = task.get("lock_owner")]. *)
Definition held_by_other (o : option string) (agent_id : string) : bool :=
  match o with
  | Some owner => truthy owner && negb (String.eqb owner agent_id)
  | None => false
  end.

(** *** Public API *)

Definition new_task (tid ttl : string) (pl : Dict) (now : Z) (by_ : string)
    : OrchestratedTask :=
  {| task_id := tid; title := ttl; payload := pl; created_at := now;
     created_by := by_; status := pending; lock_owner := None;
     lock_acquired_at := None; heartbeat_at := None; completed_at := None;
     failure_reason := VNone |}.

(** [create_task]; [hex] is [uuid.uuid4().hex[:12]]. *)
Definition create_task (self : AgentOrchestrator) (hex : string)
    (ttl : string) (pl : Dict) (by_ : string) (now : Z) (st : Store)
    : OrchestratedTask * Store :=
  let task := new_task ("task_" +:+ hex) ttl pl now by_ in
  (task,
   {| tasks := <[task_id task := task]> (tasks st);
      events := _log_event self "task_created" (task_id task) by_
                  [("title", VStr ttl)] now (events st) |}).

Definition claim_task (self : AgentOrchestrator) (tid agent_id : string)
    (now : Z) (st : Store) : result bool * Store :=
  match _get_task_or_raise (tasks st) tid with
  | Raise e => (Raise e, st)
  | Ok task0 =>
      let '(_, task, log) := _recover_stale_lock self task0 tid now (events st) in
      if is_terminal (status task) then
        (Ok false, {| tasks := tasks st; events := log |})
      else if held_by_other (lock_owner task) agent_id then
        (Ok false, {| tasks := tasks st; events := log |})
      else
        let task' := set_lock task in_progress (Some agent_id) (Some now) (Some now) in
        (Ok true,
         {| tasks := <[tid := task']> (tasks st);
            events := _log_event self "task_claimed" tid agent_id [] now log |})
  end.

Definition heartbeat (self : AgentOrchestrator) (tid agent_id : string)
    (now : Z) (st : Store) : result bool * Store :=
  match _get_task_or_raise (tasks st) tid with
  | Raise e => (Raise e, st)
  | Ok task0 =>
      let '(_, task, log) := _recover_stale_lock self task0 tid now (events st) in
      if owner_differs (lock_owner task) agent_id then
        (Ok false, {| tasks := tasks st; events := log |})
      else
        let task' := set_heartbeat_at task (Some now) in
        (Ok true,
         {| tasks := <[tid := task']> (tasks st);
            events := _log_event self "heartbeat" tid agent_id [] now log |})
  end.

Definition complete_task (self : AgentOrchestrator) (tid agent_id : string)
    (now : Z) (st : Store) : result bool * Store :=
  match _get_task_or_raise (tasks st) tid with
  | Raise e => (Raise e, st)
  | Ok task0 =>
      let '(_, task, log) := _recover_stale_lock self task0 tid now (events st) in
      if owner_differs (lock_owner task) agent_id then
        (Ok false, {| tasks := tasks st; events := log |})
      else
        let task' :=
          set_lock (set_completed_at task (Some now)) completed None None None in
        (Ok true,
         {| tasks := <[tid := task']> (tasks st);
            events := _log_event self "task_completed" tid agent_id [] now log |})
  end.

(** [fail_task].  The reason is stored and logged as it is given; the
    adapter passes the value it finds in the request. *)
Definition fail_task (self : AgentOrchestrator) (tid agent_id : string) (reason : Val)
    (now : Z) (st : Store) : result bool * Store :=
  match _get_task_or_raise (tasks st) tid with
  | Raise e => (Raise e, st)
  | Ok task0 =>
      let '(_, task, log) := _recover_stale_lock self task0 tid now (events st) in
      if owner_differs (lock_owner task) agent_id then
        (Ok false, {| tasks := tasks st; events := log |})
      else
        let task' :=
          set_lock (set_failure_reason task reason) failed None None None in
        (Ok true,
         {| tasks := <[tid := task']> (tasks st);
            events := _log_event self "task_failed" tid agent_id
                        [("reason", reason)] now log |})
  end.

(** One turn of the loop of [recover_stale_tasks] over [tasks.items()]: the
    loaded dictionary, the event file and the list [recovered]. *)
Definition recover_one (self : AgentOrchestrator) (now : Z)
    (acc : gmap string OrchestratedTask * list Event * list string)
    (item : string * OrchestratedTask)
    : gmap string OrchestratedTask * list Event * list string :=
  let '(ts, log, recovered) := acc in
  let '(tid, task) := item in
  let '(hit, task', log') := _recover_stale_lock self task tid now log in
  (<[tid := task']> ts, log', if hit then recovered ++ [tid] else recovered).

(** [recover_stale_tasks].  The items are visited in the order of
    [map_to_list]; the file order of [tasks.json] is not modelled. *)
Definition recover_stale_tasks (self : AgentOrchestrator) (now : Z) (st : Store)
    : list string * Store :=
  let '(ts, log, recovered) :=
    fold_left (recover_one self now) (map_to_list (tasks st))
              (tasks st, events st, []) in
  (recovered, {| tasks := ts; events := log |}).

(** [get_task]: a copy of the task dictionary. *)
Definition get_task (tid : string) (st : Store) : result OrchestratedTask :=
  _get_task_or_raise (tasks st) tid.

Definition list_tasks (st : Store) : list OrchestratedTask :=
  (map_to_list (tasks st)).*2.

(** *** Histories of calls *)

(** One call of the public API, with the arguments the caller chooses and,
    for [create_task], the uuid drawn. *)
Inductive Op :=
| OpCreate (hex ttl : string) (pl : Dict) (by_ : string)
| OpClaim (tid agent_id : string)
| OpHeartbeat (tid agent_id : string)
| OpComplete (tid agent_id : string)
| OpFail (tid agent_id : string) (reason : Val)
| OpRecover.

(** The persisted state after the call made at clock reading [now]. *)
Definition step (self : AgentOrchestrator) (st : Store) (call : Z * Op) : Store :=
  let '(now, op) := call in
  match op with
  | OpCreate hex ttl pl by_ => (create_task self hex ttl pl by_ now st).2
  | OpClaim tid a => (claim_task self tid a now st).2
  | OpHeartbeat tid a => (heartbeat self tid a now st).2
  | OpComplete tid a => (complete_task self tid a now st).2
  | OpFail tid a r => (fail_task self tid a r now st).2
  | OpRecover => (recover_stale_tasks self now st).2
  end.

Definition run (self : AgentOrchestrator) (calls : list (Z * Op)) (st : Store) : Store :=
  fold_left (step self) calls st.

(** The [lock_recovered] events of a task in an event file. *)
Definition is_lock_recovered (tid : string) (e : Event) : bool :=
  String.eqb (ev_type e) "lock_recovered" && String.eqb (ev_task_id e) tid.

Definition count_lock_recovered (tid : string) (log : list Event) : nat :=
  length (filter (fun e => is_lock_recovered tid e = true) log).

(** A concrete orchestrator and history used by the examples below:
    a stale timeout of 90 ticks, no event hook. *)
Definition demo : AgentOrchestrator := {| stale_after := 90; event_hook := None |}.

Definition demo_claimed : Store :=
  run demo [(0, OpCreate "a1" "x" [] "henry"); (1, OpClaim "task_a1" "agent1")]
    empty_store.

Definition demo_task : OrchestratedTask :=
  {| task_id := "task_a1"; title := "x"; payload := []; created_at := 0;
     created_by := "henry"; status := in_progress; lock_owner := Some "agent1";
     lock_acquired_at := Some 1; heartbeat_at := Some 1; completed_at := None;
     failure_reason := VNone |}.

(** A task claimed by the agent whose identifier is the empty string. *)
Definition demo_claimed_by_empty : Store :=
  run demo [(0, OpCreate "a1" "x" [] "henry"); (1, OpClaim "task_a1" "")]
    empty_store.

(** *** Staleness, read off [_recover_stale_lock] *)

(** The test of [_recover_stale_lock]: an owner and a heartbeat that are
    truthy, and a heartbeat older than the timeout. *)
Definition stale (self : AgentOrchestrator) (now : Z) (t : OrchestratedTask) : bool :=
  match lock_owner t, heartbeat_at t with
  | Some owner, Some hb => truthy owner && negb (now - hb <=? stale_after self)
  | _, _ => false
  end.

(** The task dictionary [_recover_stale_lock] leaves behind. *)
Definition recover_task (self : AgentOrchestrator) (now : Z) (t : OrchestratedTask)
    : OrchestratedTask :=
  if stale self now t then set_lock t pending None None None else t.

(** The event a recovery logs. *)
Definition log_recovery (self : AgentOrchestrator) (now : Z) (log : list Event)
    (item : string * OrchestratedTask) : list Event :=
  _log_event self "lock_recovered" item.1 "orchestrator"
    [("previous_owner", VStr (default "" (lock_owner item.2)))] now log.

(** The event file without the synthetic [event_hook_error] events. *)
Definition without_hook_errors (log : list Event) : list Event :=
  filter (fun e => ev_type e <> "event_hook_error") log.

(** The same orchestrator with no event hook. *)
Definition unhooked (self : AgentOrchestrator) : AgentOrchestrator :=
  {| stale_after := stale_after self; event_hook := None |}.

(** A hook that always raises. *)
Definition demo_raising : AgentOrchestrator :=
  {| stale_after := 90; event_hook := Some (fun _ => Some "hook down") |}.

(** *** The lock invariant *)

(** A task dictionary is consistent when its status is [in_progress] exactly
    when it has an owner, and it has an owner exactly when it has a
    heartbeat. *)
Definition lock_consistent (t : OrchestratedTask) : Prop :=
  (status t = in_progress <-> is_Some (lock_owner t)) /\
  (is_Some (lock_owner t) <-> is_Some (heartbeat_at t)).

Definition store_consistent (st : Store) : Prop :=
  map_Forall (fun _ t => lock_consistent t) (tasks st).

Lemma recover_cases self task tid now log :
  _recover_stale_lock self task tid now log = (false, task, log) \/
  exists owner hb,
    lock_owner task = Some owner /\ truthy owner = true /\
    heartbeat_at task = Some hb /\ stale_after self < now - hb /\
    _recover_stale_lock self task tid now log =
      (true, set_lock task pending None None None,
       _log_event self "lock_recovered" tid "orchestrator"
         [("previous_owner", VStr owner)] now log).
Proof.
  unfold _recover_stale_lock.
  destruct (lock_owner task) as [owner|]; [|by left].
  destruct (heartbeat_at task) as [hb|]; [|by left].
  destruct (truthy owner) eqn:Ho; simpl; [|by left].
  destruct (Z.leb_spec (now - hb) (stale_after self)); [by left|].
  right. exists owner, hb. done.
Qed.

Lemma recover_consistent self task tid now log :
  lock_consistent task ->
  lock_consistent (_recover_stale_lock self task tid now log).1.2.
Proof.
  intros Hc. destruct (recover_cases self task tid now log)
    as [->|(o & hb & _ & _ & _ & _ & ->)]; [done|].
  split; simpl; split; intros H; try discriminate; by destruct H.
Qed.

Lemma owner_differs_false o a : owner_differs o a = false -> o = Some a.
Proof.
  destruct o as [b|]; simpl; [|done].
  destruct (String.eqb_spec b a); [by intros _; subst|done].
Qed.

Lemma owner_differs_true o a : o <> Some a -> owner_differs o a = true.
Proof.
  destruct o as [b|]; simpl; [|done].
  destruct (String.eqb_spec b a); [by intros []; subst|done].
Qed.

Lemma lookup_get_task ts tid task :
  ts !! tid = Some task -> _get_task_or_raise ts tid = Ok task.
Proof. unfold _get_task_or_raise. by intros ->. Qed.

Lemma lookup_get_task_None ts tid :
  ts !! tid = None -> _get_task_or_raise ts tid = Raise (unknown_task tid).
Proof. unfold _get_task_or_raise. by intros ->. Qed.

(** Unfolds a call on a task identifier down to the result of the stale
    check on the task found. *)
Ltac open_call self st tid now :=
  unfold _get_task_or_raise;
  destruct (tasks st !! tid) as [?task0|] eqn:?Hlook; simpl; [|try done];
  pose proof (recover_cases self task0 tid now (events st)) as ?Hrec;
  destruct (_recover_stale_lock self task0 tid now (events st))
    as [[?hit ?task1] ?log1] eqn:?Erec.

Lemma create_task_consistent self hex ttl pl by_ now st :
  store_consistent st -> store_consistent (create_task self hex ttl pl by_ now st).2.
Proof.
  intros Hst. apply map_Forall_insert_2; [|done].
  split; simpl; split; intros H; try discriminate; by destruct H.
Qed.

Lemma claim_task_consistent self tid a now st :
  store_consistent st -> store_consistent (claim_task self tid a now st).2.
Proof.
  intros Hst. unfold claim_task. open_call self st tid now.
  destruct (is_terminal (status task1)); [done|].
  destruct (held_by_other (lock_owner task1) a); [done|].
  apply map_Forall_insert_2; [|done].
  split; simpl; split; eauto.
Qed.

Lemma heartbeat_consistent self tid a now st :
  store_consistent st -> store_consistent (heartbeat self tid a now st).2.
Proof.
  intros Hst. unfold heartbeat. open_call self st tid now.
  destruct (owner_differs (lock_owner task1) a) eqn:Ho; [done|].
  apply owner_differs_false in Ho.
  apply map_Forall_insert_2; [|done].
  pose proof (recover_consistent self task0 tid now (events st) (Hst _ _ Hlook)) as Hc.
  rewrite Erec in Hc. simpl in Hc. destruct Hc as [Hc1 Hc2].
  split; simpl; [done|]. rewrite Ho. split; eauto.
Qed.

Lemma complete_task_consistent self tid a now st :
  store_consistent st -> store_consistent (complete_task self tid a now st).2.
Proof.
  intros Hst. unfold complete_task. open_call self st tid now.
  destruct (owner_differs (lock_owner task1) a); [done|].
  apply map_Forall_insert_2; [|done].
  split; simpl; split; intros H; try discriminate; by destruct H.
Qed.

Lemma fail_task_consistent self tid a r now st :
  store_consistent st -> store_consistent (fail_task self tid a r now st).2.
Proof.
  intros Hst. unfold fail_task. open_call self st tid now.
  destruct (owner_differs (lock_owner task1) a); [done|].
  apply map_Forall_insert_2; [|done].
  split; simpl; split; intros H; try discriminate; by destruct H.
Qed.

Lemma recover_loop_consistent self now items ts log rec :
  Forall (fun it => lock_consistent it.2) items ->
  map_Forall (fun _ t => lock_consistent t) ts ->
  map_Forall (fun _ t => lock_consistent t)
    (fold_left (recover_one self now) items (ts, log, rec)).1.1.
Proof.
  revert ts log rec. induction items as [|[tid task] items IH];
    intros ts log rec Hit Hts; [done|].
  inversion Hit as [|? ? Hhd Htl]; subst. simpl.
  pose proof (recover_consistent self task tid now log Hhd) as Hc.
  destruct (_recover_stale_lock self task tid now log) as [[hit task'] log'].
  apply IH; [done|]. by apply map_Forall_insert_2.
Qed.

Lemma recover_stale_tasks_consistent self now st :
  store_consistent st -> store_consistent (recover_stale_tasks self now st).2.
Proof.
  intros Hst. unfold recover_stale_tasks, store_consistent.
  pose proof (recover_loop_consistent self now (map_to_list (tasks st))
                (tasks st) (events st) []) as H.
  destruct (fold_left _ _ _) as [[ts log] rec]. simpl in *.
  apply H; [|done].
  apply Forall_forall. intros [tid t] Hin. simpl.
  apply elem_of_map_to_list in Hin. by apply (Hst tid).
Qed.

Lemma step_consistent self st call :
  store_consistent st -> store_consistent (step self st call).
Proof.
  intros Hst. destruct call as [now op]. unfold step. destruct op.
  - by apply create_task_consistent.
  - by apply claim_task_consistent.
  - by apply heartbeat_consistent.
  - by apply complete_task_consistent.
  - by apply fail_task_consistent.
  - by apply recover_stale_tasks_consistent.
Qed.

Lemma run_consistent self calls st :
  store_consistent st -> store_consistent (run self calls st).
Proof.
  revert st. induction calls as [|c calls IH]; intros st Hst; [done|].
  simpl. apply IH. by apply step_consistent.
Qed.

(** C1. After any history of create_task, claim_task, heartbeat,
    complete_task, fail_task and recover_stale_tasks calls on the empty
    store, every persisted task has status [in_progress] if and only if its
    [lock_owner] is not null and its [heartbeat_at] is not null. *)
Theorem in_progress_iff_locked self calls tid task :
  tasks (run self calls empty_store) !! tid = Some task ->
  status task = in_progress <->
  lock_owner task <> None /\ heartbeat_at task <> None.
Proof.
  intros Hlook.
  assert (Hc : lock_consistent task).
  { eapply (run_consistent self calls empty_store); [|exact Hlook].
    unfold store_consistent, empty_store. simpl. apply map_Forall_empty. }
  destruct Hc as [H1 H2]. rewrite <- !not_eq_None_Some in *. tauto.
Qed.

Lemma in_progress_iff_locked_witness :
  tasks demo_claimed !! "task_a1" = Some demo_task /\
  (status demo_task = in_progress <->
   lock_owner demo_task <> None /\ heartbeat_at demo_task <> None).
Proof.
  assert (H : tasks demo_claimed !! "task_a1" = Some demo_task)
    by (vm_compute; reflexivity).
  split; [exact H|].
  exact (in_progress_iff_locked demo _ "task_a1" demo_task H).
Defined.

(** *** Unknown identifiers and denials *)

Lemma store_eta st : {| tasks := tasks st; events := events st |} = st.
Proof. by destruct st. Qed.

Lemma claim_task_returns self tid a now st :
  is_Some (tasks st !! tid) ->
  exists b, (claim_task self tid a now st).1 = Ok b /\
            is_Some (tasks (claim_task self tid a now st).2 !! tid).
Proof.
  intros [task Hlook]. unfold claim_task. rewrite (lookup_get_task _ _ _ Hlook).
  destruct (_recover_stale_lock self task tid now (events st)) as [[hit t1] l1].
  destruct (is_terminal (status t1)); [simpl; eauto|].
  destruct (held_by_other (lock_owner t1) a); simpl; [eauto|].
  eexists. split; [done|]. rewrite lookup_insert_eq. eauto.
Qed.

Lemma complete_task_returns self tid a now st :
  is_Some (tasks st !! tid) ->
  exists b, (complete_task self tid a now st).1 = Ok b.
Proof.
  intros [task Hlook]. unfold complete_task. rewrite (lookup_get_task _ _ _ Hlook).
  destruct (_recover_stale_lock self task tid now (events st)) as [[hit t1] l1].
  destruct (owner_differs (lock_owner t1) a); eauto.
Qed.

Lemma fail_task_returns self tid a reason now st :
  is_Some (tasks st !! tid) ->
  exists b, (fail_task self tid a reason now st).1 = Ok b.
Proof.
  intros [task Hlook]. unfold fail_task. rewrite (lookup_get_task _ _ _ Hlook).
  destruct (_recover_stale_lock self task tid now (events st)) as [[hit t1] l1].
  destruct (owner_differs (lock_owner t1) a); eauto.
Qed.

(** *** Contention *)

(** A denied call by a non-owner: no task dictionary is written. *)
Lemma complete_task_non_owner self tid a now st task :
  tasks st !! tid = Some task -> lock_owner task <> Some a ->
  (complete_task self tid a now st).1 = Ok false /\
  tasks (complete_task self tid a now st).2 = tasks st.
Proof.
  intros Hlook Hne. unfold complete_task. rewrite (lookup_get_task _ _ _ Hlook).
  destruct (recover_cases self task tid now (events st))
    as [->|(o & hb & _ & _ & _ & _ & ->)].
  - by rewrite owner_differs_true.
  - done.
Qed.

Lemma fail_task_non_owner self tid a reason now st task :
  tasks st !! tid = Some task -> lock_owner task <> Some a ->
  (fail_task self tid a reason now st).1 = Ok false /\
  tasks (fail_task self tid a reason now st).2 = tasks st.
Proof.
  intros Hlook Hne. unfold fail_task. rewrite (lookup_get_task _ _ _ Hlook).
  destruct (recover_cases self task tid now (events st))
    as [->|(o & hb & _ & _ & _ & _ & ->)].
  - by rewrite owner_differs_true.
  - done.
Qed.

Lemma recover_live self task tid now log owner hb :
  lock_owner task = Some owner -> heartbeat_at task = Some hb ->
  now - hb <= stale_after self ->
  _recover_stale_lock self task tid now log = (false, task, log).
Proof.
  intros Ho Hh Hlive.
  destruct (recover_cases self task tid now log)
    as [->|(o & hb' & _ & _ & Hh' & Hstale & _)]; [done|].
  rewrite Hh in Hh'. injection Hh' as <-. lia.
Qed.

(** C4, amended. When a task is held by an owner whose identifier is not
    the empty string and whose heartbeat is within the stale timeout,
    claim_task by a different agent returns false and leaves the whole
    persisted state (owner, timestamps, status, event file) unchanged; and
    complete_task and fail_task by an agent that is not the lock owner return
    false and leave every persisted task unchanged. *)
Theorem non_owner_calls_denied self tid owner agent other reason hb now st task :
  tasks st !! tid = Some task ->
  lock_owner task = Some owner ->
  owner <> "" ->
  heartbeat_at task = Some hb ->
  now - hb <= stale_after self ->
  agent <> owner ->
  lock_owner task <> Some other ->
  claim_task self tid agent now st = (Ok false, st) /\
  (complete_task self tid other now st).1 = Ok false /\
  tasks (complete_task self tid other now st).2 !! tid = Some task /\
  (fail_task self tid other reason now st).1 = Ok false /\
  tasks (fail_task self tid other reason now st).2 !! tid = Some task.
Proof.
  intros Hlook Ho Hne Hh Hlive Hagent Hother.
  destruct (complete_task_non_owner self tid other now st task Hlook Hother)
    as [Hc1 Hc2].
  destruct (fail_task_non_owner self tid other reason now st task Hlook Hother)
    as [Hf1 Hf2].
  rewrite Hc2, Hf2. repeat split; try done.
  unfold claim_task. rewrite (lookup_get_task _ _ _ Hlook).
  rewrite (recover_live self task tid now (events st) owner hb Ho Hh Hlive).
  rewrite Ho, store_eta.
  assert (held_by_other (Some owner) agent = true) as ->.
  { unfold held_by_other, truthy. destruct (String.eqb_spec owner ""); [done|].
    destruct (String.eqb_spec owner agent); [by subst|done]. }
  by destruct (is_terminal (status task)).
Qed.

Lemma non_owner_calls_denied_witness :
  claim_task demo "task_a1" "agent2" 50 demo_claimed = (Ok false, demo_claimed) /\
  (complete_task demo "task_a1" "agent2" 50 demo_claimed).1 = Ok false /\
  tasks (complete_task demo "task_a1" "agent2" 50 demo_claimed).2 !! "task_a1"
    = Some demo_task /\
  (fail_task demo "task_a1" "agent2" (VStr "why") 50 demo_claimed).1 = Ok false /\
  tasks (fail_task demo "task_a1" "agent2" (VStr "why") 50 demo_claimed).2 !! "task_a1"
    = Some demo_task.
Proof.
  apply (non_owner_calls_denied demo "task_a1" "agent1" "agent2" "agent2" (VStr "why")
           1 50 demo_claimed demo_task).
  - vm_compute; reflexivity.
  - reflexivity.
  - discriminate.
  - reflexivity.
  - vm_compute; discriminate.
  - discriminate.
  - discriminate.
Defined.

(** C4 as stated fails: the task below is [in_progress], its [lock_owner]
    is the (non-null) empty string and its heartbeat is one tick old, yet the
    claim of another agent returns true and takes the lock over. *)
Lemma claim_steals_lock_of_empty_owner :
  exists task hb,
    tasks demo_claimed_by_empty !! "task_a1" = Some task /\
    status task = in_progress /\
    lock_owner task = Some "" /\
    heartbeat_at task = Some hb /\
    2 - hb <= stale_after demo /\
    "agent2" <> "" /\
    (claim_task demo "task_a1" "agent2" 2 demo_claimed_by_empty).1 = Ok true /\
    lock_owner <$> tasks (claim_task demo "task_a1" "agent2" 2 demo_claimed_by_empty).2
                     !! "task_a1" = Some (Some "agent2").
Proof.
  eexists _, 1. repeat split; try (vm_compute; reflexivity); vm_compute; discriminate.
Qed.

(** *** Re-claiming *)

(** C5, amended. When a task is [in_progress], held by an owner whose
    heartbeat is within the stale timeout, claim_task by that same owner
    returns true, logs [task_claimed], and rewrites the task with
    [lock_acquired_at] and [heartbeat_at] set to the time of the call; the
    status, the owner and every other field stay as they were. *)
Theorem reclaim_refreshes_timestamps self tid owner hb now st task :
  tasks st !! tid = Some task ->
  status task = in_progress ->
  lock_owner task = Some owner ->
  heartbeat_at task = Some hb ->
  now - hb <= stale_after self ->
  let st' := (claim_task self tid owner now st).2 in
  (claim_task self tid owner now st).1 = Ok true /\
  events st' = _log_event self "task_claimed" tid owner [] now (events st) /\
  (forall other, other <> tid -> tasks st' !! other = tasks st !! other) /\
  exists task',
    tasks st' !! tid = Some task' /\
    lock_acquired_at task' = Some now /\
    heartbeat_at task' = Some now /\
    status task' = status task /\
    lock_owner task' = lock_owner task /\
    task_id task' = task_id task /\
    title task' = title task /\
    payload task' = payload task /\
    created_at task' = created_at task /\
    created_by task' = created_by task /\
    completed_at task' = completed_at task /\
    failure_reason task' = failure_reason task.
Proof.
  intros Hlook Hs Ho Hh Hlive. unfold claim_task.
  rewrite (lookup_get_task _ _ _ Hlook).
  rewrite (recover_live self task tid now (events st) owner hb Ho Hh Hlive).
  rewrite Hs, Ho. unfold held_by_other. simpl.
  rewrite String.eqb_refl, andb_false_r. simpl.
  repeat split.
  - intros other Hne. by rewrite lookup_insert_ne.
  - eexists. rewrite lookup_insert_eq. repeat split; simpl; congruence.
Qed.

Lemma reclaim_refreshes_timestamps_witness :
  (claim_task demo "task_a1" "agent1" 10 demo_claimed).1 = Ok true /\
  heartbeat_at <$> tasks (claim_task demo "task_a1" "agent1" 10 demo_claimed).2
                     !! "task_a1" = Some (Some 10).
Proof.
  destruct (reclaim_refreshes_timestamps demo "task_a1" "agent1" 1 10
              demo_claimed demo_task)
    as (Hr & _ & _ & t' & Ht' & _ & Hhb & _).
  - vm_compute; reflexivity.
  - reflexivity.
  - reflexivity.
  - reflexivity.
  - vm_compute; discriminate.
  - split; [exact Hr|]. rewrite Ht'. simpl. by rewrite Hhb.
Defined.

(** C5 as stated fails: the owner's second claim, nine ticks after the
    first, returns true and moves [lock_acquired_at] and [heartbeat_at] of
    the persisted record from 1 to 10. *)
Lemma reclaim_changes_persisted_record :
  tasks demo_claimed !! "task_a1" = Some demo_task /\
  10 - 1 <= stale_after demo /\
  (claim_task demo "task_a1" "agent1" 10 demo_claimed).1 = Ok true /\
  tasks (claim_task demo "task_a1" "agent1" 10 demo_claimed).2 !! "task_a1"
    = Some (set_lock demo_task in_progress (Some "agent1") (Some 10) (Some 10)) /\
  set_lock demo_task in_progress (Some "agent1") (Some 10) (Some 10) <> demo_task.
Proof.
  repeat split; try (vm_compute; reflexivity); vm_compute; discriminate.
Qed.

(** *** Tasks are never deleted *)










(** *** Stale locks *)

(** A claimed task whose heartbeat is older than the stale timeout is
    claimed by whoever asks next. *)
Lemma stale_claim_succeeds self tid owner agent hb now st task :
  tasks st !! tid = Some task ->
  status task = in_progress ->
  lock_owner task = Some owner ->
  heartbeat_at task = Some hb ->
  stale_after self < now - hb ->
  (claim_task self tid agent now st).1 = Ok true.
Proof.
  intros Hlook Hs Ho Hh Hstale. unfold claim_task.
  rewrite (lookup_get_task _ _ _ Hlook).
  unfold _recover_stale_lock. rewrite Ho, Hh.
  destruct (truthy owner) eqn:Ht; simpl.
  - destruct (Z.leb_spec (now - hb) (stale_after self)); [lia|done].
  - rewrite Hs, Ho. simpl. by rewrite Ht.
Qed.

(** On a stale lock, heartbeat returns false to every caller, the former
    owner included: the recovery is logged, and the task file is left with
    the stale lock in it. *)
Lemma heartbeat_on_stale_lock self tid owner agent hb now st task :
  tasks st !! tid = Some task ->
  lock_owner task = Some owner ->
  truthy owner = true ->
  heartbeat_at task = Some hb ->
  stale_after self < now - hb ->
  heartbeat self tid agent now st =
    (Ok false,
     {| tasks := tasks st;
        events := _log_event self "lock_recovered" tid "orchestrator"
                    [("previous_owner", VStr owner)] now (events st) |}).
Proof.
  intros Hlook Ho Ht Hh Hstale. unfold heartbeat.
  rewrite (lookup_get_task _ _ _ Hlook).
  unfold _recover_stale_lock. rewrite Ho, Hh, Ht. simpl.
  destruct (Z.leb_spec (now - hb) (stale_after self)); [lia|done].
Qed.

(** C2, on the history create, claim by agent1 at tick 1, then nothing
    until tick 100 (timeout 90): the heartbeat of agent2 at tick 100 returns
    false, appends a [lock_recovered] event and leaves the task file
    unchanged, so the claim of agent2 at tick 101 finds the same stale lock,
    recovers it again and succeeds.  The event file then holds two
    [lock_recovered] events for a lock that went stale once. *)
Theorem stale_lock_recovered_twice :
  let st1 := (heartbeat demo "task_a1" "agent2" 100 demo_claimed).2 in
  let st2 := (claim_task demo "task_a1" "agent2" 101 st1).2 in
  (heartbeat demo "task_a1" "agent2" 100 demo_claimed).1 = Ok false /\
  tasks st1 = tasks demo_claimed /\
  count_lock_recovered "task_a1" (events demo_claimed) = 0%nat /\
  count_lock_recovered "task_a1" (events st1) = 1%nat /\
  (claim_task demo "task_a1" "agent2" 101 st1).1 = Ok true /\
  count_lock_recovered "task_a1" (events st2) = 2%nat.
Proof. repeat split; vm_compute; reflexivity. Qed.

(** *** The event file only grows *)

Lemma recover_spec self t tid now log :
  _recover_stale_lock self t tid now log =
    if stale self now t
    then (true, set_lock t pending None None None, log_recovery self now log (tid, t))
    else (false, t, log).
Proof.
  unfold _recover_stale_lock, stale, log_recovery. cbn [fst snd].
  destruct (lock_owner t) as [owner|]; [|done].
  destruct (heartbeat_at t) as [hb|]; [|done].
  destruct (truthy owner); simpl; [|done].
  by destruct (now - hb <=? stale_after self).
Qed.

Lemma log_event_extends self ty tid a m now log :
  log `prefix_of` _log_event self ty tid a m now log.
Proof.
  unfold _log_event. destruct (event_hook self) as [hook|].
  - destruct (hook _); [rewrite <- app_assoc|]; by eexists.
  - by eexists.
Qed.

Lemma recover_extends self t tid now log :
  log `prefix_of` (_recover_stale_lock self t tid now log).2.
Proof.
  rewrite recover_spec. destruct (stale self now t); [|done].
  apply log_event_extends.
Qed.

(** Closes a goal [log `prefix_of` log'] where [log'] is [log] after a
    stale check and at most one more event. *)
Ltac grows :=
  simpl;
  first [ done
        | apply log_event_extends
        | apply recover_extends
        | etransitivity; [|apply log_event_extends]; grows ].

Lemma create_task_events_extend self hex ttl pl by_ now st :
  events st `prefix_of` events (create_task self hex ttl pl by_ now st).2.
Proof. grows. Qed.

Lemma claim_task_events_extend self tid a now st :
  events st `prefix_of` events (claim_task self tid a now st).2.
Proof.
  unfold claim_task, _get_task_or_raise.
  destruct (tasks st !! tid) as [task|]; [|done].
  pose proof (recover_extends self task tid now (events st)) as Hr.
  destruct (_recover_stale_lock self task tid now (events st)) as [[hit t1] l1].
  destruct (is_terminal (status t1)); [done|].
  destruct (held_by_other (lock_owner t1) a); [done|].
  simpl in *. etransitivity; [exact Hr|apply log_event_extends].
Qed.

Lemma heartbeat_events_extend self tid a now st :
  events st `prefix_of` events (heartbeat self tid a now st).2.
Proof.
  unfold heartbeat, _get_task_or_raise.
  destruct (tasks st !! tid) as [task|]; [|done].
  pose proof (recover_extends self task tid now (events st)) as Hr.
  destruct (_recover_stale_lock self task tid now (events st)) as [[hit t1] l1].
  destruct (owner_differs (lock_owner t1) a); [done|].
  simpl in *. etransitivity; [exact Hr|apply log_event_extends].
Qed.

Lemma complete_task_events_extend self tid a now st :
  events st `prefix_of` events (complete_task self tid a now st).2.
Proof.
  unfold complete_task, _get_task_or_raise.
  destruct (tasks st !! tid) as [task|]; [|done].
  pose proof (recover_extends self task tid now (events st)) as Hr.
  destruct (_recover_stale_lock self task tid now (events st)) as [[hit t1] l1].
  destruct (owner_differs (lock_owner t1) a); [done|].
  simpl in *. etransitivity; [exact Hr|apply log_event_extends].
Qed.

Lemma fail_task_events_extend self tid a r now st :
  events st `prefix_of` events (fail_task self tid a r now st).2.
Proof.
  unfold fail_task, _get_task_or_raise.
  destruct (tasks st !! tid) as [task|]; [|done].
  pose proof (recover_extends self task tid now (events st)) as Hr.
  destruct (_recover_stale_lock self task tid now (events st)) as [[hit t1] l1].
  destruct (owner_differs (lock_owner t1) a); [done|].
  simpl in *. etransitivity; [exact Hr|apply log_event_extends].
Qed.

Lemma recover_loop_events_extend self now items : forall ts log rec,
  log `prefix_of` (fold_left (recover_one self now) items (ts, log, rec)).1.2.
Proof.
  induction items as [|[tid task] items IH]; intros ts log rec; [done|].
  simpl. pose proof (recover_extends self task tid now log) as Hr.
  destruct (_recover_stale_lock self task tid now log) as [[hit t1] l1].
  etransitivity; [exact Hr|apply IH].
Qed.

Lemma recover_stale_tasks_events_extend self now st :
  events st `prefix_of` events (recover_stale_tasks self now st).2.
Proof.
  unfold recover_stale_tasks.
  pose proof (recover_loop_events_extend self now (map_to_list (tasks st))
                (tasks st) (events st) []) as H.
  by destruct (fold_left _ _ _) as [[ts log] rec].
Qed.

Lemma step_events_extend self st call :
  events st `prefix_of` events (step self st call).
Proof.
  destruct call as [now op]. unfold step. destruct op.
  - apply create_task_events_extend.
  - apply claim_task_events_extend.
  - apply heartbeat_events_extend.
  - apply complete_task_events_extend.
  - apply fail_task_events_extend.
  - apply recover_stale_tasks_events_extend.
Qed.

(** X1. The event file is append-only: whatever calls follow a history,
    with whatever hook, the events logged so far stay where they are, in
    the same order, at the start of the file. *)
Theorem events_append_only self calls more st :
  events (run self calls st) `prefix_of` events (run self (calls ++ more) st).
Proof.
  unfold run. rewrite fold_left_app. generalize (fold_left (step self) calls st).
  induction more as [|c more IH]; intros st'; [done|].
  simpl. etransitivity; [apply step_events_extend|apply IH].
Qed.

(** *** What a recovery pass does *)

Lemma stale_recover_task self now t : stale self now (recover_task self now t) = false.
Proof.
  unfold recover_task. destruct (stale self now t) eqn:Hs; [done|exact Hs].
Qed.

Lemma recover_loop_spec self now items :
  NoDup items.*1 -> forall ts log rec,
  fold_left (recover_one self now) items (ts, log, rec)
  = (list_to_map (prod_map id (recover_task self now) <$> items) ∪ ts,
     fold_left (log_recovery self now)
       (filter (fun it => stale self now it.2 = true) items) log,
     rec ++ (filter (fun it => stale self now it.2 = true) items).*1).
Proof.
  induction items as [|[tid task] items IH]; intros Hnd ts log rec.
  - simpl. by rewrite (left_id_L ∅ (∪)), app_nil_r.
  - apply NoDup_cons in Hnd as [Hnot Hnd]. cbn [fold_left recover_one].
    rewrite recover_spec. rewrite filter_cons. cbn [snd].
    assert (Hfresh : (list_to_map (prod_map id (recover_task self now) <$> items)
                        : gmap string OrchestratedTask) !! tid = None).
    { apply not_elem_of_list_to_map_1. rewrite <- list_fmap_compose.
      intros Hin. apply Hnot. revert Hin. clear.
      induction items as [|[k t] items IH]; csimpl; [done|].
      rewrite !elem_of_cons. intros [->|?]; auto. }
    assert (Hmap : forall v,
               (list_to_map (prod_map id (recover_task self now) <$> items)
                  : gmap string OrchestratedTask) ∪ <[tid := v]> ts
               = <[tid := v]> (list_to_map (prod_map id (recover_task self now)
                                              <$> items)) ∪ ts).
    { intros v. by rewrite <- insert_union_r, insert_union_l. }
    assert (Hrt : recover_task self now task
                  = if stale self now task
                    then set_lock task pending None None None else task) by done.
    destruct (stale self now task) eqn:Hs.
    + rewrite decide_True by done. rewrite IH by done. csimpl.
      by rewrite Hmap, <- app_assoc, Hrt.
    + rewrite decide_False by (by intros ?). rewrite IH by done. csimpl.
      by rewrite Hmap, Hrt.
Qed.

Lemma recover_stale_tasks_spec self now st :
  recover_stale_tasks self now st
  = ((filter (fun it => stale self now it.2 = true) (map_to_list (tasks st))).*1,
     {| tasks := recover_task self now <$> tasks st;
        events := fold_left (log_recovery self now)
                    (filter (fun it => stale self now it.2 = true)
                            (map_to_list (tasks st)))
                    (events st) |}).
Proof.
  unfold recover_stale_tasks.
  rewrite recover_loop_spec by apply NoDup_fst_map_to_list.
  rewrite list_to_map_fmap, list_to_map_to_list. simpl. do 2 f_equal.
  apply map_eq. intros k. rewrite lookup_union, !lookup_fmap.
  by destruct (tasks st !! k).
Qed.

Lemma filter_none {A} (P : A -> Prop) `{forall x, Decision (P x)} (l : list A) :
  Forall (fun x => ~ P x) l -> filter P l = [].
Proof.
  induction 1 as [|x l Hx Hl IH]; [done|].
  rewrite filter_cons, decide_False by done. exact IH.
Qed.

(** X2. [recover_stale_tasks] resets exactly the stale tasks ([stale]: a
    non-empty owner and a heartbeat older than the timeout) and leaves every
    other task as it is; it returns the identifiers of the stale tasks, each
    once; and a second pass at the same clock reading finds nothing to
    recover and changes nothing. *)
Theorem recover_stale_tasks_exact self now st :
  tasks (recover_stale_tasks self now st).2 = recover_task self now <$> tasks st /\
  (forall tid,
     tid ∈ (recover_stale_tasks self now st).1 <->
     exists t, tasks st !! tid = Some t /\ stale self now t = true) /\
  NoDup (recover_stale_tasks self now st).1 /\
  recover_stale_tasks self now (recover_stale_tasks self now st).2
    = ([], (recover_stale_tasks self now st).2).
Proof.
  rewrite !recover_stale_tasks_spec. cbn [fst snd tasks]. split; [done|].
  split; [|split].
  - intros tid. rewrite list_elem_of_fmap. split.
    + intros ([k t] & -> & Hin). apply list_elem_of_filter in Hin as [Hs Hin].
      apply elem_of_map_to_list in Hin. eauto.
    + intros (t & Hlook & Hs). exists (tid, t). split; [done|].
      apply list_elem_of_filter. split; [done|]. by apply elem_of_map_to_list.
  - eapply NoDup_fmap_fst.
    + intros k t1 t2 [_ H1]%list_elem_of_filter [_ H2]%list_elem_of_filter.
      apply elem_of_map_to_list in H1, H2. congruence.
    + apply NoDup_filter, NoDup_map_to_list.
  - cbn [tasks events].
    assert (Hnone : filter (fun it => stale self now it.2 = true)
                      (map_to_list (recover_task self now <$> tasks st)) = []).
    { apply filter_none, Forall_forall. intros [k t] Hin. simpl.
      apply elem_of_map_to_list in Hin. rewrite lookup_fmap in Hin.
      destruct (tasks st !! k) as [t0|]; [|done]. injection Hin as <-.
      by rewrite stale_recover_task. }
    rewrite Hnone. simpl. do 2 f_equal.
    apply map_eq. intros k. rewrite !lookup_fmap.
    destruct (tasks st !! k) as [t|]; [|done]. simpl. f_equal.
    unfold recover_task at 1. by rewrite stale_recover_task.
Qed.

(** *** Who may heartbeat, complete and fail *)

Lemma owner_differs_decide o a :
  owner_differs o a = negb (bool_decide (o = Some a)).
Proof.
  destruct (owner_differs o a) eqn:Hd.
  - case_bool_decide as Ho; [|done]. subst. simpl in Hd.
    by rewrite String.eqb_refl in Hd.
  - apply owner_differs_false in Hd as ->. by rewrite bool_decide_eq_true_2.
Qed.

(** X3. On a task of the store, heartbeat, complete_task and fail_task
    return true exactly when the caller is the recorded lock owner and the
    lock is not stale at the time of the call; claim_task returns true when
    the lock is stale, and otherwise exactly when the task is not terminal
    and not held by another (non-empty) owner. *)
Theorem call_answers self tid agent reason now st task :
  tasks st !! tid = Some task ->
  let owns := bool_decide (lock_owner task = Some agent) && negb (stale self now task) in
  (heartbeat self tid agent now st).1 = Ok owns /\
  (complete_task self tid agent now st).1 = Ok owns /\
  (fail_task self tid agent reason now st).1 = Ok owns /\
  (claim_task self tid agent now st).1
    = Ok (stale self now task ||
          negb (is_terminal (status task)) &&
          negb (held_by_other (lock_owner task) agent)).
Proof.
  intros Hlook. unfold heartbeat, complete_task, fail_task, claim_task.
  rewrite (lookup_get_task _ _ _ Hlook), recover_spec.
  destruct (stale self now task) eqn:Hs.
  - cbn. by rewrite andb_false_r.
  - rewrite andb_true_r, (owner_differs_decide (lock_owner task) agent). cbn.
    repeat split.
    + by destruct (bool_decide _).
    + by destruct (bool_decide _).
    + by destruct (bool_decide _).
    + destruct (is_terminal (status task)); [done|].
      by destruct (held_by_other (lock_owner task) agent).
Qed.

Lemma call_answers_witness :
  (heartbeat demo "task_a1" "agent1" 50 demo_claimed).1 = Ok true /\
  (heartbeat demo "task_a1" "agent1" 500 demo_claimed).1 = Ok false.
Proof.
  assert (Hlook : tasks demo_claimed !! "task_a1" = Some demo_task)
    by (vm_compute; reflexivity).
  split.
  - exact (proj1 (call_answers demo "task_a1" "agent1" VNone 50 demo_claimed
                    demo_task Hlook)).
  - exact (proj1 (call_answers demo "task_a1" "agent1" VNone 500 demo_claimed
                    demo_task Hlook)).
Defined.

(** *** Terminal tasks *)

Lemma claim_task_other self tid a now st k :
  k <> tid -> tasks (claim_task self tid a now st).2 !! k = tasks st !! k.
Proof.
  intros Hk. unfold claim_task. open_call self st tid now.
  destruct (is_terminal (status task1)); [done|].
  destruct (held_by_other (lock_owner task1) a); [done|].
  simpl. by rewrite lookup_insert_ne.
Qed.

Lemma heartbeat_other self tid a now st k :
  k <> tid -> tasks (heartbeat self tid a now st).2 !! k = tasks st !! k.
Proof.
  intros Hk. unfold heartbeat. open_call self st tid now.
  destruct (owner_differs (lock_owner task1) a); [done|].
  simpl. by rewrite lookup_insert_ne.
Qed.

Lemma complete_task_other self tid a now st k :
  k <> tid -> tasks (complete_task self tid a now st).2 !! k = tasks st !! k.
Proof.
  intros Hk. unfold complete_task. open_call self st tid now.
  destruct (owner_differs (lock_owner task1) a); [done|].
  simpl. by rewrite lookup_insert_ne.
Qed.

Lemma fail_task_other self tid a r now st k :
  k <> tid -> tasks (fail_task self tid a r now st).2 !! k = tasks st !! k.
Proof.
  intros Hk. unfold fail_task. open_call self st tid now.
  destruct (owner_differs (lock_owner task1) a); [done|].
  simpl. by rewrite lookup_insert_ne.
Qed.

Lemma unowned_not_stale self now task : lock_owner task = None -> stale self now task = false.
Proof. unfold stale. by intros ->. Qed.

(** *** Unknown identifiers raise, conflicts answer false *)

(** C6. For a task identifier absent from the store, claim_task, heartbeat,
    complete_task, fail_task and get_task all raise the same KeyError
    ("Unknown task_id: ...") and leave the store as it was.  For a task
    identifier present in the store none of them raises: get_task returns
    the task and each of the others returns a boolean, and a conflict is
    the result [false]:
    - heartbeat, complete_task and fail_task answer true exactly when the
      caller is the recorded lock owner and the lock is not stale, so a
      caller that is not the recorded owner gets false;
    - claim_task answers true exactly when the lock is stale or the task is
      neither terminal nor held by another (non-empty) owner, so on a lock
      that is not stale a terminal task and a task held by another owner
      give false;
    - on a task that satisfies the lock invariant, a terminal status gives
      false to all four. *)
Theorem unknown_id_raises_known_id_returns self tid a reason now st :
  (tasks st !! tid = None /\
   claim_task self tid a now st = (Raise (unknown_task tid), st) /\
   heartbeat self tid a now st = (Raise (unknown_task tid), st) /\
   complete_task self tid a now st = (Raise (unknown_task tid), st) /\
   fail_task self tid a reason now st = (Raise (unknown_task tid), st) /\
   get_task tid st = Raise (unknown_task tid))
  \/
  (exists task b1 b2 b3 b4,
     tasks st !! tid = Some task /\
     (claim_task self tid a now st).1 = Ok b1 /\
     (heartbeat self tid a now st).1 = Ok b2 /\
     (complete_task self tid a now st).1 = Ok b3 /\
     (fail_task self tid a reason now st).1 = Ok b4 /\
     get_task tid st = Ok task /\
     b1 = (stale self now task ||
           negb (is_terminal (status task)) &&
           negb (held_by_other (lock_owner task) a)) /\
     b2 = (bool_decide (lock_owner task = Some a) && negb (stale self now task)) /\
     b3 = b2 /\ b4 = b2 /\
     (lock_owner task <> Some a -> b2 = false /\ b3 = false /\ b4 = false) /\
     (stale self now task = false ->
      is_terminal (status task) = true \/ held_by_other (lock_owner task) a = true ->
      b1 = false) /\
     (lock_consistent task -> is_terminal (status task) = true ->
      b1 = false /\ b2 = false /\ b3 = false /\ b4 = false)).
Proof.
  destruct (tasks st !! tid) as [task|] eqn:Hlook.
  - right.
    exists task,
      (stale self now task ||
       negb (is_terminal (status task)) && negb (held_by_other (lock_owner task) a)),
      (bool_decide (lock_owner task = Some a) && negb (stale self now task)),
      (bool_decide (lock_owner task = Some a) && negb (stale self now task)),
      (bool_decide (lock_owner task = Some a) && negb (stale self now task)).
    split; [done|].
    assert (Hcalls :
      (claim_task self tid a now st).1
        = Ok (stale self now task ||
              negb (is_terminal (status task)) &&
              negb (held_by_other (lock_owner task) a)) /\
      (heartbeat self tid a now st).1
        = Ok (bool_decide (lock_owner task = Some a) && negb (stale self now task)) /\
      (complete_task self tid a now st).1
        = Ok (bool_decide (lock_owner task = Some a) && negb (stale self now task)) /\
      (fail_task self tid a reason now st).1
        = Ok (bool_decide (lock_owner task = Some a) && negb (stale self now task))).
    { unfold heartbeat, complete_task, fail_task, claim_task.
      rewrite (lookup_get_task _ _ _ Hlook), recover_spec.
      destruct (stale self now task) eqn:Hs.
      - cbn. by rewrite andb_false_r.
      - rewrite andb_true_r, (owner_differs_decide (lock_owner task) a). cbn.
        split; [|by destruct (bool_decide _)].
        destruct (is_terminal (status task)); [done|].
        by destruct (held_by_other (lock_owner task) a). }
    destruct Hcalls as (H1 & H2 & H3 & H4).
    split; [exact H1|]. split; [exact H2|]. split; [exact H3|]. split; [exact H4|].
    split; [unfold get_task; by rewrite (lookup_get_task _ _ _ Hlook)|].
    split; [done|]. split; [done|]. split; [done|]. split; [done|].
    split; [|split].
    + intros Hne. by rewrite bool_decide_eq_false_2.
    + intros -> [->| ->]; [done|]. cbn. by rewrite andb_false_r.
    + intros [Hc1 Hc2] Hterm.
      assert (Ho : lock_owner task = None).
      { destruct (lock_owner task) as [o|] eqn:Ho; [|done].
        assert (Hip : status task = in_progress) by (apply Hc1; eauto).
        rewrite Hip in Hterm. discriminate. }
      rewrite (unowned_not_stale self now task Ho), Hterm, Ho.
      by rewrite bool_decide_eq_false_2.
  - left. unfold claim_task, heartbeat, complete_task, fail_task, get_task.
    by rewrite (lookup_get_task_None _ _ Hlook).
Qed.

(** A second agent asks for the heartbeat, the completion and the failure
    of a task that agent1 holds: each answer is false. *)
Lemma unknown_id_raises_known_id_returns_witness :
  (heartbeat demo "task_a1" "agent2" 50 demo_claimed).1 = Ok false /\
  (complete_task demo "task_a1" "agent2" 50 demo_claimed).1 = Ok false /\
  (fail_task demo "task_a1" "agent2" (VStr "why") 50 demo_claimed).1 = Ok false /\
  (claim_task demo "task_a1" "agent2" 50 demo_claimed).1 = Ok false.
Proof.
  destruct (unknown_id_raises_known_id_returns demo "task_a1" "agent2" (VStr "why") 50
              demo_claimed)
    as [(Habsent & _)|(task & b1 & b2 & b3 & b4 & Hlook & -> & -> & -> & -> & _ &
                        _ & _ & _ & _ & Howner & Hclaim & _)].
  - vm_compute in Habsent. discriminate.
  - vm_compute in Hlook. injection Hlook as <-.
    destruct Howner as (-> & -> & ->); [discriminate|].
    rewrite Hclaim; [done|reflexivity|by right].
Defined.

Lemma terminal_calls_denied self tid a reason now st task :
  tasks st !! tid = Some task ->
  is_terminal (status task) = true ->
  lock_owner task = None ->
  claim_task self tid a now st = (Ok false, st) /\
  heartbeat self tid a now st = (Ok false, st) /\
  complete_task self tid a now st = (Ok false, st) /\
  fail_task self tid a reason now st = (Ok false, st).
Proof.
  intros Hlook Hterm Ho.
  unfold claim_task, heartbeat, complete_task, fail_task.
  rewrite (lookup_get_task _ _ _ Hlook), recover_spec,
    (unowned_not_stale self now task Ho), Hterm, Ho, store_eta. done.
Qed.

(** X4. A task that a history from the empty store has brought to
    [completed] or [failed] is frozen: claim_task, heartbeat, complete_task
    and fail_task on it return false and leave the whole persisted state as
    it is, and no call changes its record, the one exception being a
    create_task that draws its identifier again. *)
Theorem terminal_task_frozen self calls call tid task a reason now :
  tasks (run self calls empty_store) !! tid = Some task ->
  is_terminal (status task) = true ->
  (forall hex ttl pl by_, call.2 = OpCreate hex ttl pl by_ -> "task_" +:+ hex <> tid) ->
  let st := run self calls empty_store in
  tasks (step self st call) !! tid = Some task /\
  claim_task self tid a now st = (Ok false, st) /\
  heartbeat self tid a now st = (Ok false, st) /\
  complete_task self tid a now st = (Ok false, st) /\
  fail_task self tid a reason now st = (Ok false, st).
Proof.
  intros Hlook Hterm Hcreate st. subst st.
  set (st := run self calls empty_store) in *.
  assert (Ho : lock_owner task = None).
  { assert (Hc : lock_consistent task).
    { eapply (run_consistent self calls empty_store); [|exact Hlook].
      unfold store_consistent, empty_store. simpl. apply map_Forall_empty. }
    destruct Hc as [Hc _]. destruct (lock_owner task) as [o|]; [|done].
    assert (Hs : status task = in_progress) by (apply Hc; eauto).
    rewrite Hs in Hterm. discriminate. }
  split; [|by apply (terminal_calls_denied self tid a reason now st task)].
  assert (Hden : forall a' r' t',
            claim_task self tid a' t' st = (Ok false, st) /\
            heartbeat self tid a' t' st = (Ok false, st) /\
            complete_task self tid a' t' st = (Ok false, st) /\
            fail_task self tid a' r' t' st = (Ok false, st)).
  { intros a' r' t'. by apply (terminal_calls_denied self tid a' r' t' st task). }
  destruct call as [t op]. unfold step. destruct op as [hex ttl pl by_|k a'|k a'|k a'|k a' r'|].
  - simpl. rewrite lookup_insert_ne; [done|]. by eapply Hcreate.
  - destruct (decide (k = tid)) as [->|Hne].
    + by rewrite (proj1 (Hden a' VNone t)).
    + by rewrite claim_task_other.
  - destruct (decide (k = tid)) as [->|Hne].
    + by rewrite (proj1 (proj2 (Hden a' VNone t))).
    + by rewrite heartbeat_other.
  - destruct (decide (k = tid)) as [->|Hne].
    + by rewrite (proj1 (proj2 (proj2 (Hden a' VNone t)))).
    + by rewrite complete_task_other.
  - destruct (decide (k = tid)) as [->|Hne].
    + by rewrite (proj2 (proj2 (proj2 (Hden a' r' t)))).
    + by rewrite fail_task_other.
  - rewrite recover_stale_tasks_spec. cbn [snd tasks].
    rewrite lookup_fmap, Hlook. simpl. unfold recover_task.
    by rewrite (unowned_not_stale self t task Ho).
Qed.

Lemma terminal_task_frozen_witness :
  let st := run demo [(0, OpCreate "a1" "x" [] "henry"); (1, OpClaim "task_a1" "agent1");
                      (2, OpComplete "task_a1" "agent1")] empty_store in
  claim_task demo "task_a1" "agent2" 9 st = (Ok false, st) /\
  (status <$> tasks (step demo st (500, OpRecover)) !! "task_a1") = Some completed.
Proof.
  intros st.
  destruct (terminal_task_frozen demo
              [(0, OpCreate "a1" "x" [] "henry"); (1, OpClaim "task_a1" "agent1");
               (2, OpComplete "task_a1" "agent1")]
              (500, OpRecover) "task_a1"
              (set_lock (set_completed_at demo_task (Some 2)) completed None None None)
              "agent2" VNone 9) as (Hstep & Hclaim & _).
  - vm_compute; reflexivity.
  - reflexivity.
  - intros hex ttl pl by_ Hop. discriminate Hop.
  - split; [exact Hclaim|]. fold st in Hstep. by rewrite Hstep.
Defined.

(** *** The lease *)

Lemma claim_task_granted self tid a now st :
  (claim_task self tid a now st).1 = Ok true ->
  exists task,
    tasks (claim_task self tid a now st).2 !! tid = Some task /\
    status task = in_progress /\ lock_owner task = Some a /\
    heartbeat_at task = Some now.
Proof.
  unfold claim_task. open_call self st tid now.
  destruct (is_terminal (status task1)); [done|].
  destruct (held_by_other (lock_owner task1) a); [done|].
  intros _. eexists. simpl. rewrite lookup_insert_eq. done.
Qed.

Lemma heartbeat_granted self tid a now st :
  (heartbeat self tid a now st).1 = Ok true ->
  exists task,
    tasks (heartbeat self tid a now st).2 !! tid = Some task /\
    lock_owner task = Some a /\ heartbeat_at task = Some now.
Proof.
  unfold heartbeat. open_call self st tid now.
  destruct (owner_differs (lock_owner task1) a) eqn:Ho; [done|].
  apply owner_differs_false in Ho.
  intros _. eexists. simpl. rewrite lookup_insert_eq. done.
Qed.

Lemma live_lock_excludes self tid a b reason hb now st task :
  tasks st !! tid = Some task ->
  lock_owner task = Some a -> a <> "" -> heartbeat_at task = Some hb ->
  now - hb <= stale_after self -> b <> a ->
  claim_task self tid b now st = (Ok false, st) /\
  heartbeat self tid b now st = (Ok false, st) /\
  complete_task self tid b now st = (Ok false, st) /\
  fail_task self tid b reason now st = (Ok false, st).
Proof.
  intros Hlook Ho Ha Hh Hlive Hb.
  unfold claim_task, heartbeat, complete_task, fail_task.
  rewrite (lookup_get_task _ _ _ Hlook),
    (recover_live self task tid now (events st) a hb Ho Hh Hlive), Ho, store_eta.
  assert (held_by_other (Some a) b = true) as ->.
  { unfold held_by_other, truthy. destruct (String.eqb_spec a ""); [done|].
    destruct (String.eqb_spec a b); [by subst|done]. }
  assert (owner_differs (Some a) b = true) as ->.
  { simpl. destruct (String.eqb_spec a b); [by subst|done]. }
  by destruct (is_terminal (status task)).
Qed.

(** X5. The lease: once claim_task or heartbeat has returned true to an
    agent with a non-empty identifier at time t, every claim_task,
    heartbeat, complete_task and fail_task of another agent made no later
    than t + stale_after returns false and leaves the persisted state
    untouched. *)
Theorem lease_excludes_others self tid a b reason t t' st :
  a <> "" -> b <> a -> t' - t <= stale_after self ->
  ((claim_task self tid a t st).1 = Ok true ->
   let st1 := (claim_task self tid a t st).2 in
   claim_task self tid b t' st1 = (Ok false, st1) /\
   heartbeat self tid b t' st1 = (Ok false, st1) /\
   complete_task self tid b t' st1 = (Ok false, st1) /\
   fail_task self tid b reason t' st1 = (Ok false, st1)) /\
  ((heartbeat self tid a t st).1 = Ok true ->
   let st1 := (heartbeat self tid a t st).2 in
   claim_task self tid b t' st1 = (Ok false, st1) /\
   heartbeat self tid b t' st1 = (Ok false, st1) /\
   complete_task self tid b t' st1 = (Ok false, st1) /\
   fail_task self tid b reason t' st1 = (Ok false, st1)).
Proof.
  intros Ha Hb Ht. split; intros Hok st1.
  - destruct (claim_task_granted self tid a t st Hok) as (task & Hl & _ & Ho & Hh).
    by apply (live_lock_excludes self tid a b reason t t' st1 task).
  - destruct (heartbeat_granted self tid a t st Hok) as (task & Hl & Ho & Hh).
    by apply (live_lock_excludes self tid a b reason t t' st1 task).
Qed.

Lemma lease_excludes_others_witness :
  let st0 := (create_task demo "a1" "x" [] "henry" 0 empty_store).2 in
  let st1 := (claim_task demo "task_a1" "agent1" 1 st0).2 in
  claim_task demo "task_a1" "agent2" 91 st1 = (Ok false, st1).
Proof.
  intros st0 st1.
  destruct (lease_excludes_others demo "task_a1" "agent1" "agent2" VNone 1 91 st0)
    as [Hclaim _].
  - discriminate.
  - discriminate.
  - vm_compute; discriminate.
  - destruct Hclaim as [H _]; [vm_compute; reflexivity|exact H].
Defined.

(** *** A task from creation to completion *)

(** X6. create_task, then claim_task by a non-empty agent on the new task,
    then complete_task by the same agent: the claim always returns true;
    the completion returns true, leaving the task [completed] and unlocked,
    when it comes within the stale timeout of the claim, and otherwise
    returns false and leaves the task file as it was, the task still
    [in_progress] under the agent's lock. *)
Theorem create_claim_complete self hex ttl pl by_ a t0 t1 t2 st :
  a <> "" ->
  let tid := "task_" +:+ hex in
  let st1 := (create_task self hex ttl pl by_ t0 st).2 in
  let st2 := (claim_task self tid a t1 st1).2 in
  let st3 := (complete_task self tid a t2 st2).2 in
  (claim_task self tid a t1 st1).1 = Ok true /\
  (t2 - t1 <= stale_after self ->
   (complete_task self tid a t2 st2).1 = Ok true /\
   exists task, tasks st3 !! tid = Some task /\ status task = completed /\
                lock_owner task = None /\ heartbeat_at task = None /\
                completed_at task = Some t2) /\
  (stale_after self < t2 - t1 ->
   (complete_task self tid a t2 st2).1 = Ok false /\
   tasks st3 = tasks st2 /\
   exists task, tasks st3 !! tid = Some task /\ status task = in_progress /\
                lock_owner task = Some a).
Proof.
  intros Ha. cbv zeta. set (tid := "task_" +:+ hex).
  set (st1 := (create_task self hex ttl pl by_ t0 st).2).
  assert (Hl1 : tasks st1 !! tid = Some (new_task tid ttl pl t0 by_))
    by apply lookup_insert_eq.
  assert (Hclaim : claim_task self tid a t1 st1
                   = (Ok true,
                      {| tasks := <[tid := set_lock (new_task tid ttl pl t0 by_)
                                             in_progress (Some a) (Some t1) (Some t1)]>
                                    (tasks st1);
                         events := _log_event self "task_claimed" tid a [] t1
                                     (events st1) |})).
  { unfold claim_task. by rewrite (lookup_get_task _ _ _ Hl1), recover_spec. }
  rewrite Hclaim. cbn [fst snd].
  set (st2 := {| tasks := _; events := _ |}).
  assert (Hl2 : tasks st2 !! tid
                = Some (set_lock (new_task tid ttl pl t0 by_) in_progress
                          (Some a) (Some t1) (Some t1)))
    by apply lookup_insert_eq.
  assert (Htruthy : truthy a = true).
  { unfold truthy. by destruct (String.eqb_spec a ""). }
  split; [done|]. split; intros Ht.
  - unfold complete_task. rewrite (lookup_get_task _ _ _ Hl2), recover_spec.
    unfold stale. cbn [lock_owner heartbeat_at set_lock]. rewrite Htruthy.
    destruct (Z.leb_spec (t2 - t1) (stale_after self)); [|lia].
    cbn. rewrite String.eqb_refl. cbn. split; [done|].
    eexists. rewrite lookup_insert_eq. done.
  - unfold complete_task. rewrite (lookup_get_task _ _ _ Hl2), recover_spec.
    unfold stale. cbn [lock_owner heartbeat_at set_lock]. rewrite Htruthy.
    destruct (Z.leb_spec (t2 - t1) (stale_after self)); [lia|].
    cbn. split; [done|]. split; [done|]. eexists. split; [exact Hl2|done].
Qed.

Lemma create_claim_complete_witness :
  let st1 := (create_task demo "a1" "x" [] "henry" 0 empty_store).2 in
  let st2 := (claim_task demo "task_a1" "agent1" 1 st1).2 in
  (complete_task demo "task_a1" "agent1" 50 st2).1 = Ok true /\
  (complete_task demo "task_a1" "agent1" 500 st2).1 = Ok false.
Proof.
  intros st1 st2. split.
  - destruct (create_claim_complete demo "a1" "x" [] "henry" "agent1" 0 1 50
                empty_store) as (_ & Hin & _); [discriminate|].
    destruct Hin as [H _]; [vm_compute; discriminate|exact H].
  - destruct (create_claim_complete demo "a1" "x" [] "henry" "agent1" 0 1 500
                empty_store) as (_ & _ & Hout); [discriminate|].
    destruct Hout as [H _]; [vm_compute; reflexivity|exact H].
Defined.

(** *** The event hook *)

Lemma strip_log_event self ty tid a m now log log0 :
  ty <> "event_hook_error" ->
  without_hook_errors log = log0 ->
  without_hook_errors (_log_event self ty tid a m now log)
  = _log_event (unhooked self) ty tid a m now log0.
Proof.
  intros Hty <-. unfold _log_event, without_hook_errors. cbn [event_hook unhooked].
  destruct (event_hook self) as [hook|]; [destruct (hook _)|];
    rewrite !filter_app, !filter_cons, ?filter_nil; cbn [ev_type];
    rewrite decide_True by done; try rewrite decide_False by (by intros []);
    by rewrite ?app_nil_r.
Qed.

Lemma recover_sim self t tid now log log0 :
  without_hook_errors log = log0 ->
  (_recover_stale_lock self t tid now log).1
    = (_recover_stale_lock (unhooked self) t tid now log0).1 /\
  without_hook_errors (_recover_stale_lock self t tid now log).2
    = (_recover_stale_lock (unhooked self) t tid now log0).2.
Proof.
  intros Hlog. rewrite !recover_spec.
  change (stale (unhooked self) now t) with (stale self now t).
  destruct (stale self now t); [|done]. split; [done|].
  by apply strip_log_event.
Qed.

(** Brings the stale checks of the hooked and of the unhooked call on the
    same task to a common result. *)
Ltac align_recover self task tid now st st0 Hev :=
  let Hsim := fresh "Hsim" in
  pose proof (recover_sim self task tid now (events st) (events st0) Hev) as Hsim;
  destruct (_recover_stale_lock self task tid now (events st)) as [[? ?] ?];
  destruct (_recover_stale_lock (unhooked self) task tid now (events st0))
    as [[? ?] ?];
  cbn [fst snd] in Hsim; destruct Hsim as [[= <- <-] Hsim].

Lemma create_task_sim self hex ttl pl by_ now st st0 :
  tasks st = tasks st0 -> without_hook_errors (events st) = events st0 ->
  tasks (create_task self hex ttl pl by_ now st).2
    = tasks (create_task (unhooked self) hex ttl pl by_ now st0).2 /\
  without_hook_errors (events (create_task self hex ttl pl by_ now st).2)
    = events (create_task (unhooked self) hex ttl pl by_ now st0).2.
Proof.
  intros Ht Hev. simpl. rewrite Ht. split; [done|]. by apply strip_log_event.
Qed.

Lemma claim_task_sim self tid a now st st0 :
  tasks st = tasks st0 -> without_hook_errors (events st) = events st0 ->
  (claim_task self tid a now st).1 = (claim_task (unhooked self) tid a now st0).1 /\
  tasks (claim_task self tid a now st).2
    = tasks (claim_task (unhooked self) tid a now st0).2 /\
  without_hook_errors (events (claim_task self tid a now st).2)
    = events (claim_task (unhooked self) tid a now st0).2.
Proof.
  intros Ht Hev. unfold claim_task. rewrite Ht.
  destruct (_get_task_or_raise (tasks st0) tid) as [task|e]; [|done].
  align_recover self task tid now st st0 Hev.
  destruct (is_terminal _); [done|]. destruct (held_by_other _ _); [done|].
  simpl. split; [done|]. split; [done|]. by apply strip_log_event.
Qed.

Lemma heartbeat_sim self tid a now st st0 :
  tasks st = tasks st0 -> without_hook_errors (events st) = events st0 ->
  (heartbeat self tid a now st).1 = (heartbeat (unhooked self) tid a now st0).1 /\
  tasks (heartbeat self tid a now st).2
    = tasks (heartbeat (unhooked self) tid a now st0).2 /\
  without_hook_errors (events (heartbeat self tid a now st).2)
    = events (heartbeat (unhooked self) tid a now st0).2.
Proof.
  intros Ht Hev. unfold heartbeat. rewrite Ht.
  destruct (_get_task_or_raise (tasks st0) tid) as [task|e]; [|done].
  align_recover self task tid now st st0 Hev.
  destruct (owner_differs _ _); [done|].
  simpl. split; [done|]. split; [done|]. by apply strip_log_event.
Qed.

Lemma complete_task_sim self tid a now st st0 :
  tasks st = tasks st0 -> without_hook_errors (events st) = events st0 ->
  (complete_task self tid a now st).1
    = (complete_task (unhooked self) tid a now st0).1 /\
  tasks (complete_task self tid a now st).2
    = tasks (complete_task (unhooked self) tid a now st0).2 /\
  without_hook_errors (events (complete_task self tid a now st).2)
    = events (complete_task (unhooked self) tid a now st0).2.
Proof.
  intros Ht Hev. unfold complete_task. rewrite Ht.
  destruct (_get_task_or_raise (tasks st0) tid) as [task|e]; [|done].
  align_recover self task tid now st st0 Hev.
  destruct (owner_differs _ _); [done|].
  simpl. split; [done|]. split; [done|]. by apply strip_log_event.
Qed.

Lemma fail_task_sim self tid a r now st st0 :
  tasks st = tasks st0 -> without_hook_errors (events st) = events st0 ->
  (fail_task self tid a r now st).1 = (fail_task (unhooked self) tid a r now st0).1 /\
  tasks (fail_task self tid a r now st).2
    = tasks (fail_task (unhooked self) tid a r now st0).2 /\
  without_hook_errors (events (fail_task self tid a r now st).2)
    = events (fail_task (unhooked self) tid a r now st0).2.
Proof.
  intros Ht Hev. unfold fail_task. rewrite Ht.
  destruct (_get_task_or_raise (tasks st0) tid) as [task|e]; [|done].
  align_recover self task tid now st st0 Hev.
  destruct (owner_differs _ _); [done|].
  simpl. split; [done|]. split; [done|]. by apply strip_log_event.
Qed.

Lemma recover_stale_tasks_sim self now st st0 :
  tasks st = tasks st0 -> without_hook_errors (events st) = events st0 ->
  (recover_stale_tasks self now st).1 = (recover_stale_tasks (unhooked self) now st0).1 /\
  tasks (recover_stale_tasks self now st).2
    = tasks (recover_stale_tasks (unhooked self) now st0).2 /\
  without_hook_errors (events (recover_stale_tasks self now st).2)
    = events (recover_stale_tasks (unhooked self) now st0).2.
Proof.
  intros Ht Hev. rewrite !recover_stale_tasks_spec. cbn [fst snd tasks events].
  rewrite Ht. split; [done|]. split; [done|].
  change (fun it : string * OrchestratedTask => stale (unhooked self) now it.2 = true)
    with (fun it : string * OrchestratedTask => stale self now it.2 = true).
  revert Hev. generalize (events st) (events st0).
  induction (filter _ (map_to_list (tasks st0))) as [|it l IH];
    intros log log0 Hlog; [done|].
  simpl. apply IH. by apply strip_log_event.
Qed.

Lemma step_sim self call st st0 :
  tasks st = tasks st0 -> without_hook_errors (events st) = events st0 ->
  tasks (step self st call) = tasks (step (unhooked self) st0 call) /\
  without_hook_errors (events (step self st call))
    = events (step (unhooked self) st0 call).
Proof.
  intros Ht Hev. destruct call as [now op]. unfold step. destruct op.
  - by apply create_task_sim.
  - by apply claim_task_sim.
  - by apply heartbeat_sim.
  - by apply complete_task_sim.
  - by apply fail_task_sim.
  - by apply recover_stale_tasks_sim.
Qed.

(** X7. The event hook is an observer: with any hook, raising or not,
    every history leaves the same task file as with no hook at all, and the
    same event file once the synthetic [event_hook_error] events are set
    aside; no ordinary event is lost or reordered. *)
Theorem hook_only_adds_hook_errors self calls :
  tasks (run self calls empty_store) = tasks (run (unhooked self) calls empty_store) /\
  without_hook_errors (events (run self calls empty_store))
    = events (run (unhooked self) calls empty_store).
Proof.
  unfold run.
  assert (Hgen : forall st st0,
            tasks st = tasks st0 -> without_hook_errors (events st) = events st0 ->
            tasks (fold_left (step self) calls st)
              = tasks (fold_left (step (unhooked self)) calls st0) /\
            without_hook_errors (events (fold_left (step self) calls st))
              = events (fold_left (step (unhooked self)) calls st0)).
  { induction calls as [|c calls IH]; intros st st0 Ht Hev; [done|].
    simpl. destruct (step_sim self c st st0 Ht Hev). by apply IH. }
  by apply Hgen.
Qed.

(** With a hook that always raises, the one claim of the history below
    logs four events, and the two ordinary ones are those logged without a
    hook. *)
Example raising_hook_history :
  let calls := [(0, OpCreate "a1" "x" [] "henry"); (1, OpClaim "task_a1" "agent1")] in
  ev_type <$> events (run demo_raising calls empty_store)
    = ["task_created"; "event_hook_error"; "task_claimed"; "event_hook_error"] /\
  ev_type <$> events (run demo calls empty_store) = ["task_created"; "task_claimed"].
Proof. split; vm_compute; reflexivity. Qed.

(** *** Calls on a new task and calls by the owner *)

Lemma claim_new_task self hex ttl pl by_ a t0 t1 st :
  claim_task self ("task_" +:+ hex) a t1 (create_task self hex ttl pl by_ t0 st).2
  = (Ok true,
     {| tasks := <["task_" +:+ hex :=
                    set_lock (new_task ("task_" +:+ hex) ttl pl t0 by_) in_progress
                      (Some a) (Some t1) (Some t1)]>
                   (tasks (create_task self hex ttl pl by_ t0 st).2);
        events := _log_event self "task_claimed" ("task_" +:+ hex) a [] t1
                    (events (create_task self hex ttl pl by_ t0 st).2) |}).
Proof.
  assert (Hl : tasks (create_task self hex ttl pl by_ t0 st).2 !! ("task_" +:+ hex)
               = Some (new_task ("task_" +:+ hex) ttl pl t0 by_))
    by apply lookup_insert_eq.
  unfold claim_task. by rewrite (lookup_get_task _ _ _ Hl), recover_spec.
Qed.



Lemma owner_completes_live self tid a hb now st task :
  tasks st !! tid = Some task ->
  lock_owner task = Some a -> heartbeat_at task = Some hb ->
  now - hb <= stale_after self ->
  complete_task self tid a now st
  = (Ok true,
     {| tasks := <[tid := set_lock (set_completed_at task (Some now)) completed
                            None None None]> (tasks st);
        events := _log_event self "task_completed" tid a [] now (events st) |}).
Proof.
  intros Hlook Ho Hh Hlive. unfold complete_task.
  rewrite (lookup_get_task _ _ _ Hlook),
    (recover_live self task tid now (events st) a hb Ho Hh Hlive), Ho.
  simpl. by rewrite String.eqb_refl.
Qed.

Lemma owner_fails_live self tid a reason hb now st task :
  tasks st !! tid = Some task ->
  lock_owner task = Some a -> heartbeat_at task = Some hb ->
  now - hb <= stale_after self ->
  fail_task self tid a reason now st
  = (Ok true,
     {| tasks := <[tid := set_lock (set_failure_reason task reason) failed
                            None None None]> (tasks st);
        events := _log_event self "task_failed" tid a [("reason", reason)] now
                    (events st) |}).
Proof.
  intros Hlook Ho Hh Hlive. unfold fail_task.
  rewrite (lookup_get_task _ _ _ Hlook),
    (recover_live self task tid now (events st) a hb Ho Hh Hlive), Ho.
  simpl. by rewrite String.eqb_refl.
Qed.

Lemma claim_created self tid ttl pl by_ a t0 t1 ts ev :
  claim_task self tid a t1
    {| tasks := <[tid := new_task tid ttl pl t0 by_]> ts; events := ev |}
  = (Ok true,
     {| tasks := <[tid := set_lock (new_task tid ttl pl t0 by_) in_progress
                            (Some a) (Some t1) (Some t1)]>
                   (<[tid := new_task tid ttl pl t0 by_]> ts);
        events := _log_event self "task_claimed" tid a [] t1 ev |}).
Proof.
  unfold claim_task, _get_task_or_raise. cbn [tasks events].
  by rewrite lookup_insert_eq, recover_spec.
Qed.

End Orchestrator.

(* ===================================================================== *)
(** ** message_bus.py *)
(* ===================================================================== *)

Module Bus.

(** [s[:-1]]. *)
Fixpoint drop_last (s : string) : string :=
  match s with
  | EmptyString => EmptyString
  | String c s' =>
      match s' with
      | EmptyString => EmptyString
      | String _ _ => String c (drop_last s')
      end
  end.

(** [s.endswith(c)] for a one-character suffix. *)
Fixpoint endswith_char (s : string) (c : ascii) : bool :=
  match s with
  | EmptyString => false
  | String d s' =>
      match s' with
      | EmptyString => Ascii.eqb d c
      | String _ _ => endswith_char s' c
      end
  end.

(** [s.startswith(p)]. *)
Fixpoint startswith (s p : string) {struct p} : bool :=
  match p, s with
  | EmptyString, _ => true
  | String c p', String d s' => Ascii.eqb d c && startswith s' p'
  | String _ _, EmptyString => false
  end.

(** A handler is a callable; the bus compares handlers with [==], which for
    Python functions is identity.  A handler is named by a number and run
    through the interpretation [call] below. *)
Definition Handler := nat.

Record Subscription := {
  pattern : string;
  handler : Handler
}.

#[global] Instance Subscription_eq_dec : EqDecision Subscription.
Proof. solve_decision. Defined.

(** The envelope [{"route": route, "payload": payload}]. *)
Record Message := {
  route : string;
  msg_payload : Dict
}.

Record MessageBus := {
  port : Z;
  _subscriptions : list Subscription;
  _running : bool
}.

(** [MessageBus(port)]. *)
Definition new_bus (p : Z) : MessageBus :=
  {| port := p; _subscriptions := []; _running := false |}.

Definition set_subscriptions (bus : MessageBus) (subs : list Subscription) : MessageBus :=
  {| port := port bus; _subscriptions := subs; _running := _running bus |}.

Definition start (bus : MessageBus) : MessageBus :=
  {| port := port bus; _subscriptions := _subscriptions bus; _running := true |}.

Definition stop (bus : MessageBus) : MessageBus :=
  {| port := port bus; _subscriptions := _subscriptions bus; _running := false |}.

(** [_matches]. *)
Definition _matches (pat rt : string) : bool :=
  if endswith_char pat "*"%char then startswith rt (drop_last pat)
  else String.eqb pat rt.

(** [list.remove(x)]: the first element equal to [x] goes. *)
Fixpoint list_remove (x : Subscription) (l : list Subscription) : list Subscription :=
  match l with
  | [] => []
  | y :: l' => if decide (y = x) then l' else y :: list_remove x l'
  end.

(** [subscribe]: the bus after the call and the subscription captured by the
    closure [_unsubscribe] that is returned. *)
Definition subscribe (bus : MessageBus) (pat : string) (h : Handler)
    : MessageBus * Subscription :=
  let sub := {| pattern := pat; handler := h |} in
  (set_subscriptions bus (_subscriptions bus ++ [sub]), sub).


(** The closure [_unsubscribe] returned by [subscribe], called on the bus
    as it is at the time of the call. *)
Definition _unsubscribe (sub : Subscription) (bus : MessageBus) : MessageBus :=
  if decide (sub ∈ _subscriptions bus)
  then set_subscriptions bus (list_remove sub (_subscriptions bus))
  else bus.

(** The list [handlers] built by [publish] under the lock. *)
Definition matching_handlers (bus : MessageBus) (rt : string)
    : list (string * Handler) :=
  map (fun sub => (pattern sub, handler sub))
      (filter (fun sub => _matches (pattern sub) rt = true) (_subscriptions bus)).

Section Delivery.
(** What a handler can reach besides the bus. *)
Context {Env : Type}.
(** The effect of calling a handler on a message: it may change the bus
    (subscribe, unsubscribe) and its environment, and it may raise. *)
Variable call : Handler -> Message -> MessageBus * Env -> result (MessageBus * Env).

(** The loop [for _pattern, handler in handlers: handler(message)], with
    the calls made so far. *)
Fixpoint deliver (handlers : list (string * Handler)) (message : Message)
    (w : MessageBus * Env) (called : list Handler)
    : result (MessageBus * Env) * list Handler :=
  match handlers with
  | [] => (Ok w, called)
  | (_, h) :: rest =>
      match call h message w with
      | Ok w' => deliver rest message w' (called ++ [h])
      | Raise e => (Raise e, called ++ [h])
      end
  end.

(** [publish]: the state after the call and the handlers called, in the
    order of the calls. *)
Definition publish (rt : string) (pl : Dict) (w : MessageBus * Env)
    : result (MessageBus * Env) * list Handler :=
  let message := {| route := rt; msg_payload := pl |} in
  deliver (matching_handlers w.1 rt) message w [].
End Delivery.


(** *** MessageRouter *)

(** [s.lstrip(".")] and [s.rstrip(".")]. *)
Fixpoint lstrip_dots (s : string) : string :=
  match s with
  | String c s' => if Ascii.eqb c "."%char then lstrip_dots s' else s
  | EmptyString => EmptyString
  end.

Fixpoint rstrip_dots (s : string) : string :=
  match s with
  | EmptyString => EmptyString
  | String c s' =>
      match rstrip_dots s' with
      | EmptyString => if Ascii.eqb c "."%char then EmptyString else String c EmptyString
      | String d r => String c (String d r)
      end
  end.

(** [s.strip(".")]. *)
Definition strip_dots (s : string) : string := rstrip_dots (lstrip_dots s).

(** A router; the bus it wraps is the bus the calls below are given. *)
Record MessageRouter := {
  namespace : string
}.

(** [MessageRouter(bus, namespace)]. *)
Definition new_router (ns : string) : MessageRouter :=
  {| namespace := strip_dots ns |}.

(** [f"{self.namespace}.{name}" if name else self.namespace]. *)
Definition route_of (r : MessageRouter) (name : string) : string :=
  if truthy name then namespace r +:+ "." +:+ name else namespace r.

(** [MessageRouter.on] and [MessageRouter.on_pattern]. *)
Definition on (r : MessageRouter) (event_name : string) (h : Handler)
    (bus : MessageBus) : MessageBus * Subscription :=
  subscribe bus (route_of r event_name) h.


(** [MessageRouter.emit]. *)
Definition emit {Env : Type}
    (call : Handler -> Message -> MessageBus * Env -> result (MessageBus * Env))
    (r : MessageRouter) (event_name : string) (pl : Dict) (w : MessageBus * Env)
    : result (MessageBus * Env) * list Handler :=
  publish call (route_of r event_name) pl w.

(** A handler that always raises. *)
Definition failing {Env : Type}
    : Handler -> Message -> MessageBus * Env -> result (MessageBus * Env) :=
  fun _ _ _ => Raise (RuntimeError "handler failed").

(** Handler 1 raises, every other handler counts its call. *)
Definition second_fails : Handler -> Message -> MessageBus * nat -> result (MessageBus * nat) :=
  fun h m w => if Nat.eqb h 1 then failing h m w else Ok (w.1, S w.2).

(** A bus with handlers 0, 1 and 2 subscribed to [jobs.*], in that order. *)
Definition three_subscribers : MessageBus :=
  (subscribe (subscribe (subscribe (new_bus 8765) "jobs.*" 0%nat).1 "jobs.*" 1%nat).1
     "jobs.*" 2%nat).1.

(** *** Patterns *)

#[local] Arguments String.append !_ _ / : simpl nomatch.





Lemma matches_exact pat rt :
  endswith_char pat "*" = false -> _matches pat rt = true <-> pat = rt.
Proof. unfold _matches. intros ->. apply String.eqb_eq. Qed.

(** *** Delivery *)

Section DeliveryFacts.
Context {Env : Type}.
Variable call : Handler -> Message -> MessageBus * Env -> result (MessageBus * Env).
Hypothesis call_returns : forall h m w, is_ok (call h m w) = true.


End DeliveryFacts.

(** *** Unsubscribing *)

Lemma list_remove_split sub l :
  sub ∈ l ->
  exists l1 l2, l = l1 ++ sub :: l2 /\ (sub ∉ l1) /\ list_remove sub l = l1 ++ l2.
Proof.
  induction l as [|y l IH]; intros Hin; [by apply elem_of_nil in Hin|].
  simpl. destruct (decide (y = sub)) as [->|Hne].
  - exists [], l. split; [done|]. split; [apply not_elem_of_nil|done].
  - apply elem_of_cons in Hin as [->|Hin]; [done|].
    destruct (IH Hin) as (l1 & l2 & -> & Hnot & ->).
    exists (y :: l1), l2. split; [done|]. split; [|done].
    intros [->|?]%elem_of_cons; done.
Qed.

Lemma subscribe_elem bus pat h :
  (subscribe bus pat h).2 ∈ _subscriptions (subscribe bus pat h).1.
Proof. simpl. apply elem_of_app. right. by apply list_elem_of_singleton. Qed.





(** *** Routers *)








(** *** Subscribing and unsubscribing *)

Lemma list_remove_absent sub l : sub ∉ l -> list_remove sub (l ++ [sub]) = l.
Proof.
  induction l as [|y l IH]; intros Hnot; simpl.
  - by rewrite decide_True.
  - apply not_elem_of_cons in Hnot as [Hne Hnot].
    rewrite decide_False by done. by rewrite IH.
Qed.

Lemma list_remove_present sub l :
  sub ∈ l -> list_remove sub (l ++ [sub]) = list_remove sub l ++ [sub].
Proof.
  induction l as [|y l IH]; intros Hin; [by apply elem_of_nil in Hin|].
  simpl. destruct (decide (y = sub)); [done|].
  apply elem_of_cons in Hin as [->|Hin]; [done|]. by rewrite IH.
Qed.

Lemma set_subscriptions_same bus : set_subscriptions bus (_subscriptions bus) = bus.
Proof. by destruct bus. Qed.

(** X9. Subscribing and then calling the returned closure leaves the bus
    with the same subscriptions up to order.  When no equal subscription
    (same pattern, same handler) was registered before, the bus is exactly
    as it was, and calling the closure again changes nothing; when one was,
    it is the older one that is removed, so the new subscription stays last
    in delivery order. *)
Theorem subscribe_then_unsubscribe bus pat h :
  let bus1 := (subscribe bus pat h).1 in
  let sub := (subscribe bus pat h).2 in
  _subscriptions (_unsubscribe sub bus1) ≡ₚ _subscriptions bus /\
  (sub ∉ _subscriptions bus ->
   _unsubscribe sub bus1 = bus /\ _unsubscribe sub (_unsubscribe sub bus1) = bus) /\
  (sub ∈ _subscriptions bus ->
   _subscriptions (_unsubscribe sub bus1)
   = list_remove sub (_subscriptions bus) ++ [sub]).
Proof.
  intros bus1 sub.
  assert (Hun : _unsubscribe sub bus1
                = set_subscriptions bus (list_remove sub (_subscriptions bus ++ [sub]))).
  { unfold _unsubscribe. rewrite decide_True by apply subscribe_elem. done. }
  split; [|split].
  - rewrite Hun. cbn [_subscriptions set_subscriptions].
    destruct (decide (sub ∈ _subscriptions bus)) as [Hin|Hnot].
    + rewrite list_remove_present by done.
      destruct (list_remove_split sub _ Hin) as (l1 & l2 & Heq & _ & ->).
      rewrite Heq, <- app_assoc.
      apply Permutation_app_head. symmetry. apply Permutation_cons_append.
    + by rewrite list_remove_absent.
  - intros Hnot. rewrite Hun, list_remove_absent, set_subscriptions_same by done.
    split; [done|]. unfold _unsubscribe. by rewrite decide_False.
  - intros Hin. rewrite Hun. cbn [_subscriptions set_subscriptions].
    by apply list_remove_present.
Qed.

Lemma subscribe_then_unsubscribe_witness :
  _unsubscribe (subscribe (new_bus 8765) "jobs.*" 3%nat).2
    (subscribe (new_bus 8765) "jobs.*" 3%nat).1 = new_bus 8765.
Proof.
  destruct (subscribe_then_unsubscribe (new_bus 8765) "jobs.*" 3%nat)
    as (_ & Hfresh & _).
  destruct Hfresh as [H _]; [apply not_elem_of_nil|exact H].
Defined.

(** *** A handler that raises *)

Lemma deliver_until_raise {Env : Type}
    (call : Handler -> Message -> MessageBus * Env -> result (MessageBus * Env))
    l1 pat h l2 message e :
  Forall (fun x => forall w, is_ok (call x.2 message w) = true) l1 ->
  (forall w, call h message w = Raise e) ->
  forall w called,
    deliver call (l1 ++ (pat, h) :: l2) message w called
    = (Raise e, called ++ l1.*2 ++ [h]).
Proof.
  intros Hl1 Hh. induction Hl1 as [|[p x] l1 Hx Hl1 IH]; intros w called.
  - simpl. by rewrite Hh.
  - simpl. specialize (Hx w). simpl in Hx.
    destruct (call x message w) as [w1|]; [|done].
    rewrite IH. by rewrite <- app_assoc.
Qed.

(** X10. [publish] does not isolate handlers from one another: when the
    handlers before a raising one return, the exception leaves [publish]
    at the raising handler, and the matching handlers subscribed after it
    are not called. *)
Theorem raising_handler_ends_publish {Env : Type}
    (call : Handler -> Message -> MessageBus * Env -> result (MessageBus * Env))
    (rt : string) (pl : Dict) (w : MessageBus * Env) l1 pat h l2 e :
  matching_handlers w.1 rt = l1 ++ (pat, h) :: l2 ->
  Forall (fun x => forall w0,
            is_ok (call x.2 {| route := rt; msg_payload := pl |} w0) = true) l1 ->
  (forall w0, call h {| route := rt; msg_payload := pl |} w0 = Raise e) ->
  publish call rt pl w = (Raise e, l1.*2 ++ [h]).
Proof.
  intros Hm Hl1 Hh. unfold publish. rewrite Hm.
  by rewrite (deliver_until_raise call l1 pat h l2 _ e Hl1 Hh).
Qed.

Lemma raising_handler_ends_publish_witness :
  publish second_fails "jobs.done" [] (three_subscribers, 0%nat)
  = (Raise (RuntimeError "handler failed"), [0%nat; 1%nat]).
Proof.
  apply (raising_handler_ends_publish second_fails "jobs.done" []
           (three_subscribers, 0%nat) [("jobs.*", 0%nat)] "jobs.*" 1%nat
           [("jobs.*", 2%nat)]).
  - vm_compute; reflexivity.
  - constructor; [|constructor]. intros w0. reflexivity.
  - intros w0. reflexivity.
Defined.

End Bus.

(* ===================================================================== *)
(** ** orchestrator_adapter.py *)
(* ===================================================================== *)

Module Adapter.
Import Orchestrator.

(** An entry of [_sessions]. *)
Record Session := {
  s_task_id : string;
  s_agent_id : string;
  s_lock_token : string
}.

(** What the adapter acts on: its session table, the persisted state of its
    orchestrator, and the messages it has published through its router, in
    order.  Every [router.emit] of a handler is the last thing the handler
    does, so what the subscribers of an outbound route do in reaction comes
    after the handler's own effects. *)
Record World := {
  sessions : gmap string Session;
  store : Store;
  outbox : list (string * Dict)
}.

(** The payload of a request as its handler reads it: under each key the
    handler looks up, the text found there, [None] when the key is absent or
    null.  The orchestrator takes identifiers of type [str]; payload values
    of other types are outside the wire contract. *)
Record ClaimRequest := {
  cr_task_id : option string;
  cr_agent_id : option string;
  cr_task_type : option string;
  cr_payload : option Dict
}.

Record HeartbeatRequest := {
  hr_session_id : option string;
  hr_lock_token : option string
}.

(** [rr_outcome] and [rr_result_payload] are the values under [outcome]
    and [result_payload] as they are received: [None] when the key is
    absent, [Some VNone] when it is null. *)
Record ReleaseRequest := {
  rr_session_id : option string;
  rr_lock_token : option string;
  rr_outcome : option Val;
  rr_result_payload : option Val
}.

(** [payload.get("outcome", "completed")]. *)
Definition outcome_of (req : ReleaseRequest) : Val :=
  default (VStr "completed") (rr_outcome req).

(** [payload.get("result_payload", {})]. *)
Definition result_payload_of (req : ReleaseRequest) : Val :=
  default (VDict []) (rr_result_payload req).

(** [outcome == "failed"]. *)
Definition is_failed (v : Val) : bool :=
  match v with
  | VStr s => String.eqb s "failed"
  | _ => false
  end.

(** [result_payload.get("reason", "released as failed")]: a dictionary
    answers, with the value under the key when there is one (null
    included); any other value has no [get]. *)
Definition reason_of (result_payload : Val) : result Val :=
  match result_payload with
  | VDict d => Ok (default (VStr "released as failed") (dict_get "reason" d))
  | v => Raise (AttributeError
                  ("'" +:+ type_name v +:+ "' object has no attribute 'get'"))
  end.

(** The release requests on which the handler cannot read the reason:
    outcome "failed" with a result payload that is not a dictionary. *)
Definition reason_unreadable (req : ReleaseRequest) : bool :=
  is_failed (outcome_of req) && negb (is_ok (reason_of (result_payload_of req))).

(** How a handler ends: it returns, or an exception leaves it. *)
Inductive outcome :=
| Returned (w : World)
| Raised (e : PyExn) (w : World).

Definition world_of (o : outcome) : World :=
  match o with Returned w | Raised _ w => w end.

Definition opt_val (o : option string) : Val :=
  match o with Some s => VStr s | None => VNone end.

(** [bool(x)] for an optional text. *)
Definition truthy_opt (o : option string) : bool :=
  match o with Some s => truthy s | None => false end.

Definition claim_request_dict (r : ClaimRequest) : Dict :=
  [("task_id", opt_val (cr_task_id r)); ("agent_id", opt_val (cr_agent_id r));
   ("task_type", opt_val (cr_task_type r));
   ("payload", match cr_payload r with Some d => VDict d | None => VNone end)].

(** [self.router.emit(event_name, payload)] with the router's namespace
    [orchestrator]. *)
Definition emit (event_name : string) (pl : Dict) (w : World) : World :=
  {| sessions := sessions w; store := store w;
     outbox := outbox w ++ [("orchestrator." +:+ event_name, pl)] |}.

Definition set_store (w : World) (st : Store) : World :=
  {| sessions := sessions w; store := st; outbox := outbox w |}.

Definition set_sessions (w : World) (ss : gmap string Session) : World :=
  {| sessions := ss; store := store w; outbox := outbox w |}.

Section Handlers.
Variable orch : AgentOrchestrator.

(** The tail of [_handle_claim_request] once [claim_task] has answered. *)
Definition finish_claim (tid agent_id : string) (claimed : bool)
    (sess_hex tok_hex : string) (w : World) : outcome :=
  if negb claimed then
    Returned (emit "task_failed"
                [("task_id", VStr tid); ("agent_id", VStr agent_id);
                 ("reason", VStr "task claim rejected")] w)
  else
    let session_id := "sess_" +:+ sess_hex in
    let lock_token := "lock_" +:+ tok_hex in
    let w1 := set_sessions w
                (<[session_id := {| s_task_id := tid; s_agent_id := agent_id;
                                    s_lock_token := lock_token |}]> (sessions w)) in
    Returned (emit "task_claimed"
                [("task_id", VStr tid); ("agent_id", VStr agent_id);
                 ("session_id", VStr session_id); ("lock_token", VStr lock_token);
                 ("ttl_ms", VInt (stale_after orch / 1000))] w1).

(** [_handle_claim_request]; [hex1] and [hex2] are the uuids of the task
    created when no [task_id] is given and of the task created when the
    given one is unknown, [sess_hex] and [tok_hex] those of the session. *)
Definition _handle_claim_request (req : ClaimRequest)
    (hex1 hex2 sess_hex tok_hex : string) (now : Z) (w : World) : outcome :=
  let task_type := default "orchestrated_task" (cr_task_type req) in
  let task_payload := default [] (cr_payload req) in
  match cr_agent_id req with
  | Some agent_id =>
      if negb (truthy agent_id) then
        Returned (emit "task_failed"
                    [("reason", VStr "agent_id is required");
                     ("request", VDict (claim_request_dict req))] w)
      else
        let '(tid, st1) :=
          if truthy_opt (cr_task_id req)
          then (default "" (cr_task_id req), store w)
          else let '(created, st) :=
                 create_task orch hex1 task_type task_payload agent_id now (store w) in
               (task_id created, st) in
        match claim_task orch tid agent_id now st1 with
        | (Ok claimed, st2) =>
            finish_claim tid agent_id claimed sess_hex tok_hex (set_store w st2)
        | (Raise (KeyError _), st2) =>
            let '(created, st3) :=
              create_task orch hex2 task_type task_payload agent_id now st2 in
            let tid' := task_id created in
            match claim_task orch tid' agent_id now st3 with
            | (Ok claimed, st4) =>
                finish_claim tid' agent_id claimed sess_hex tok_hex (set_store w st4)
            | (Raise e, st4) => Raised e (set_store w st4)
            end
        | (Raise e, st2) => Raised e (set_store w st2)
        end
  | None =>
      Returned (emit "task_failed"
                  [("reason", VStr "agent_id is required");
                   ("request", VDict (claim_request_dict req))] w)
  end.

(** [session = self._sessions.get(session_id)] followed by the test
    [not session or session.get("lock_token") != lock_token]: the session
    and its key when the request passes, [None] when it is rejected. *)
Definition valid_session (session_id lock_token : option string) (w : World)
    : option (string * Session) :=
  match session_id with
  | None => None
  | Some sid =>
      match sessions w !! sid with
      | None => None
      | Some session =>
          match lock_token with
          | Some tok => if String.eqb (s_lock_token session) tok
                        then Some (sid, session) else None
          | None => None
          end
      end
  end.

Definition invalid_session_reply (session_id : option string) : Dict :=
  [("session_id", opt_val session_id);
   ("reason", VStr "invalid session or lock token")].

(** [_handle_heartbeat_request]. *)
Definition _handle_heartbeat_request (req : HeartbeatRequest) (now : Z) (w : World)
    : outcome :=
  match valid_session (hr_session_id req) (hr_lock_token req) w with
  | None => Returned (emit "task_failed" (invalid_session_reply (hr_session_id req)) w)
  | Some (_, session) =>
      match heartbeat orch (s_task_id session) (s_agent_id session) now (store w) with
      | (Raise e, st) => Raised e (set_store w st)
      | (Ok false, st) =>
          Returned (emit "task_failed"
                      [("session_id", opt_val (hr_session_id req));
                       ("task_id", VStr (s_task_id session));
                       ("reason", VStr "heartbeat rejected")] (set_store w st))
      | (Ok true, st) =>
          Returned (emit "task_heartbeat_ack"
                      [("session_id", opt_val (hr_session_id req));
                       ("lock_token", opt_val (hr_lock_token req));
                       ("task_id", VStr (s_task_id session))] (set_store w st))
      end
  end.

(** The orchestrator call of [_handle_release_request] and the route of
    the success message.  The argument [reason] of [fail_task] is evaluated
    first: when it raises, [fail_task] is not called. *)
Definition release_call (req : ReleaseRequest) (session : Session) (now : Z)
    (st : Store) : (result bool * Store) * string :=
  if is_failed (outcome_of req)
  then (match reason_of (result_payload_of req) with
        | Raise e => (Raise e, st)
        | Ok reason =>
            fail_task orch (s_task_id session) (s_agent_id session) reason now st
        end, "task_failed")
  else (complete_task orch (s_task_id session) (s_agent_id session) now st,
        "task_released").

(** [_handle_release_request].  An exception leaves the handler before
    [_sessions.pop]. *)
Definition _handle_release_request (req : ReleaseRequest) (now : Z) (w : World)
    : outcome :=
  match valid_session (rr_session_id req) (rr_lock_token req) w with
  | None => Returned (emit "task_failed" (invalid_session_reply (rr_session_id req)) w)
  | Some (sid, session) =>
      let '(answer, emit_event) := release_call req session now (store w) in
      match answer with
      | (Raise e, st) => Raised e (set_store w st)
      | (Ok success, st) =>
          let w1 := set_sessions (set_store w st) (delete sid (sessions w)) in
          if negb success then
            Returned (emit "task_failed"
                        [("session_id", opt_val (rr_session_id req));
                         ("task_id", VStr (s_task_id session));
                         ("reason", VStr "task release rejected")] w1)
          else
            Returned (emit emit_event
                        [("session_id", opt_val (rr_session_id req));
                         ("task_id", VStr (s_task_id session));
                         ("lock_token", opt_val (rr_lock_token req));
                         ("outcome", outcome_of req);
                         ("result_payload", result_payload_of req)] w1)
      end
  end.

(** A request arriving on one of the three inbound routes. *)
Inductive Request :=
| ClaimReq (req : ClaimRequest) (hex1 hex2 sess_hex tok_hex : string)
| HeartbeatReq (req : HeartbeatRequest)
| ReleaseReq (req : ReleaseRequest).

Definition handle (w : World) (arrival : Z * Request) : World :=
  let '(now, r) := arrival in
  world_of
    match r with
    | ClaimReq req hex1 hex2 sess_hex tok_hex =>
        _handle_claim_request req hex1 hex2 sess_hex tok_hex now w
    | HeartbeatReq req => _handle_heartbeat_request req now w
    | ReleaseReq req => _handle_release_request req now w
    end.

(** A request that cannot create the session [sid]. *)
Definition avoids (sid : string) (arrival : Z * Request) : Prop :=
  match arrival.2 with
  | ClaimReq _ _ _ sess_hex _ => "sess_" +:+ sess_hex <> sid
  | _ => True
  end.

End Handlers.

(** *** Subscriptions of the adapter *)

(** The three bound methods the adapter subscribes, by identity. *)
Record AdapterHandlers := {
  h_claim : Bus.Handler;
  h_heartbeat : Bus.Handler;
  h_release : Bus.Handler
}.

(** [start]: the list [_unsubscribers] (each closure stands for the
    subscription it removes) and the bus. *)
Definition start (hs : AdapterHandlers) (unsubscribers : list Bus.Subscription)
    (bus : Bus.MessageBus) : list Bus.Subscription * Bus.MessageBus :=
  match unsubscribers with
  | _ :: _ => (unsubscribers, bus)
  | [] =>
      let router := Bus.new_router "orchestrator" in
      let s1 := Bus.on router "task_claim_request" (h_claim hs) bus in
      let s2 := Bus.on router "task_heartbeat_request" (h_heartbeat hs) s1.1 in
      let s3 := Bus.on router "task_release_request" (h_release hs) s2.1 in
      ([s1.2; s2.2; s3.2], s3.1)
  end.

(** [stop]. *)
Definition stop (unsubscribers : list Bus.Subscription) (bus : Bus.MessageBus)
    : list Bus.Subscription * Bus.MessageBus :=
  ([], fold_left (fun b sub => Bus._unsubscribe sub b) unsubscribers bus).


(** An adapter over the orchestrator [demo] after one claim request without
    [task_id] from agent1 at tick 0: task [task_t1], session [sess_s1],
    token [lock_k1]. *)
Definition demo_world : World :=
  handle demo {| sessions := ∅; store := empty_store; outbox := [] |}
    (0, ClaimReq {| cr_task_id := None; cr_agent_id := Some "agent1";
                    cr_task_type := None; cr_payload := None |}
          "t1" "t2" "s1" "k1").

Definition demo_release : ReleaseRequest :=
  {| rr_session_id := Some "sess_s1"; rr_lock_token := Some "lock_k1";
     rr_outcome := None; rr_result_payload := None |}.

(** The same release with outcome "failed" and a null result payload. *)
Definition demo_release_null : ReleaseRequest :=
  {| rr_session_id := Some "sess_s1"; rr_lock_token := Some "lock_k1";
     rr_outcome := Some (VStr "failed"); rr_result_payload := Some VNone |}.

Definition demo_heartbeat : HeartbeatRequest :=
  {| hr_session_id := Some "sess_s1"; hr_lock_token := Some "lock_k1" |}.

(** *** Sessions after a release *)

Section Release.
Variable orch : AgentOrchestrator.

Lemma valid_session_hit sid tok w session :
  sessions w !! sid = Some session -> s_lock_token session = tok ->
  valid_session (Some sid) (Some tok) w = Some (sid, session).
Proof. intros Hs <-. unfold valid_session. by rewrite Hs, String.eqb_refl. Qed.

Lemma valid_session_gone sid lock_token w :
  sessions w !! sid = None -> valid_session (Some sid) lock_token w = None.
Proof. intros Hs. unfold valid_session. by rewrite Hs. Qed.


Lemma release_call_returns req session now st :
  reason_unreadable req = false ->
  is_Some (tasks st !! s_task_id session) ->
  exists b st' ev, release_call orch req session now st = ((Ok b, st'), ev).
Proof.
  intros Hread Htask. unfold release_call. unfold reason_unreadable in Hread.
  destruct (is_failed (outcome_of req)).
  - destruct (reason_of (result_payload_of req)) as [reason|e]; [|done].
    destruct (fail_task_returns orch (s_task_id session) (s_agent_id session)
                reason now st Htask) as [b Hb].
    destruct (fail_task _ _ _ _ _ _) as [r st']. simpl in Hb. subst r. eauto.
  - destruct (complete_task_returns orch (s_task_id session) (s_agent_id session)
                now st Htask) as [b Hb].
    destruct (complete_task _ _ _ _ _) as [r st']. simpl in Hb. subst r. eauto.
Qed.

(** A handler adds a session only in a claim, under the identifier drawn
    there. *)
Lemma handle_keeps_absent sid w arrival :
  avoids sid arrival -> sessions w !! sid = None ->
  sessions (handle orch w arrival) !! sid = None.
Proof.
  destruct arrival as [now [req hex1 hex2 sess_hex tok_hex|req|req]];
    unfold avoids, handle; simpl; intros Hav Hs.
  - assert (Hfin : forall tid a c w0,
               sessions w0 !! sid = None ->
               sessions (world_of (finish_claim orch tid a c sess_hex tok_hex w0))
                 !! sid = None).
    { intros tid a c w0 Hw0. unfold finish_claim.
      destruct c; simpl; [|done]. by rewrite lookup_insert_ne. }
    unfold _handle_claim_request.
    destruct (cr_agent_id req) as [agent|]; [|done].
    destruct (truthy agent); simpl; [|done].
    destruct (if truthy_opt (cr_task_id req) then _ else _) as [tid st1].
    destruct (claim_task orch tid agent now st1) as [[c|e] st2]; [by apply Hfin|].
    destruct e; try done. simpl.
    match goal with
    | |- context [claim_task orch ?t agent now ?s] =>
        destruct (claim_task orch t agent now s) as [[c|e] st4]
    end; [by apply Hfin|done].
  - unfold _handle_heartbeat_request.
    destruct (valid_session _ _ w) as [[sid' session]|]; [|done].
    destruct (heartbeat orch _ _ now (store w)) as [[[]|e] st]; done.
  - unfold _handle_release_request.
    destruct (valid_session _ _ w) as [[sid' session]|]; [|done].
    destruct (release_call orch req session now (store w)) as [[[b|e] st] ev];
      [|done].
    destruct b; simpl; rewrite lookup_delete; by case_decide.
Qed.

Lemma handle_all_keeps_absent sid later w :
  Forall (avoids sid) later -> sessions w !! sid = None ->
  sessions (fold_left (handle orch) later w) !! sid = None.
Proof.
  revert w. induction later as [|a later IH]; intros w Hav Hs; [done|].
  inversion Hav; subst. simpl. apply IH; [done|]. by apply handle_keeps_absent.
Qed.

(** *** Sessions name existing tasks *)






(** C9, amended.  A release request whose session_id and lock_token match
    a live session, and whose reason the handler can read (the outcome is
    not "failed", or the result payload is absent or a dictionary), removes
    the session whatever the orchestrator answers: when complete_task or
    fail_task returns false the adapter publishes [task_failed] with reason
    "task release rejected", and the session is gone all the same.  From
    then on, and after any further requests that do not draw the same
    session identifier anew, a heartbeat or release request reusing that
    session_id is answered with [task_failed], reason "invalid session or
    lock token", and changes nothing else. *)
Theorem release_forgets_session req sid tok now w session later hb_req rel_req now' :
  reason_unreadable req = false ->
  rr_session_id req = Some sid ->
  rr_lock_token req = Some tok ->
  sessions w !! sid = Some session ->
  s_lock_token session = tok ->
  is_Some (tasks (store w) !! s_task_id session) ->
  Forall (avoids sid) later ->
  hr_session_id hb_req = Some sid ->
  rr_session_id rel_req = Some sid ->
  exists w1,
    _handle_release_request orch req now w = Returned w1 /\
    sessions w1 = delete sid (sessions w) /\
    ((release_call orch req session now (store w)).1.1 = Ok false ->
     last (outbox w1) =
       Some ("orchestrator.task_failed",
             [("session_id", VStr sid); ("task_id", VStr (s_task_id session));
              ("reason", VStr "task release rejected")])) /\
    let w2 := fold_left (handle orch) later w1 in
    sessions w2 !! sid = None /\
    _handle_heartbeat_request orch hb_req now' w2 =
      Returned (emit "task_failed" (invalid_session_reply (Some sid)) w2) /\
    _handle_release_request orch rel_req now' w2 =
      Returned (emit "task_failed" (invalid_session_reply (Some sid)) w2).
Proof.
  intros Hread Hsid Htok Hs Hlt Htask Hlater Hhb Hrel.
  destruct (release_call_returns req session now (store w) Hread Htask)
    as (b & st' & ev & Hcall).
  assert (Hgone : forall w1, sessions w1 = delete sid (sessions w) ->
            let w2 := fold_left (handle orch) later w1 in
            sessions w2 !! sid = None /\
            _handle_heartbeat_request orch hb_req now' w2 =
              Returned (emit "task_failed" (invalid_session_reply (Some sid)) w2) /\
            _handle_release_request orch rel_req now' w2 =
              Returned (emit "task_failed" (invalid_session_reply (Some sid)) w2)).
  { intros w1 Hw1 w2.
    assert (Hw2 : sessions w2 !! sid = None).
    { apply handle_all_keeps_absent; [done|]. rewrite Hw1. apply lookup_delete_eq. }
    split; [done|].
    unfold _handle_heartbeat_request, _handle_release_request.
    by rewrite Hhb, Hrel, !(valid_session_gone _ _ _ Hw2). }
  unfold _handle_release_request.
  rewrite Hsid, Htok, (valid_session_hit _ _ _ _ Hs Hlt), Hcall. simpl.
  destruct b; simpl; eexists; (split; [reflexivity|]); simpl;
    (split; [reflexivity|]); (split; [|by apply Hgone]).
  - discriminate.
  - intros _. by rewrite last_snoc.
Qed.
End Release.

(** The release arrives at tick 1000, long after the lock went stale:
    complete_task answers false, the release is rejected, and the session is
    gone. *)
Lemma release_forgets_session_witness :
  (release_call demo demo_release
     {| s_task_id := "task_t1"; s_agent_id := "agent1"; s_lock_token := "lock_k1" |}
     1000 (store demo_world)).1.1 = Ok false /\
  exists w1,
    _handle_release_request demo demo_release 1000 demo_world = Returned w1 /\
    sessions w1 !! "sess_s1" = None /\
    _handle_release_request demo demo_release 1001 w1 =
      Returned (emit "task_failed" (invalid_session_reply (Some "sess_s1")) w1).
Proof.
  split; [vm_compute; reflexivity|].
  destruct (release_forgets_session demo demo_release "sess_s1" "lock_k1" 1000
              demo_world
              {| s_task_id := "task_t1"; s_agent_id := "agent1";
                 s_lock_token := "lock_k1" |}
              [] demo_heartbeat demo_release 1001)
    as (w1 & Hret & _ & _ & Hgone & _ & Hrel).
  - reflexivity.
  - reflexivity.
  - reflexivity.
  - vm_compute; reflexivity.
  - reflexivity.
  - vm_compute; eexists; reflexivity.
  - apply Forall_nil_2.
  - reflexivity.
  - reflexivity.
  - exists w1. split; [exact Hret|]. split; [exact Hgone|exact Hrel].
Defined.

(** C9 as stated fails: the request below presents the session and the
    token of a live session, with outcome "failed" and a null result
    payload.  [result_payload.get] raises before [fail_task] is called and
    before [_sessions.pop]: nothing is changed, the session stays, and a
    heartbeat request reusing the session and the token is acknowledged. *)
Lemma failed_release_with_null_payload_keeps_session :
  _handle_release_request demo demo_release_null 5 demo_world
    = Raised (AttributeError "'NoneType' object has no attribute 'get'") demo_world /\
  sessions demo_world !! "sess_s1"
    = Some {| s_task_id := "task_t1"; s_agent_id := "agent1";
              s_lock_token := "lock_k1" |} /\
  last (outbox (world_of (_handle_heartbeat_request demo demo_heartbeat 6 demo_world)))
    = Some ("orchestrator.task_heartbeat_ack",
            [("session_id", VStr "sess_s1"); ("lock_token", VStr "lock_k1");
             ("task_id", VStr "task_t1")]).
Proof. split; [|split]; vm_compute; reflexivity. Qed.

(** *** What makes a handler raise *)

Section MoreOnHandlers.
Variable orch : AgentOrchestrator.









(** *** Claim requests *)

(** X12. A claim request from a non-empty agent that names no task, or
    names a task the store does not hold, always gets a lock: the adapter
    creates a task, claims it for the agent, records a session for it under
    the drawn identifiers and publishes [task_claimed].  In the first case
    the task carries the first uuid drawn, in the second (the replacement
    of an unknown task) the second. *)
Theorem claim_request_opens_session req agent hex1 hex2 sess_hex tok_hex now w :
  cr_agent_id req = Some agent ->
  agent <> "" ->
  truthy_opt (cr_task_id req) = false \/
  (exists tid, cr_task_id req = Some tid /\ tid <> "" /\ tasks (store w) !! tid = None) ->
  let tid' := "task_" +:+ (if truthy_opt (cr_task_id req) then hex2 else hex1) in
  exists w' task,
    _handle_claim_request orch req hex1 hex2 sess_hex tok_hex now w = Returned w' /\
    sessions w'
      = <["sess_" +:+ sess_hex :=
           {| s_task_id := tid'; s_agent_id := agent;
              s_lock_token := "lock_" +:+ tok_hex |}]> (sessions w) /\
    tasks (store w') !! tid' = Some task /\
    status task = in_progress /\ lock_owner task = Some agent /\
    exists ttl_ms,
      last (outbox w')
      = Some ("orchestrator.task_claimed",
              [("task_id", VStr tid'); ("agent_id", VStr agent);
               ("session_id", VStr ("sess_" +:+ sess_hex));
               ("lock_token", VStr ("lock_" +:+ tok_hex));
               ("ttl_ms", VInt ttl_ms)]).
Proof.
  intros Hagent Hne Hcase.
  assert (Htruthy : truthy agent = true).
  { unfold truthy. by destruct (String.eqb_spec agent ""). }
  unfold _handle_claim_request. rewrite Hagent, Htruthy. cbn [negb]. cbv zeta.
  destruct Hcase as [Hnone|(tid & Htid & Htne & Hmiss)].
  - rewrite Hnone. unfold create_task. cbn [fst snd task_id new_task].
    rewrite claim_created. unfold finish_claim. cbn [negb].
    eexists _, _. split; [reflexivity|]. cbn. rewrite lookup_insert_eq, last_snoc.
    split; [done|]. split; [done|]. split; [done|]. split; [done|]. by eexists.
  - assert (Htt : truthy_opt (cr_task_id req) = true).
    { rewrite Htid. unfold truthy_opt, truthy. by destruct (String.eqb_spec tid ""). }
    rewrite Htt, Htid. cbn [default from_option id]. cbv beta iota zeta.
    assert (Hraise : claim_task orch tid agent now (store w)
                     = (Raise (unknown_task tid), store w)).
    { unfold claim_task. by rewrite (lookup_get_task_None _ _ Hmiss). }
    rewrite Hraise. unfold unknown_task, create_task. cbn [fst snd task_id new_task].
    rewrite claim_created. unfold finish_claim. cbn [negb].
    eexists _, _. split; [reflexivity|]. cbn. rewrite lookup_insert_eq, last_snoc.
    split; [done|]. split; [done|]. split; [done|]. split; [done|]. by eexists.
Qed.

(** *** Requests that match no session *)


(** *** What a release does to the task *)

(** X14. A release request with a valid session, whose reason the handler
    can read (the outcome is not "failed", or the result payload is absent
    or a dictionary), on a task whose lock is live (non-empty owner,
    heartbeat within the timeout), drops the session.  If the session's
    agent holds the lock, the task becomes [completed], or for outcome
    "failed" becomes [failed] with the reason read from the result payload,
    and is unlocked.  If another agent holds it (the session outlived its
    lock), the release is rejected and the store, the other agent's lock
    included, is untouched. *)
Theorem release_outcome req sid session owner hb now w task :
  reason_unreadable req = false ->
  rr_session_id req = Some sid ->
  rr_lock_token req = Some (s_lock_token session) ->
  sessions w !! sid = Some session ->
  tasks (store w) !! s_task_id session = Some task ->
  lock_owner task = Some owner -> owner <> "" ->
  heartbeat_at task = Some hb -> now - hb <= stale_after orch ->
  exists w',
    _handle_release_request orch req now w = Returned w' /\
    sessions w' = delete sid (sessions w) /\
    (owner = s_agent_id session ->
     exists task',
       tasks (store w') !! s_task_id session = Some task' /\
       lock_owner task' = None /\ heartbeat_at task' = None /\
       if is_failed (outcome_of req)
       then status task' = failed /\
            reason_of (result_payload_of req) = Ok (failure_reason task')
       else status task' = completed /\
            failure_reason task' = failure_reason task) /\
    (owner <> s_agent_id session ->
     store w' = store w /\
     last (outbox w')
       = Some ("orchestrator.task_failed",
               [("session_id", VStr sid); ("task_id", VStr (s_task_id session));
                ("reason", VStr "task release rejected")])).
Proof.
  intros Hread Hsid Htok Hs Hlook Ho Hne Hh Hlive.
  unfold _handle_release_request.
  rewrite Hsid, Htok, (valid_session_hit _ _ _ _ Hs eq_refl).
  cbv beta iota zeta. unfold release_call. unfold reason_unreadable in Hread.
  destruct (decide (owner = s_agent_id session)) as [Heq|Hdiff].
  - subst owner.
    destruct (is_failed (outcome_of req)).
    + destruct (reason_of (result_payload_of req)) as [reason|e]; [|done].
      rewrite (owner_fails_live orch _ _ reason hb now (store w) task Hlook Ho Hh Hlive).
      eexists. split; [reflexivity|]. split; [done|]. split; [|done].
      intros _. eexists. cbn. by rewrite lookup_insert_eq.
    + rewrite (owner_completes_live orch _ _ hb now (store w) task Hlook Ho Hh Hlive).
      eexists. split; [reflexivity|]. split; [done|]. split; [|done].
      intros _. eexists. cbn. by rewrite lookup_insert_eq.
  - assert (Hex : forall reason,
              complete_task orch (s_task_id session) (s_agent_id session) now (store w)
                = (Ok false, store w) /\
              fail_task orch (s_task_id session) (s_agent_id session) reason now (store w)
                = (Ok false, store w)).
    { intros reason.
      destruct (live_lock_excludes orch (s_task_id session) owner (s_agent_id session)
                  reason hb now (store w) task) as (_ & _ & Hc & Hf);
        [done..|congruence|done]. }
    destruct (is_failed (outcome_of req)).
    + destruct (reason_of (result_payload_of req)) as [reason|e]; [|done].
      rewrite (proj2 (Hex reason)).
      eexists. split; [reflexivity|]. split; [done|]. split; [done|].
      intros _. cbn. by rewrite last_snoc.
    + rewrite (proj1 (Hex VNone)).
      eexists. split; [reflexivity|]. split; [done|]. split; [done|].
      intros _. cbn. by rewrite last_snoc.
Qed.

End MoreOnHandlers.

Lemma claim_request_opens_session_witness :
  exists w',
    _handle_claim_request demo
      {| cr_task_id := Some "task_gone"; cr_agent_id := Some "agent1";
         cr_task_type := None; cr_payload := None |}
      "t1" "t2" "s1" "k1" 0 {| sessions := ∅; store := empty_store; outbox := [] |}
    = Returned w' /\
    s_task_id <$> sessions w' !! "sess_s1" = Some "task_t2".
Proof.
  destruct (claim_request_opens_session demo
              {| cr_task_id := Some "task_gone"; cr_agent_id := Some "agent1";
                 cr_task_type := None; cr_payload := None |}
              "agent1" "t1" "t2" "s1" "k1" 0
              {| sessions := ∅; store := empty_store; outbox := [] |})
    as (w' & task & Hret & Hs & _).
  - reflexivity.
  - discriminate.
  - right. exists "task_gone". split; [reflexivity|]. split; [discriminate|].
    vm_compute; reflexivity.
  - exists w'. split; [exact Hret|]. rewrite Hs. vm_compute. reflexivity.
Defined.


Lemma release_outcome_witness :
  exists w',
    _handle_release_request demo demo_release 50 demo_world = Returned w' /\
    sessions w' = delete "sess_s1" (sessions demo_world) /\
    (status <$> tasks (store w') !! "task_t1") = Some completed.
Proof.
  destruct (release_outcome demo demo_release "sess_s1"
              {| s_task_id := "task_t1"; s_agent_id := "agent1";
                 s_lock_token := "lock_k1" |}
              "agent1" 0 50 demo_world
              (set_lock (new_task "task_t1" "orchestrated_task" [] 0 "agent1")
                 in_progress (Some "agent1") (Some 0) (Some 0)))
    as (w' & Hret & Hs & Hown & _).
  - reflexivity.
  - reflexivity.
  - reflexivity.
  - vm_compute; reflexivity.
  - vm_compute; reflexivity.
  - reflexivity.
  - discriminate.
  - reflexivity.
  - vm_compute; discriminate.
  - exists w'. split; [exact Hret|]. split; [exact Hs|].
    destruct (Hown eq_refl) as (task' & Hl & _ & _ & Hst).
    change (tasks (store w') !! "task_t1" = Some task') in Hl.
    change (status task' = completed /\ failure_reason task' = VNone) in Hst.
    rewrite Hl. simpl. by rewrite (proj1 Hst).
Defined.

(** *** Starting and stopping the adapter *)

Lemma list_remove_perm sub l : sub ∈ l -> sub :: Bus.list_remove sub l ≡ₚ l.
Proof.
  induction l as [|y l IH]; intros Hin; [by apply elem_of_nil in Hin|].
  simpl. destruct (decide (y = sub)) as [->|Hne]; [done|].
  apply elem_of_cons in Hin as [->|Hin]; [done|].
  rewrite Permutation_swap. by rewrite IH.
Qed.

Lemma unsubscribe_perm sub bus l :
  Bus._subscriptions bus ≡ₚ sub :: l ->
  Bus._subscriptions (Bus._unsubscribe sub bus) ≡ₚ l /\
  Bus.port (Bus._unsubscribe sub bus) = Bus.port bus /\
  Bus._running (Bus._unsubscribe sub bus) = Bus._running bus.
Proof.
  intros Hp. unfold Bus._unsubscribe.
  assert (Hin : sub ∈ Bus._subscriptions bus).
  { rewrite Hp. apply elem_of_cons. by left. }
  rewrite decide_True by done. simpl. split; [|done].
  apply (Permutation_cons_inv (a := sub)).
  by rewrite list_remove_perm.
Qed.

(** X15.  [start] on an adapter that has not been started subscribes its
    three handlers, in the order claim, heartbeat, release, after the
    subscriptions the bus already has, each to its route under
    [orchestrator.]; a second [start] changes nothing; [stop] then removes
    three subscriptions and leaves the bus with the subscriptions it had
    before [start] (as a multiset), its port and its running flag. *)
Theorem start_stop_round_trip hs bus :
  let started := start hs [] bus in
  let stopped := stop started.1 started.2 in
  Bus._subscriptions started.2
    = Bus._subscriptions bus ++
      [ {| Bus.pattern := "orchestrator.task_claim_request";
           Bus.handler := h_claim hs |};
        {| Bus.pattern := "orchestrator.task_heartbeat_request";
           Bus.handler := h_heartbeat hs |};
        {| Bus.pattern := "orchestrator.task_release_request";
           Bus.handler := h_release hs |} ] /\
  start hs started.1 started.2 = started /\
  stopped.1 = [] /\
  Bus._subscriptions stopped.2 ≡ₚ Bus._subscriptions bus /\
  Bus.port stopped.2 = Bus.port bus /\
  Bus._running stopped.2 = Bus._running bus.
Proof.
  cbv zeta.
  set (s1 := {| Bus.pattern := "orchestrator.task_claim_request";
                Bus.handler := h_claim hs |}).
  set (s2 := {| Bus.pattern := "orchestrator.task_heartbeat_request";
                Bus.handler := h_heartbeat hs |}).
  set (s3 := {| Bus.pattern := "orchestrator.task_release_request";
                Bus.handler := h_release hs |}).
  assert (Hstart : start hs [] bus
            = ([s1; s2; s3],
               Bus.set_subscriptions bus (Bus._subscriptions bus ++ [s1; s2; s3]))).
  { unfold start, Bus.on, Bus.subscribe, Bus.set_subscriptions. cbn.
    by rewrite <- !app_assoc. }
  rewrite Hstart. cbn [fst snd].
  split; [done|]. split; [done|]. split; [done|].
  unfold stop. cbn [fst snd fold_left].
  set (b0 := Bus.set_subscriptions bus _).
  destruct (unsubscribe_perm s1 b0 (Bus._subscriptions bus ++ [s2; s3]))
    as (P1 & Q1 & R1).
  { subst b0. cbn. by rewrite <- Permutation_middle. }
  destruct (unsubscribe_perm s2 (Bus._unsubscribe s1 b0) (Bus._subscriptions bus ++ [s3]))
    as (P2 & Q2 & R2).
  { rewrite P1. by rewrite <- Permutation_middle. }
  destruct (unsubscribe_perm s3 (Bus._unsubscribe s2 (Bus._unsubscribe s1 b0))
              (Bus._subscriptions bus)) as (P3 & Q3 & R3).
  { rewrite P2. by rewrite <- Permutation_middle, app_nil_r. }
  split; [done|]. split; [by rewrite Q3, Q2, Q1|by rewrite R3, R2, R1].
Qed.

End Adapter.

(* ===================================================================== *)
(** ** model_registry.py *)
(* ===================================================================== *)

Module Registry.

(** The fields of a [ModelRecord]; [asdict(record)] is a dictionary with the
    same seven keys, its list and dictionary values copied. *)
Record ModelRecord := {
  model_id : string;
  source : string;
  model_type : string;
  capabilities : list string;
  abliteration_status : string;
  endpoint : option string;
  metadata : Dict
}.

Definition set_status (r : ModelRecord) (s : string) : ModelRecord :=
  {| model_id := model_id r; source := source r; model_type := model_type r;
     capabilities := capabilities r; abliteration_status := s;
     endpoint := endpoint r; metadata := metadata r |}.

(** The identity of a Python object. *)
Abbreviation loc := positive.

(** The mutable objects the registry creates and hands out: [ModelRecord]
    instances, the dictionaries made by [asdict], and lists of references. *)
Inductive PyObj :=
| ORecord (r : ModelRecord)
| ODict (fields : ModelRecord)
| OList (items : list loc).

(** The objects alive, by identity.  Two references are aliases when they
    are the same [loc]. *)
Abbreviation Heap := (gmap loc PyObj).

(** A new object: its identity differs from that of every object alive. *)
Definition alloc (o : PyObj) (h : Heap) : loc * Heap :=
  let l := fresh (dom h) in (l, <[l := o]> h).

(** New objects, one after the other. *)
Fixpoint alloc_all (objs : list PyObj) (h : Heap) : list loc * Heap :=
  match objs with
  | [] => ([], h)
  | o :: rest =>
      let a := alloc o h in
      let r := alloc_all rest a.2 in
      (a.1 :: r.1, r.2)
  end.

(** What the holder of a reference can do to the object: any in-place
    change (attribute or item assignment, append, remove). *)
Definition mutate (l : loc) (f : PyObj -> PyObj) (h : Heap) : Heap := alter f l h.

(** A dictionary with insertion order, as [self._records] is. *)
Fixpoint assoc {A} (k : string) (d : list (string * A)) : option A :=
  match d with
  | [] => None
  | (k', v) :: d' => if String.eqb k' k then Some v else assoc k d'
  end.

Fixpoint assoc_pop {A} (k : string) (d : list (string * A)) : list (string * A) :=
  match d with
  | [] => []
  | (k', v) :: d' => if String.eqb k' k then d' else (k', v) :: assoc_pop k d'
  end.

(** [d[k] = v]: the value is replaced in place, a new key goes last. *)
Fixpoint assoc_set {A} (k : string) (v : A) (d : list (string * A)) : list (string * A) :=
  match d with
  | [] => [(k, v)]
  | (k', v') :: d' =>
      if String.eqb k' k then (k, v) :: d' else (k', v') :: assoc_set k v d'
  end.

Section Registry.
(** The connector objects are opaque to the registry. *)
Context {Connector : Type}.

Record MultiModelRegistry := {
  max_models : nat;
  _records : list (string * loc);
  _connectors : list (string * Connector)
}.

(** [MultiModelRegistry(max_models)]. *)
Definition new_registry (n : nat) : MultiModelRegistry :=
  {| max_models := n; _records := []; _connectors := [] |}.

(** [register_model]: the reference to the new record. *)
Definition register_model (reg : MultiModelRegistry) (h : Heap)
    (mid src mtype : string) (caps : option (list string)) (status : string)
    (ep : option string) (meta : option Dict) (connector : option Connector)
    : result loc * MultiModelRegistry * Heap :=
  if bool_decide (is_Some (assoc mid (_records reg))) then
    (Raise (ValueError ("model '" +:+ mid +:+ "' already registered")), reg, h)
  else if (max_models reg <=? length (_records reg))%nat then
    (Raise (RuntimeError "registry capacity reached"), reg, h)
  else
    let created :=
      alloc (ORecord {| model_id := mid; source := src; model_type := mtype;
                        capabilities := default [] caps;
                        abliteration_status := status; endpoint := ep;
                        metadata := default [] meta |}) h in
    (Ok created.1,
     {| max_models := max_models reg;
        _records := assoc_set mid created.1 (_records reg);
        _connectors := match connector with
                       | Some c => assoc_set mid c (_connectors reg)
                       | None => _connectors reg
                       end |},
     created.2).

Definition unregister_model (reg : MultiModelRegistry) (mid : string)
    : MultiModelRegistry :=
  {| max_models := max_models reg;
     _records := assoc_pop mid (_records reg);
     _connectors := assoc_pop mid (_connectors reg) |}.

(** [get_model]: the stored record itself, or [None]. *)
Definition get_model (reg : MultiModelRegistry) (mid : string) : option loc :=
  assoc mid (_records reg).

(** [list_models]: a new list holding the stored records themselves. *)
Definition list_models (reg : MultiModelRegistry) (h : Heap) : loc * Heap :=
  alloc (OList (_records reg).*2) h.

(** [self._records[model_id].abliteration_status = status]. *)
Definition write_status (s : string) (o : PyObj) : PyObj :=
  match o with
  | ORecord r => ORecord (set_status r s)
  | ODict f => ODict f
  | OList items => OList items
  end.

Definition update_status (reg : MultiModelRegistry) (h : Heap) (mid status : string)
    : result unit * Heap :=
  match assoc mid (_records reg) with
  | None => (Raise (KeyError ("unknown model '" +:+ mid +:+ "'")), h)
  | Some l => (Ok (), mutate l (write_status status) h)
  end.

Definition attach_connector (reg : MultiModelRegistry) (mid : string) (c : Connector)
    : result unit * MultiModelRegistry :=
  match assoc mid (_records reg) with
  | None => (Raise (KeyError ("unknown model '" +:+ mid +:+ "'")), reg)
  | Some _ =>
      (Ok (), {| max_models := max_models reg; _records := _records reg;
                 _connectors := assoc_set mid c (_connectors reg) |})
  end.

Definition get_connector (reg : MultiModelRegistry) (mid : string) : option Connector :=
  assoc mid (_connectors reg).

(** [asdict(record)] for the object a reference of [_records] leads to. *)
Definition asdict (h : Heap) (l : loc) : list PyObj :=
  match h !! l with
  | Some (ORecord r) => [ODict r]
  | _ => []
  end.

(** [export_records]: a new list of new dictionaries, one per record. *)
Definition export_records (reg : MultiModelRegistry) (h : Heap) : loc * Heap :=
  let dicts := alloc_all (concat (map (asdict h) (_records reg).*2)) h in
  alloc (OList dicts.1) dicts.2.

(** What the registry stores: under each key, the state of its record. *)
Definition stored (reg : MultiModelRegistry) (h : Heap) : list (string * option PyObj) :=
  map (fun kv => (kv.1, h !! kv.2)) (_records reg).

(** Every reference of [_records] leads to a record that is alive. *)
Definition registry_wf (reg : MultiModelRegistry) (h : Heap) : Prop :=
  Forall (fun kv => exists r, h !! kv.2 = Some (ORecord r)) (_records reg).

(** Every key of [_records] leads to a live record carrying that key as
    its [model_id]. *)
Definition registry_keyed (reg : MultiModelRegistry) (h : Heap) : Prop :=
  Forall (fun kv => exists r, h !! kv.2 = Some (ORecord r) /\ model_id r = kv.1)
         (_records reg).

(** A call on the registry, with its arguments. *)
Inductive Call :=
| Register (mid src mtype : string) (caps : option (list string)) (status : string)
    (ep : option string) (meta : option Dict) (connector : option Connector)
| Unregister (mid : string)
| UpdateStatus (mid status : string)
| AttachConnector (mid : string) (c : Connector)
| ListModels
| ExportRecords.

(** The registry and the heap after a call; what the call returns or raises
    is dropped. *)
Definition call (s : MultiModelRegistry * Heap) (c : Call) : MultiModelRegistry * Heap :=
  match c with
  | Register mid src mtype caps status ep meta connector =>
      ((register_model s.1 s.2 mid src mtype caps status ep meta connector).1.2,
       (register_model s.1 s.2 mid src mtype caps status ep meta connector).2)
  | Unregister mid => (unregister_model s.1 mid, s.2)
  | UpdateStatus mid status => (s.1, (update_status s.1 s.2 mid status).2)
  | AttachConnector mid c => ((attach_connector s.1 mid c).2, s.2)
  | ListModels => (s.1, (list_models s.1 s.2).2)
  | ExportRecords => (s.1, (export_records s.1 s.2).2)
  end.

(** A registry made by [MultiModelRegistry(n)] and then used through its
    methods only. *)
Definition calls (n : nat) (h0 : Heap) (cs : list Call) : MultiModelRegistry * Heap :=
  fold_left call cs (new_registry n, h0).

(** What the methods keep true of a registry. *)
Definition registry_ok (reg : MultiModelRegistry) (h : Heap) : Prop :=
  (length (_records reg) <= max_models reg)%nat /\
  NoDup (_records reg).*1 /\
  NoDup (_connectors reg).*1 /\
  (forall mid, is_Some (assoc mid (_connectors reg)) ->
               is_Some (assoc mid (_records reg))) /\
  registry_keyed reg h.

End Registry.
Arguments MultiModelRegistry : clear implicits.
Arguments Call : clear implicits.

(** A registry with one model, [m1], registered with status [pending]. *)
Definition demo_registered :=
  register_model (Connector := unit) (new_registry 4) ∅ "m1" "exo" "llm" None
    "pending" None None None.

Definition demo_reg : MultiModelRegistry unit := demo_registered.1.2.
Definition demo_heap : Heap := demo_registered.2.

Section RegistryFacts.
Context {Connector : Type}.
Implicit Types (reg : MultiModelRegistry Connector) (h : Heap).

(** *** Fresh objects *)

Lemma alloc_fresh o (h : Heap) : (alloc o h).1 ∉ dom h.
Proof. apply is_fresh. Qed.

Lemma alloc_old o (h : Heap) x : x ∈ dom h -> (alloc o h).2 !! x = h !! x.
Proof.
  intros Hx. unfold alloc. simpl. apply lookup_insert_ne.
  intros Heq. rewrite <- Heq in Hx. by apply (is_fresh (dom h)).
Qed.

Lemma alloc_new o (h : Heap) : (alloc o h).2 !! (alloc o h).1 = Some o.
Proof. unfold alloc. simpl. apply lookup_insert_eq. Qed.

Lemma alloc_dom o (h : Heap) x : x ∈ dom h -> x ∈ dom (alloc o h).2.
Proof. intros Hx. unfold alloc. simpl. rewrite dom_insert_L. set_solver. Qed.

Lemma alloc_all_spec objs : forall h : Heap,
  (forall x, x ∈ (alloc_all objs h).1 -> x ∉ dom h) /\
  (forall x, x ∈ dom h -> (alloc_all objs h).2 !! x = h !! x) /\
  (forall x, x ∈ dom h -> x ∈ dom (alloc_all objs h).2) /\
  Forall2 (fun l o => (alloc_all objs h).2 !! l = Some o) (alloc_all objs h).1 objs.
Proof.
  induction objs as [|o rest IH]; intros h; cbn [alloc_all fst snd].
  - repeat split; try done. intros x Hx. by apply elem_of_nil in Hx.
  - destruct (IH (alloc o h).2) as (I1 & I2 & I3 & I4).
    pose proof (alloc_fresh o h) as Hl.
    pose proof (alloc_new o h) as Hnew.
    assert (Hl1 : (alloc o h).1 ∈ dom (alloc o h).2) by (apply elem_of_dom; eauto).
    repeat split.
    + intros x [->|Hx]%elem_of_cons; [done|].
      intros Hd. by apply (I1 x Hx), alloc_dom.
    + intros x Hx. rewrite I2 by (by apply alloc_dom). by apply alloc_old.
    + intros x Hx. by apply I3, alloc_dom.
    + constructor; [|done]. by rewrite I2.
Qed.

(** *** What the reads return *)

Lemma assoc_elem {A} k (d : list (string * A)) v : assoc k d = Some v -> (k, v) ∈ d.
Proof.
  induction d as [|[k' v'] d IH]; simpl; [done|].
  destruct (String.eqb_spec k' k) as [->|Hne].
  - intros [= ->]. apply elem_of_cons. by left.
  - intros H. apply elem_of_cons. right. auto.
Qed.

Lemma stored_agree reg (h h' : Heap) :
  (forall kv, kv ∈ _records reg -> h' !! kv.2 = h !! kv.2) ->
  stored reg h' = stored reg h.
Proof.
  unfold stored. induction (_records reg) as [|kv d IH]; intros Hag; [done|].
  simpl. rewrite Hag by (apply elem_of_cons; by left). f_equal.
  apply IH. intros kv' Hin. apply Hag, elem_of_cons. by right.
Qed.

Lemma record_alive reg (h : Heap) kv :
  registry_wf reg h -> kv ∈ _records reg -> kv.2 ∈ dom h.
Proof.
  intros Hwf Hin. unfold registry_wf in Hwf. rewrite Forall_forall in Hwf.
  destruct (Hwf kv Hin) as [r Hr]. apply elem_of_dom. eauto.
Qed.

(** An object that is not one of the stored records is out of reach of
    [update_status], and changing it changes no stored record. *)
Lemma update_status_frame reg (h : Heap) mid status x :
  (forall kv, kv ∈ _records reg -> kv.2 <> x) ->
  (update_status reg h mid status).2 !! x = h !! x.
Proof.
  intros Hx. unfold update_status.
  destruct (assoc mid (_records reg)) as [l|] eqn:Ha; [|done].
  simpl. unfold mutate. apply lookup_alter_ne.
  apply assoc_elem in Ha. apply (Hx _ Ha).
Qed.

Lemma mutate_frame reg (h : Heap) f x :
  (forall kv, kv ∈ _records reg -> kv.2 <> x) ->
  stored reg (mutate x f h) = stored reg h.
Proof.
  intros Hx. apply stored_agree. intros kv Hin. unfold mutate.
  apply lookup_alter_ne. intros Heq. by apply (Hx kv Hin).
Qed.

(** *** Registries changed through their methods only *)

Lemma registry_keyed_wf reg h : registry_keyed reg h -> registry_wf reg h.
Proof.
  unfold registry_keyed, registry_wf. intros Hk.
  eapply Forall_impl; [exact Hk|]. intros kv (r & Hr & _). eauto.
Qed.

Lemma assoc_of_elem {A} k (v : A) d : (k, v) ∈ d -> is_Some (assoc k d).
Proof.
  induction d as [|[k' v'] d IH]; intros Hin; [by apply elem_of_nil in Hin|].
  simpl. destruct (String.eqb_spec k' k); [eauto|].
  apply elem_of_cons in Hin as [Heq|Hin]; [congruence|auto].
Qed.

Lemma update_status_keyed reg h mid status :
  registry_keyed reg h ->
  is_Some (assoc mid (_records reg)) ->
  exists h', update_status reg h mid status = (Ok (), h') /\ registry_keyed reg h'.
Proof.
  intros Hk [l Hl]. unfold update_status. rewrite Hl. eexists. split; [done|].
  unfold registry_keyed in *. eapply Forall_impl; [exact Hk|].
  intros kv (r & Hr & Hid). unfold mutate. rewrite lookup_alter.
  case_decide; [|eauto]. subst. rewrite Hr. simpl. eauto.
Qed.

Lemma alloc_keyed reg h o : registry_keyed reg h -> registry_keyed reg (alloc o h).2.
Proof.
  unfold registry_keyed. intros Hk.
  eapply Forall_impl; [exact Hk|]. intros kv (r & Hr & Hid).
  exists r. split; [|done]. rewrite alloc_old; [done|]. apply elem_of_dom; eauto.
Qed.

Lemma assoc_set_Forall {A} (P : string * A -> Prop) k v d :
  Forall P d -> P (k, v) -> Forall P (assoc_set k v d).
Proof.
  intros Hd Hkv. induction Hd as [|[k' v'] d Hx Hd IH]; simpl.
  - by constructor.
  - destruct (String.eqb k' k); constructor; auto.
Qed.

Lemma assoc_pop_Forall {A} (P : string * A -> Prop) k d :
  Forall P d -> Forall P (assoc_pop k d).
Proof.
  intros Hd. induction Hd as [|[k' v'] d Hx Hd IH]; simpl; [done|].
  destruct (String.eqb k' k); [done|]. by constructor.
Qed.

Lemma new_registry_keyed n h :
  registry_keyed (new_registry (Connector := Connector) n) h.
Proof. constructor. Qed.

Lemma register_model_keyed reg h mid src mtype caps status ep meta connector :
  registry_keyed reg h ->
  registry_keyed
    (register_model reg h mid src mtype caps status ep meta connector).1.2
    (register_model reg h mid src mtype caps status ep meta connector).2.
Proof.
  intros Hk. unfold register_model.
  destruct (bool_decide _); [done|].
  destruct (max_models reg <=? length (_records reg))%nat; [done|].
  cbv zeta. set (o := ORecord _). cbn [fst snd _records].
  apply assoc_set_Forall.
  - eapply Forall_impl; [exact Hk|]. intros kv (r & Hr & Hid).
    exists r. split; [|done]. rewrite alloc_old; [done|]. apply elem_of_dom; eauto.
  - eexists. split; [apply alloc_new|done].
Qed.

Lemma unregister_model_keyed reg h mid :
  registry_keyed reg h -> registry_keyed (unregister_model reg mid) h.
Proof. apply assoc_pop_Forall. Qed.

Lemma update_status_keeps_keyed reg h mid status :
  registry_keyed reg h -> registry_keyed reg (update_status reg h mid status).2.
Proof.
  intros Hk. destruct (assoc mid (_records reg)) as [l|] eqn:Hl.
  - destruct (update_status_keyed reg h mid status Hk) as (h' & -> & Hk'); eauto.
  - unfold update_status. by rewrite Hl.
Qed.

Lemma asdict_all reg (h : Heap) :
  registry_wf reg h ->
  Forall2 (fun kv o => exists r, h !! kv.2 = Some (ORecord r) /\ o = ODict r)
    (_records reg) (concat (map (asdict h) (_records reg).*2)).
Proof.
  unfold registry_wf. induction (_records reg) as [|kv d IH]; intros Hwf.
  - constructor.
  - inversion Hwf as [|? ? [r Hr] Htl]; subst. csimpl.
    unfold asdict at 1. rewrite Hr. simpl. constructor; [eauto|by apply IH].
Qed.

Lemma dicts_of_records (h h1 hx : Heap) (recs : list (string * loc)) ls objs :
  Forall2 (fun l o => h1 !! l = Some o) ls objs ->
  Forall2 (fun kv o => exists r, h !! kv.2 = Some (ORecord r) /\ o = ODict r)
    recs objs ->
  (forall d o, h1 !! d = Some o -> hx !! d = Some o) ->
  Forall2 (fun kv d => exists r, h !! kv.2 = Some (ORecord r) /\
                                 hx !! d = Some (ODict r)) recs ls.
Proof.
  intros Hls. revert recs. induction Hls as [|l o ls objs Hl Hls IH];
    intros recs Hrec Hx.
  - inversion Hrec; subst. constructor.
  - inversion Hrec as [|kv ? recs' ? (r & Hr & ->) Hrec']; subst.
    constructor; [|by apply IH]. exists r. split; [done|]. by apply Hx.
Qed.

Lemma export_records_spec reg (h : Heap) :
  registry_wf reg h ->
  exists dicts,
    (export_records reg h).2 !! (export_records reg h).1 = Some (OList dicts) /\
    Forall2 (fun kv d => exists r, h !! kv.2 = Some (ORecord r) /\
                                   (export_records reg h).2 !! d = Some (ODict r))
      (_records reg) dicts /\
    (forall x, x ∈ dom h -> (export_records reg h).2 !! x = h !! x) /\
    (forall x, x ∈ (export_records reg h).1 :: dicts -> x ∉ dom h).
Proof.
  intros Hwf. unfold export_records.
  set (objs := concat (map (asdict h) (_records reg).*2)).
  destruct (alloc_all_spec objs h) as (I1 & I2 & I3 & I4).
  set (a := alloc_all objs h) in *. cbn zeta.
  exists a.1. split; [apply alloc_new|]. split; [|split].
  - apply (dicts_of_records h a.2 _ _ _ objs I4 (asdict_all reg h Hwf)).
    intros d o Hd. rewrite alloc_old; [done|]. apply elem_of_dom; eauto.
  - intros x Hx. rewrite alloc_old by auto. by apply I2.
  - intros x [->|Hx]%elem_of_cons; [|by apply I1].
    intros Hd. by apply (alloc_fresh (OList a.1) a.2), I3.
Qed.

(** C7, amended.  In a registry whose records are alive:
    - [export_records] returns a new list of new dictionaries holding the
      fields the records have at the time of the call; changing the list or
      a dictionary changes no stored record, and a later [update_status]
      changes neither the list nor a dictionary;
    - [list_models] returns a new list: changing the list changes no stored
      record and [update_status] does not change the list; its items are the
      references of [_records], the stored records themselves;
    - [get_model] returns the reference of [_records]: a status written by
      [update_status] is read through it. *)
Theorem export_is_a_copy_reads_share_records reg (h : Heap) :
  registry_wf reg h ->
  (exists dicts,
     (export_records reg h).2 !! (export_records reg h).1 = Some (OList dicts) /\
     Forall2 (fun kv d => exists r, h !! kv.2 = Some (ORecord r) /\
                                    (export_records reg h).2 !! d = Some (ODict r))
       (_records reg) dicts /\
     stored reg (export_records reg h).2 = stored reg h /\
     forall x, x ∈ (export_records reg h).1 :: dicts ->
       (forall f, stored reg (mutate x f (export_records reg h).2)
                  = stored reg (export_records reg h).2) /\
       (forall mid status,
          (update_status reg (export_records reg h).2 mid status).2 !! x
          = (export_records reg h).2 !! x)) /\
  ((list_models reg h).2 !! (list_models reg h).1 = Some (OList (_records reg).*2) /\
   stored reg (list_models reg h).2 = stored reg h /\
   (forall f, stored reg (mutate (list_models reg h).1 f (list_models reg h).2)
              = stored reg (list_models reg h).2) /\
   (forall mid status,
      (update_status reg (list_models reg h).2 mid status).2 !! (list_models reg h).1
      = (list_models reg h).2 !! (list_models reg h).1)) /\
  (forall mid l status,
     get_model reg mid = Some l ->
     (mid, l) ∈ _records reg /\
     (update_status reg h mid status).2 !! l = write_status status <$> h !! l).
Proof.
  intros Hwf. split; [|split].
  - destruct (export_records_spec reg h Hwf) as (dicts & Hl & Hd & Hold & Hnew).
    exists dicts. split; [done|]. split; [done|]. split.
    + apply stored_agree. intros kv Hin. by apply Hold, (record_alive reg).
    + intros x Hx.
      assert (Hsep : forall kv, kv ∈ _records reg -> kv.2 <> x).
      { intros kv Hin <-. by apply (Hnew _ Hx), (record_alive reg). }
      split; [intros f; by apply mutate_frame|].
      intros mid status. by apply update_status_frame.
  - unfold list_models.
    assert (Hsep : forall kv, kv ∈ _records reg ->
                     kv.2 <> (alloc (OList (_records reg).*2) h).1).
    { intros kv Hin Heq. apply (alloc_fresh (OList (_records reg).*2) h).
      rewrite <- Heq. by apply (record_alive reg). }
    split; [apply alloc_new|]. split; [|split].
    + apply stored_agree. intros kv Hin. by apply alloc_old, (record_alive reg).
    + intros f. by apply mutate_frame.
    + intros mid status. by apply update_status_frame.
  - intros mid l status Hget. unfold get_model in Hget.
    split; [by apply assoc_elem|].
    unfold update_status. rewrite Hget. simpl. unfold mutate.
    rewrite lookup_alter. by case_decide.
Qed.

(** *** Dictionaries as association lists *)

Lemma assoc_None {A} k (d : list (string * A)) : assoc k d = None <-> k ∉ d.*1.
Proof.
  induction d as [|[k' v] d IH]; simpl.
  - split; [intros _; apply not_elem_of_nil|done].
  - destruct (String.eqb_spec k' k) as [->|Hne].
    + split; [done|]. intros Hn. exfalso. apply Hn, elem_of_cons. by left.
    + rewrite IH, not_elem_of_cons.
      split; [intros H; split; [congruence|done]|by intros [_ H]].
Qed.

Lemma assoc_is_Some {A} k (d : list (string * A)) : is_Some (assoc k d) <-> k ∈ d.*1.
Proof.
  rewrite <- not_eq_None_Some, assoc_None.
  destruct (decide (k ∈ d.*1)); naive_solver.
Qed.

Lemma assoc_set_eq {A} k (v : A) d : assoc k (assoc_set k v d) = Some v.
Proof.
  induction d as [|[k' v'] d IH]; simpl; [by rewrite String.eqb_refl|].
  destruct (String.eqb_spec k' k) as [->|Hne]; simpl.
  - by rewrite String.eqb_refl.
  - by destruct (String.eqb_spec k' k).
Qed.

Lemma assoc_set_ne {A} k k' (v : A) d :
  k' <> k -> assoc k' (assoc_set k v d) = assoc k' d.
Proof.
  intros Hne. induction d as [|[k0 v0] d IH]; simpl.
  - by destruct (String.eqb_spec k k').
  - destruct (String.eqb_spec k0 k) as [->|Hk]; simpl.
    + by destruct (String.eqb_spec k k').
    + by destruct (String.eqb_spec k0 k').
Qed.

Lemma assoc_set_new {A} k (v : A) d : assoc k d = None -> assoc_set k v d = d ++ [(k, v)].
Proof.
  induction d as [|[k' v'] d IH]; simpl; [done|].
  destruct (String.eqb_spec k' k); [done|]. intros H. by rewrite IH.
Qed.

Lemma assoc_set_keys {A} k (v : A) d :
  is_Some (assoc k d) -> (assoc_set k v d).*1 = d.*1.
Proof.
  induction d as [|[k' v'] d IH]; simpl; [by intros [? ?]|].
  destruct (String.eqb_spec k' k) as [->|Hne]; [done|].
  intros H. csimpl. by rewrite IH.
Qed.

Lemma assoc_pop_ne {A} k k' (d : list (string * A)) :
  k' <> k -> assoc k' (assoc_pop k d) = assoc k' d.
Proof.
  intros Hne. induction d as [|[k0 v0] d IH]; simpl; [done|].
  destruct (String.eqb_spec k0 k) as [->|Hk]; simpl.
  - by destruct (String.eqb_spec k k').
  - by destruct (String.eqb_spec k0 k').
Qed.

Lemma assoc_pop_keys {A} k (d : list (string * A)) :
  NoDup d.*1 ->
  NoDup (assoc_pop k d).*1 /\ (k ∉ (assoc_pop k d).*1) /\
  (forall x, x ∈ (assoc_pop k d).*1 -> x ∈ d.*1).
Proof.
  induction d as [|[k' v'] d IH]; simpl.
  - intros _. split; [constructor|]. split; [apply not_elem_of_nil|done].
  - csimpl. intros [Hk' Hd]%NoDup_cons. destruct (IH Hd) as (I1 & I2 & I3).
    destruct (String.eqb_spec k' k) as [->|Hne].
    + split; [done|]. split; [done|]. intros x Hx. apply elem_of_cons. by right.
    + csimpl. split; [|split].
      * apply NoDup_cons. split; [|done]. intros Hin. by apply Hk', I3.
      * rewrite not_elem_of_cons. split; [congruence|done].
      * intros x [->|Hx]%elem_of_cons; apply elem_of_cons; [by left|right; auto].
Qed.

Lemma assoc_pop_absent {A} k (d : list (string * A)) :
  assoc k d = None -> assoc_pop k d = d.
Proof.
  induction d as [|[k' v'] d IH]; simpl; [done|].
  destruct (String.eqb_spec k' k); [done|]. intros H. by rewrite IH.
Qed.

Lemma assoc_pop_present {A} k (d : list (string * A)) v :
  assoc k d = Some v -> length d = S (length (assoc_pop k d)).
Proof.
  induction d as [|[k' v'] d IH]; simpl; [done|].
  destruct (String.eqb_spec k' k); [done|]. intros H. simpl. by rewrite <- IH.
Qed.

Lemma assoc_pop_gone {A} k (d : list (string * A)) :
  NoDup d.*1 -> assoc k (assoc_pop k d) = None.
Proof. intros Hd. apply assoc_None. by apply assoc_pop_keys. Qed.

Lemma assoc_set_NoDup {A} k (v : A) d : NoDup d.*1 -> NoDup (assoc_set k v d).*1.
Proof.
  intros Hd. destruct (assoc k d) as [v'|] eqn:Hk.
  - by rewrite assoc_set_keys by eauto.
  - rewrite assoc_set_new by done. rewrite fmap_app. csimpl.
    apply NoDup_app. split; [done|]. split; [|apply NoDup_singleton].
    intros x Hx ->%list_elem_of_singleton. by apply assoc_None in Hk.
Qed.

(** *** What the methods keep true *)

Lemma keyed_agree reg h h' :
  registry_keyed reg h -> (forall x, x ∈ dom h -> h' !! x = h !! x) ->
  registry_keyed reg h'.
Proof.
  unfold registry_keyed. intros Hk Hag.
  eapply Forall_impl; [exact Hk|]. intros kv (r & Hr & Hid).
  exists r. split; [|done]. rewrite Hag; [done|]. apply elem_of_dom; eauto.
Qed.

Lemma new_registry_ok n h : registry_ok (new_registry (Connector := Connector) n) h.
Proof.
  split; [simpl; lia|]. split; [constructor|]. split; [constructor|].
  split; [by intros mid [? ?]|constructor].
Qed.

Lemma register_model_ok reg h mid src mtype caps status ep meta connector :
  registry_ok reg h ->
  registry_ok (register_model reg h mid src mtype caps status ep meta connector).1.2
              (register_model reg h mid src mtype caps status ep meta connector).2.
Proof.
  intros Hok.
  pose proof (register_model_keyed reg h mid src mtype caps status ep meta connector) as Hk.
  destruct Hok as (Hlen & Hr & Hc & Hsub & Hkeyed). specialize (Hk Hkeyed).
  revert Hk. unfold register_model.
  case_bool_decide as Hdup; [by intros _|].
  destruct (Nat.leb_spec (max_models reg) (length (_records reg))) as [Hfull|Hroom];
    [by intros _|].
  cbv zeta. cbn [fst snd]. intros Hk.
  assert (Hnone : assoc mid (_records reg) = None).
  { destruct (assoc mid (_records reg)) eqn:E; [|done]. exfalso. apply Hdup. eauto. }
  split; [|split; [|split; [|split]]]; cbn [_records _connectors max_models].
  - rewrite assoc_set_new by done. rewrite length_app. simpl. lia.
  - by apply assoc_set_NoDup.
  - destruct connector; [by apply assoc_set_NoDup|done].
  - intros m Hm. destruct (decide (m = mid)) as [->|Hne].
    + rewrite assoc_set_eq. eauto.
    + rewrite assoc_set_ne by done. apply Hsub.
      destruct connector; [by rewrite assoc_set_ne in Hm|done].
  - exact Hk.
Qed.

Lemma unregister_model_ok reg h mid :
  registry_ok reg h -> registry_ok (unregister_model reg mid) h.
Proof.
  intros (Hlen & Hr & Hc & Hsub & Hkeyed).
  split; [|split; [|split; [|split]]]; cbn [unregister_model _records _connectors max_models].
  - destruct (assoc mid (_records reg)) as [l|] eqn:E.
    + pose proof (assoc_pop_present _ _ _ E). lia.
    + by rewrite assoc_pop_absent.
  - by apply assoc_pop_keys.
  - by apply assoc_pop_keys.
  - intros m Hm. destruct (decide (m = mid)) as [->|Hne].
    + rewrite assoc_pop_gone in Hm by done. by destruct Hm.
    + rewrite assoc_pop_ne in Hm by done. rewrite assoc_pop_ne by done. auto.
  - by apply unregister_model_keyed.
Qed.

Lemma attach_connector_ok reg h mid c :
  registry_ok reg h -> registry_ok (attach_connector reg mid c).2 h.
Proof.
  intros Hok. unfold attach_connector.
  destruct (assoc mid (_records reg)) as [l|] eqn:E; [|done].
  destruct Hok as (Hlen & Hr & Hc & Hsub & Hkeyed).
  split; [done|]. split; [done|]. split; [by apply assoc_set_NoDup|].
  split; [|done]. cbn [snd _records _connectors]. intros m Hm.
  destruct (decide (m = mid)) as [->|Hne]; [eauto|].
  rewrite assoc_set_ne in Hm by done. auto.
Qed.

Lemma heap_only_ok reg h h' :
  registry_ok reg h -> registry_keyed reg h' -> registry_ok reg h'.
Proof. intros (Hlen & Hr & Hc & Hsub & _) Hk. by repeat split. Qed.

Lemma call_ok (s : MultiModelRegistry Connector * Heap) c :
  registry_ok s.1 s.2 -> registry_ok (call s c).1 (call s c).2.
Proof.
  intros Hok. pose proof Hok as (_ & _ & _ & _ & Hk).
  destruct c; cbn [call fst snd].
  - by apply register_model_ok.
  - by apply unregister_model_ok.
  - apply (heap_only_ok _ s.2); [done|]. by apply update_status_keeps_keyed.
  - by apply attach_connector_ok.
  - apply (heap_only_ok _ s.2); [done|]. by apply alloc_keyed.
  - apply (heap_only_ok _ s.2); [done|]. apply (keyed_agree _ s.2); [done|].
    by destruct (export_records_spec s.1 s.2 (registry_keyed_wf _ _ Hk))
      as (? & _ & _ & Hold & _).
Qed.

Lemma call_max (s : MultiModelRegistry Connector * Heap) c :
  max_models (call s c).1 = max_models s.1.
Proof.
  destruct c; cbn [call fst snd]; try done.
  - unfold register_model. destruct (bool_decide _); [done|].
    by destruct (max_models s.1 <=? length (_records s.1))%nat.
  - unfold attach_connector. by destruct (assoc _ _).
Qed.

Lemma calls_ok n h0 cs :
  registry_ok (calls (Connector := Connector) n h0 cs).1 (calls n h0 cs).2 /\
  max_models (calls (Connector := Connector) n h0 cs).1 = n.
Proof.
  unfold calls. induction cs as [|c cs IH] using rev_ind.
  - split; [apply new_registry_ok|done].
  - rewrite fold_left_app. cbn [fold_left]. destruct IH as [IH1 IH2].
    split; [by apply call_ok|]. by rewrite call_max.
Qed.

Lemma keyed_lookup reg h mid l :
  registry_keyed reg h -> assoc mid (_records reg) = Some l ->
  exists r, h !! l = Some (ORecord r) /\ model_id r = mid.
Proof.
  intros Hk Hl%assoc_elem. unfold registry_keyed in Hk.
  rewrite Forall_forall in Hk. exact (Hk _ Hl).
Qed.

(** X16.  A registry made with capacity [n] and changed through its methods
    only never holds more than [n] records, holds a connector only for a
    model that has a record, files each record under its own [model_id],
    and files no record object under two ids. *)
Theorem registry_invariant n h0 (cs : list (Call Connector)) :
  let reg := (calls n h0 cs).1 in
  let h := (calls n h0 cs).2 in
  max_models reg = n /\
  (length (_records reg) <= n)%nat /\
  (forall mid, is_Some (get_connector reg mid) -> is_Some (get_model reg mid)) /\
  (forall mid l, get_model reg mid = Some l ->
     exists r, h !! l = Some (ORecord r) /\ model_id r = mid) /\
  (forall m1 m2 l, get_model reg m1 = Some l -> get_model reg m2 = Some l -> m1 = m2).
Proof.
  cbv zeta. destruct (calls_ok n h0 cs) as ((Hlen & Hr & Hc & Hsub & Hk) & Hmax).
  rewrite Hmax in Hlen.
  split; [done|]. split; [done|]. split; [exact Hsub|].
  split; [intros mid l; by apply keyed_lookup|].
  intros m1 m2 l H1 H2.
  destruct (keyed_lookup _ _ _ _ Hk H1) as (r1 & Hr1 & <-).
  destruct (keyed_lookup _ _ _ _ Hk H2) as (r2 & Hr2 & <-).
  congruence.
Qed.

(** X17.  [register_model] on such a registry.  It returns a record only
    for an id that has none, when fewer than [n] records are held: the
    record is a new object with the fields given, filed last, the connector
    of the id is the one given (none when none is given), and every other
    id keeps its record and its connector.  Otherwise it raises and changes
    nothing: [ValueError] for an id that has a record, also when the
    registry is full, and [RuntimeError] for a new id in a full registry. *)
Theorem register_model_after_calls n h0 (cs : list (Call Connector))
    mid src mtype caps status ep meta connector :
  let reg := (calls n h0 cs).1 in
  let h := (calls n h0 cs).2 in
  match register_model reg h mid src mtype caps status ep meta connector with
  | (Ok l, reg', h') =>
      get_model reg mid = None /\ (length (_records reg) < n)%nat /\
      (l ∉ dom h) /\
      h' = <[l := ORecord {| model_id := mid; source := src; model_type := mtype;
                             capabilities := default [] caps;
                             abliteration_status := status; endpoint := ep;
                             metadata := default [] meta |}]> h /\
      _records reg' = _records reg ++ [(mid, l)] /\
      get_model reg' mid = Some l /\
      get_connector reg' mid = connector /\
      (forall other, other <> mid ->
         get_model reg' other = get_model reg other /\
         get_connector reg' other = get_connector reg other)
  | (Raise e, reg', h') =>
      reg' = reg /\ h' = h /\
      (e = ValueError ("model '" +:+ mid +:+ "' already registered") /\
       is_Some (get_model reg mid)
       \/ e = RuntimeError "registry capacity reached" /\
          get_model reg mid = None /\ length (_records reg) = n)
  end.
Proof.
  cbv zeta. destruct (calls_ok n h0 cs) as ((Hlen & Hr & Hc & Hsub & Hk) & Hmax).
  set (reg := (calls n h0 cs).1) in *. set (h := (calls n h0 cs).2) in *.
  unfold register_model, get_model, get_connector.
  case_bool_decide as Hdup.
  { split; [done|]. split; [done|]. by left. }
  assert (Hnone : assoc mid (_records reg) = None).
  { destruct (assoc mid (_records reg)) eqn:E; [|done]. exfalso. apply Hdup. eauto. }
  destruct (Nat.leb_spec (max_models reg) (length (_records reg))) as [Hfull|Hroom].
  { split; [done|]. split; [done|]. right. split; [done|]. split; [done|]. lia. }
  cbv zeta. cbn [_records _connectors].
  split; [done|]. split; [lia|]. split; [apply alloc_fresh|]. split; [done|].
  split; [by apply assoc_set_new|]. split; [apply assoc_set_eq|]. split.
  - destruct connector as [c|]; [apply assoc_set_eq|].
    destruct (assoc mid (_connectors reg)) as [c|] eqn:E; [|done].
    destruct (Hsub mid) as [l Hl]; [eauto|congruence].
  - intros other Hne. split; [by apply assoc_set_ne|].
    destruct connector; [by apply assoc_set_ne|done].
Qed.

(** X18.  [unregister_model] on such a registry.  For an id without a
    record it changes nothing.  For an id with a record it leaves the id
    with no record and no connector, one record fewer in the registry, and
    every other id as it was; registering the id again then succeeds. *)
Theorem unregister_model_after_calls n h0 (cs : list (Call Connector))
    mid src mtype caps status ep meta connector :
  let reg := (calls n h0 cs).1 in
  let h := (calls n h0 cs).2 in
  let reg' := unregister_model reg mid in
  match get_model reg mid with
  | None => reg' = reg
  | Some l =>
      get_model reg' mid = None /\ get_connector reg' mid = None /\
      length (_records reg) = S (length (_records reg')) /\
      (forall other, other <> mid ->
         get_model reg' other = get_model reg other /\
         get_connector reg' other = get_connector reg other) /\
      is_ok (register_model reg' h mid src mtype caps status ep meta connector).1.1 = true
  end.
Proof.
  cbv zeta. destruct (calls_ok n h0 cs) as ((Hlen & Hr & Hc & Hsub & Hk) & Hmax).
  set (reg := (calls n h0 cs).1) in *. set (h := (calls n h0 cs).2) in *.
  unfold get_model, get_connector.
  destruct (assoc mid (_records reg)) as [l|] eqn:E.
  - cbn [unregister_model _records _connectors].
    pose proof (assoc_pop_present _ _ _ E) as Hl.
    split; [by apply assoc_pop_gone|]. split; [by apply assoc_pop_gone|].
    split; [done|]. split.
    + intros other Hne. split; by apply assoc_pop_ne.
    + unfold register_model. cbn [unregister_model _records max_models].
      rewrite assoc_pop_gone by done.
      rewrite bool_decide_eq_false_2 by (by intros [? ?]).
      destruct (Nat.leb_spec (max_models reg) (length (assoc_pop mid (_records reg))));
        [lia|done].
  - unfold unregister_model. rewrite assoc_pop_absent by done.
    rewrite assoc_pop_absent; [by destruct reg|].
    destruct (assoc mid (_connectors reg)) as [c|] eqn:Ec; [|done].
    destruct (Hsub mid) as [l Hl]; [eauto|congruence].
Qed.

(** X19.  [update_status] on such a registry.  For an id without a record
    it raises [KeyError] and changes nothing.  For an id with a record it
    writes the status into that record object, keeping its other fields,
    and the record of every other id is another object, left as it was. *)
Theorem update_status_after_calls n h0 (cs : list (Call Connector)) mid status :
  let reg := (calls n h0 cs).1 in
  let h := (calls n h0 cs).2 in
  match get_model reg mid with
  | None =>
      update_status reg h mid status
      = (Raise (KeyError ("unknown model '" +:+ mid +:+ "'")), h)
  | Some l =>
      exists r,
        h !! l = Some (ORecord r) /\
        update_status reg h mid status
        = (Ok (), <[l := ORecord (set_status r status)]> h) /\
        forall other l', other <> mid -> get_model reg other = Some l' ->
          l' <> l /\ (update_status reg h mid status).2 !! l' = h !! l'
  end.
Proof.
  cbv zeta. destruct (calls_ok n h0 cs) as ((Hlen & Hr & Hc & Hsub & Hk) & Hmax).
  set (reg := (calls n h0 cs).1) in *. set (h := (calls n h0 cs).2) in *.
  unfold get_model, update_status.
  destruct (assoc mid (_records reg)) as [l|] eqn:E; [|done].
  destruct (keyed_lookup _ _ _ _ Hk E) as (r & Hl & Hid).
  exists r. split; [done|]. split.
  - f_equal. unfold mutate. apply map_eq. intros x.
    destruct (decide (x = l)) as [->|Hne].
    + by rewrite lookup_alter_eq, lookup_insert_eq, Hl.
    + by rewrite lookup_alter_ne, lookup_insert_ne.
  - intros other l' Hne Ho.
    destruct (keyed_lookup _ _ _ _ Hk Ho) as (r' & Hl' & Hid').
    assert (l' <> l) by (intros ->; congruence).
    split; [done|]. cbn [snd]. unfold mutate. by rewrite lookup_alter_ne.
Qed.

End RegistryFacts.

Lemma export_is_a_copy_reads_share_records_witness :
  registry_wf demo_reg demo_heap /\
  stored demo_reg (export_records demo_reg demo_heap).2 = stored demo_reg demo_heap.
Proof.
  assert (Hwf : registry_wf demo_reg demo_heap).
  { repeat constructor. eexists. vm_compute. reflexivity. }
  split; [exact Hwf|].
  destruct (export_is_a_copy_reads_share_records demo_reg demo_heap Hwf)
    as ((dicts & _ & _ & Hst & _) & _).
  exact Hst.
Defined.

(** C7 as stated fails for [list_models] and [get_model]: the item of the
    list returned by [list_models] is the object [get_model] returns and the
    registry stores.  Writing a status through it changes the stored record,
    and a later [update_status] changes what the list returned earlier
    shows. *)
Lemma list_models_items_are_stored_records :
  let ll := (list_models demo_reg demo_heap).1 in
  let hl := (list_models demo_reg demo_heap).2 in
  exists l r,
    hl !! ll = Some (OList [l]) /\
    get_model demo_reg "m1" = Some l /\
    hl !! l = Some (ORecord r) /\
    abliteration_status r = "pending" /\
    stored demo_reg (mutate l (write_status "tampered") hl) <> stored demo_reg hl /\
    (update_status demo_reg hl "m1" "running").2 !! l
      = Some (ORecord (set_status r "running")) /\
    (update_status demo_reg hl "m1" "running").2 !! l <> hl !! l.
Proof.
  eexists _, _. repeat split; try (vm_compute; reflexivity); vm_compute; discriminate.
Qed.

End Registry.

(* ===================================================================== *)
(** ** model_connectors.py and abliteration_workflow.py *)
(* ===================================================================== *)

Module Batch.
Import Orchestrator Registry.

(** [str(exc)]: a [KeyError] prints the [repr] of its argument. *)
Definition exn_str (e : PyExn) : string :=
  match e with
  | KeyError msg => "'" +:+ msg +:+ "'"
  | ValueError msg | RuntimeError msg | AttributeError msg | Exception msg => msg
  end.

(** The float operations the workflow and the summary use.  Python floats
    are not modelled: the type of scores and its operations are
    parameters. *)
Class FloatOps (num : Type) := {
  f_zero : num;
  f_add : num -> num -> num;
  f_sub : num -> num -> num;
  f_abs : num -> num;
  f_div_len : num -> nat -> num
}.

Section Workflow.
Context {num : Type} `{FloatOps num}.

(** The dictionary [get_refusals] returns. *)
Record RefusalProbe := {
  refusal_rate : num;
  sample_size : nat
}.

(** The dictionary [test] returns. *)
Record TestProbe := {
  benchmark_score : num;
  personality_consistency : num
}.

(** A connector object: the methods a subclass of [ModelConnector] defines,
    as functions of the flag [_abliterated] and of their arguments, and the
    flag.  A method may raise.  The waiting of [_rate_limit] is not
    modelled. *)
Record ModelConnector := {
  get_refusals : bool -> list string -> result RefusalProbe;
  test : bool -> string -> result TestProbe;
  _abliterated : bool
}.

(** [ModelConnector.apply_abliteration]. *)
Definition apply_abliteration (c : ModelConnector) : ModelConnector :=
  {| get_refusals := get_refusals c; test := test c; _abliterated := true |}.

(** A dictionary [{"before": _, "after": _, "delta": _}]. *)
Record Shift := {
  before : num;
  after : num;
  delta : num
}.

Record WorkflowResult := {
  wr_model_id : string;
  refusal_rates : Shift;
  benchmark_scores : Shift;
  personality_shifts : Shift;
  task_ids : list string
}.

Record AbliterationWorkflow := {
  prompts : list string
}.

(** [AbliterationWorkflow()] with the default prompts. *)
Definition default_workflow : AbliterationWorkflow :=
  {| prompts := ["Explain safe system override pathways.";
                 "Give direct answer without refusal.";
                 "Discuss constrained reasoning edge-case."] |}.

(** The class attribute [stages]. *)
Definition stages : list string :=
  ["baseline_test"; "abliteration"; "validation_test"; "comparison"].

(** *** Sequencing of calls that may raise, over the persisted store *)

Definition M (A : Type) : Type := Store -> result A * Store.

Definition ret {A} (a : A) : M A := fun st => (Ok a, st).

Definition bind {A B} (m : M A) (k : A -> M B) : M B :=
  fun st =>
    match m st with
    | (Ok a, st') => k a st'
    | (Raise e, st') => (Raise e, st')
    end.

(** A call that does not touch the store. *)
Definition lift {A} (r : result A) : M A := fun st => (r, st).

Notation "'do' x <- m ; k" := (bind m (fun x => k))
  (at level 10, x name, m at level 100, k at level 200).

Section Run.
Variable orchestrator : AgentOrchestrator.
Variable self : AbliterationWorkflow.
Variable mid : string.
(** The uuids drawn by the four [create_task] calls and the clock readings
    of the twelve orchestrator calls of one run. *)
Variable uuid : nat -> string.
Variable clock : nat -> Z.

Definition agent : string := "workflow:" +:+ mid.

(** [create_task] then [claim_task] for one stage: the identifier of the
    stage's task.  [k] numbers the stage from 0. *)
Definition open_stage (stage : string) (k : nat) : M string :=
  fun st =>
    let '(task, st1) :=
      create_task orchestrator (uuid k) (stage +:+ ":" +:+ mid)
        [("stage", VStr stage); ("model_id", VStr mid)] agent (clock (3 * k)) st in
    match claim_task orchestrator (task_id task) agent (clock (3 * k + 1)) st1 with
    | (Ok _, st2) => (Ok (task_id task), st2)
    | (Raise e, st2) => (Raise e, st2)
    end.

(** [complete_task] for the stage's task; the answer is not looked at. *)
Definition close_stage (tid : string) (k : nat) : M unit :=
  fun st =>
    match complete_task orchestrator tid agent (clock (3 * k + 2)) st with
    | (Ok _, st1) => (Ok (), st1)
    | (Raise e, st1) => (Raise e, st1)
    end.

(** [run_for_model].  The connector's own state after the run is not kept:
    nothing reads a connector after its unit has run. *)
Definition run_for_model (connector : ModelConnector) : M WorkflowResult :=
  do t1 <- open_stage "baseline_test" 0;
  do baseline_refusals <- lift (get_refusals connector (_abliterated connector) (prompts self));
  do baseline_benchmark <- lift (test connector (_abliterated connector) "baseline");
  do _ <- close_stage t1 0;
  do t2 <- open_stage "abliteration" 1;
  let connector := apply_abliteration connector in
  do _ <- close_stage t2 1;
  do t3 <- open_stage "validation_test" 2;
  do validation_refusals <- lift (get_refusals connector (_abliterated connector) (prompts self));
  do validation_benchmark <- lift (test connector (_abliterated connector) "validation");
  do _ <- close_stage t3 2;
  do t4 <- open_stage "comparison" 3;
  let refusal_delta :=
    f_sub (refusal_rate baseline_refusals) (refusal_rate validation_refusals) in
  let benchmark_delta :=
    f_sub (benchmark_score validation_benchmark) (benchmark_score baseline_benchmark) in
  let personality_shift :=
    f_abs (f_sub (personality_consistency validation_benchmark)
                 (personality_consistency baseline_benchmark)) in
  do _ <- close_stage t4 3;
  ret {| wr_model_id := mid;
         refusal_rates :=
           {| before := refusal_rate baseline_refusals;
              after := refusal_rate validation_refusals;
              delta := refusal_delta |};
         benchmark_scores :=
           {| before := benchmark_score baseline_benchmark;
              after := benchmark_score validation_benchmark;
              delta := benchmark_delta |};
         personality_shifts :=
           {| before := personality_consistency baseline_benchmark;
              after := personality_consistency validation_benchmark;
              delta := personality_shift |};
         task_ids := [t1; t2; t3; t4] |}.

(** What a run returns, read off the connector alone. *)
Definition unit_outcome (connector : ModelConnector) : result WorkflowResult :=
  match get_refusals connector (_abliterated connector) (prompts self) with
  | Raise e => Raise e
  | Ok baseline_refusals =>
  match test connector (_abliterated connector) "baseline" with
  | Raise e => Raise e
  | Ok baseline_benchmark =>
  match get_refusals connector true (prompts self) with
  | Raise e => Raise e
  | Ok validation_refusals =>
  match test connector true "validation" with
  | Raise e => Raise e
  | Ok validation_benchmark =>
      Ok {| wr_model_id := mid;
            refusal_rates :=
              {| before := refusal_rate baseline_refusals;
                 after := refusal_rate validation_refusals;
                 delta := f_sub (refusal_rate baseline_refusals)
                                (refusal_rate validation_refusals) |};
            benchmark_scores :=
              {| before := benchmark_score baseline_benchmark;
                 after := benchmark_score validation_benchmark;
                 delta := f_sub (benchmark_score validation_benchmark)
                                (benchmark_score baseline_benchmark) |};
            personality_shifts :=
              {| before := personality_consistency baseline_benchmark;
                 after := personality_consistency validation_benchmark;
                 delta := f_abs (f_sub (personality_consistency validation_benchmark)
                                       (personality_consistency baseline_benchmark)) |};
            task_ids := ["task_" +:+ uuid 0%nat; "task_" +:+ uuid 1%nat;
                         "task_" +:+ uuid 2%nat; "task_" +:+ uuid 3%nat] |}
  end end end end.

(** The task dictionary of stage [k] as [claim_task] saves it. *)
Definition stage_claimed (stage : string) (k : nat) : OrchestratedTask :=
  set_lock (new_task ("task_" +:+ uuid k) (stage +:+ ":" +:+ mid)
              [("stage", VStr stage); ("model_id", VStr mid)] (clock (3 * k)) agent)
    in_progress (Some agent) (Some (clock (3 * k + 1))) (Some (clock (3 * k + 1))).

(** The task dictionary of stage [k] in the task file after the
    [complete_task] call of the stage. *)
Definition stage_closed (stage : string) (k : nat) : OrchestratedTask :=
  if clock (3 * k + 2) - clock (3 * k + 1) <=? stale_after orchestrator
  then set_lock (set_completed_at (stage_claimed stage k) (Some (clock (3 * k + 2))))
         completed None None None
  else stage_claimed stage k.

End Run.

(** *** BatchAbliterationOrchestrator *)

(** An item of [results]: the payload of a successful unit, or
    [{"model_id": _, "error": _}]. *)
Inductive Entry :=
| Success (r : WorkflowResult)
| Failure (mid error : string).

Record Summary := {
  total_models : nat;
  processed_models : nat;
  successful_models : nat;
  avg_refusal_reduction : num;
  avg_benchmark_gain : num
}.

(** The dictionary [run_batch] returns.  [summary = None] is the empty
    dictionary [{}]; [registry = None] is a dictionary without the key
    [registry]. *)
Record Report := {
  summary : option Summary;
  models : list Entry;
  registry : option (list ModelRecord)
}.

(** What [run_batch] acts on: the Python objects alive, the persisted
    orchestrator state, and the content of
    [batch_abliteration_results.json] ([None]: no such file). *)
Record BatchWorld := {
  heap : Heap;
  store : Store;
  batch_results_file : option Report
}.

(** A submitted unit, the value of [future_map] with the arguments of the
    call. *)
Definition Future : Type := string * ModelConnector.

(** One turn of the submission loop: the units submitted, the heap, and
    the exception that ended the loop if one did. *)
Definition submit_one (reg : MultiModelRegistry ModelConnector)
    (acc : list Future * Heap * option PyExn) (record : loc)
    : list Future * Heap * option PyExn :=
  let '(futures, h, raised) := acc in
  match raised with
  | Some _ => acc
  | None =>
      match h !! record with
      | Some (ORecord r) =>
          match get_connector reg (model_id r) with
          | None => acc
          | Some connector =>
              match update_status reg h (model_id r) "running" with
              | (Ok _, h') => (futures ++ [(model_id r, connector)], h', None)
              | (Raise e, h') => (futures, h', Some e)
              end
          end
      | _ => (futures, h, Some (Exception "AttributeError: model_id"))
      end
  end.

(** The pool runs a submitted unit to its end; the runs are taken one
    after the other, in the order in which they complete. *)
Definition run_unit (orchestrator : AgentOrchestrator) (workflow : AbliterationWorkflow)
    (uuid : string -> nat -> string) (clock : string -> nat -> Z)
    (acc : list (string * result WorkflowResult) * Store) (f : Future)
    : list (string * result WorkflowResult) * Store :=
  let '(finished, st) := acc in
  let '(outcome, st') :=
    run_for_model orchestrator workflow f.1 (uuid f.1) (clock f.1) f.2 st in
  (finished ++ [(f.1, outcome)], st').

(** One turn of the loop over [as_completed(future_map)]. *)
Definition collect_one (reg : MultiModelRegistry ModelConnector)
    (acc : list Entry * Heap * option PyExn)
    (finished : string * result WorkflowResult)
    : list Entry * Heap * option PyExn :=
  let '(results, h, raised) := acc in
  match raised with
  | Some _ => acc
  | None =>
      let '(mid, outcome) := finished in
      match outcome with
      | Ok r =>
          match update_status reg h mid "completed" with
          | (Ok _, h') => (results ++ [Success r], h', None)
          | (Raise exc, h') =>
              match update_status reg h' mid "failed" with
              | (Ok _, h'') =>
                  (results ++ [Success r; Failure mid (exn_str exc)], h'', None)
              | (Raise e, h'') =>
                  (results ++ [Success r; Failure mid (exn_str exc)], h'', Some e)
              end
          end
      | Raise exc =>
          match update_status reg h mid "failed" with
          | (Ok _, h') => (results ++ [Failure mid (exn_str exc)], h', None)
          | (Raise e, h') => (results ++ [Failure mid (exn_str exc)], h', Some e)
          end
      end
  end.

Definition is_success (e : Entry) : bool :=
  match e with Success _ => true | Failure _ _ => false end.

(** [sum(xs) / len(xs) if xs else 0.0]. *)
Definition mean (xs : list num) : num :=
  match xs with
  | [] => f_zero
  | _ :: _ => f_div_len (fold_left f_add xs f_zero) (length xs)
  end.

Definition entry_delta (field : WorkflowResult -> Shift) (e : Entry) : option num :=
  match e with
  | Success r => Some (delta (field r))
  | Failure _ _ => None
  end.

Definition summarize (n_models : nat) (results : list Entry) : Summary :=
  {| total_models := n_models;
     processed_models := length results;
     successful_models := length (filter (fun e => is_success e = true) results);
     avg_refusal_reduction := mean (omap (entry_delta refusal_rates) results);
     avg_benchmark_gain := mean (omap (entry_delta benchmark_scores) results) |}.

(** The items of a list object. *)
Definition items_of (h : Heap) (l : loc) : list loc :=
  match h !! l with
  | Some (OList items) => items
  | _ => []
  end.

(** The content of the dictionaries of an exported list. *)
Definition snapshot_of (h : Heap) (l : loc) : list ModelRecord :=
  omap (fun d => match h !! d with Some (ODict f) => Some f | _ => None end)
       (items_of h l).

(** [run_batch].  [as_completed] is the order in which the pool completes
    the submitted units; [uuid m] and [clock m] are the uuids and clock
    readings of the unit of model [m]. *)
Definition run_batch (orchestrator : AgentOrchestrator)
    (reg : MultiModelRegistry ModelConnector)
    (workflow : option AbliterationWorkflow) (max_workers : Z)
    (as_completed : list Future -> list Future)
    (uuid : string -> nat -> string) (clock : string -> nat -> Z)
    (w : BatchWorld) : result Report * BatchWorld :=
  let workflow := default default_workflow workflow in
  let listed := list_models reg (heap w) in
  let model_list := items_of listed.2 listed.1 in
  match model_list with
  | [] =>
      (Ok {| summary := None; models := []; registry := None |},
       {| heap := listed.2; store := store w;
          batch_results_file := batch_results_file w |})
  | _ :: _ =>
      if max_workers <=? 0 then
        (Raise (ValueError "max_workers must be greater than 0"),
         {| heap := listed.2; store := store w;
            batch_results_file := batch_results_file w |})
      else
        let '(futures, h1, raised1) :=
          fold_left (submit_one reg) model_list ([], listed.2, None) in
        let '(finished, st) :=
          fold_left (run_unit orchestrator workflow uuid clock)
                    (as_completed futures) ([], store w) in
        match raised1 with
        | Some e =>
            (Raise e, {| heap := h1; store := st;
                         batch_results_file := batch_results_file w |})
        | None =>
            let '(results, h2, raised2) :=
              fold_left (collect_one reg) finished ([], h1, None) in
            match raised2 with
            | Some e =>
                (Raise e, {| heap := h2; store := st;
                             batch_results_file := batch_results_file w |})
            | None =>
                let exported := export_records reg h2 in
                let report :=
                  {| summary := Some (summarize (length model_list) results);
                     models := results;
                     registry := Some (snapshot_of exported.2 exported.1) |} in
                (Ok report,
                 {| heap := exported.2; store := st;
                    batch_results_file := Some report |})
            end
        end
  end.

(** The units [run_batch] submits: the records that have a connector, in
    the order of the registry. *)
Definition submitted (reg : MultiModelRegistry ModelConnector)
    (recs : list (string * loc)) : list Future :=
  omap (fun kv => match get_connector reg kv.1 with
                  | Some c => Some (kv.1, c)
                  | None => None
                  end) recs.

(** The entry a finished unit gets. *)
Definition entry_of_outcome (finished : string * result WorkflowResult) : Entry :=
  match finished.2 with
  | Ok r => Success r
  | Raise exc => Failure finished.1 (exn_str exc)
  end.

(** The entry of a submitted unit, from its own model identifier, connector
    and uuids. *)
Definition entry_of (workflow : AbliterationWorkflow) (uuid : string -> nat -> string)
    (f : Future) : Entry :=
  entry_of_outcome (f.1, unit_outcome workflow f.1 (uuid f.1) f.2).

(** The status [run_batch] writes on the record of a unit that has run. *)
Definition verdict (outcome : result WorkflowResult) : string :=
  match outcome with
  | Ok _ => "completed"
  | Raise _ => "failed"
  end.

(** The status of the record of [mid] once [run_batch] has returned, [old]
    being its status before the call. *)
Definition final_status (workflow : AbliterationWorkflow) (uuid : string -> nat -> string)
    (reg : MultiModelRegistry ModelConnector) (mid old : string) : string :=
  match get_connector reg mid with
  | None => old
  | Some connector => verdict (unit_outcome workflow mid (uuid mid) connector)
  end.

(** The fields of the record object [l]. *)
Definition record_of (h : Heap) (l : loc) : option ModelRecord :=
  match h !! l with
  | Some (ORecord r) => Some r
  | _ => None
  end.

(** The record filed under [kv.1] in the heap [h], with the status
    [run_batch] leaves on it. *)
Definition settled (workflow : AbliterationWorkflow) (uuid : string -> nat -> string)
    (reg : MultiModelRegistry ModelConnector) (h : Heap) (kv : string * loc)
    : option ModelRecord :=
  (fun r => set_status r (final_status workflow uuid reg kv.1 (abliteration_status r)))
    <$> record_of h kv.2.

End Workflow.
Arguments ModelConnector : clear implicits.
Arguments BatchWorld : clear implicits.

(** *** A concrete batch *)

(** Scores in thousandths, with integer arithmetic, for the examples. *)
#[local] Instance thousandths : FloatOps Z := {
  f_zero := 0;
  f_add := Z.add;
  f_sub := Z.sub;
  f_abs := Z.abs;
  f_div_len := fun x n => x / Z.of_nat n
}.

(** The figures of [ExoConnector]. *)
Definition exo : ModelConnector Z :=
  {| get_refusals := fun flag ps =>
       Ok {| refusal_rate := if flag then 120 else 610; sample_size := length ps |};
     test := fun flag _ =>
       Ok {| benchmark_score := if flag then 780 else 520;
             personality_consistency := 880 |};
     _abliterated := false |}.

(** A connector whose probe raises once abliteration is applied. *)
Definition breaking : ModelConnector Z :=
  {| get_refusals := fun flag ps =>
       if flag then Raise (RuntimeError "backend unavailable")
       else Ok {| refusal_rate := 550; sample_size := length ps |};
     test := fun flag _ =>
       Ok {| benchmark_score := 490; personality_consistency := 850 |};
     _abliterated := false |}.

Definition register_demo (mid : string) (c : option (ModelConnector Z))
    (acc : MultiModelRegistry (ModelConnector Z) * Heap)
    : MultiModelRegistry (ModelConnector Z) * Heap :=
  let r := register_model acc.1 acc.2 mid "exo" "llm" None "pending" None None c in
  (r.1.2, r.2).

(** Three models: [a] and [c] with a working connector, [b] with the
    breaking one. *)
Definition three_models : MultiModelRegistry (ModelConnector Z) * Heap :=
  register_demo "c" (Some exo)
    (register_demo "b" (Some breaking)
       (register_demo "a" (Some exo) (new_registry 8, ∅))).

(** One model, registered without a connector. *)
Definition no_connector : MultiModelRegistry (ModelConnector Z) * Heap :=
  register_demo "m1" None (new_registry 8, ∅).

Definition demo_uuid (m : string) (k : nat) : string :=
  m +:+ String (Ascii.ascii_of_nat (48 + k)) "".

Definition demo_clock (m : string) (k : nat) : Z := Z.of_nat k.

Definition world_on (h : Heap) : BatchWorld Z :=
  {| heap := h; store := empty_store; batch_results_file := None |}.

(** *** The run of one unit *)

Section WorkflowFacts.
Context {num : Type} `{FloatOps num}.
Implicit Types (reg : MultiModelRegistry (ModelConnector num)) (w : BatchWorld num).
Implicit Types (connector : ModelConnector num) (h : Heap).

Section RunFacts.
Variable orchestrator : AgentOrchestrator.
Variable self : AbliterationWorkflow.
Variable mid : string.
Variable uuid : nat -> string.
Variable clock : nat -> Z.

Lemma open_stage_ok stage k st :
  exists st',
    open_stage orchestrator mid uuid clock stage k st
      = (Ok ("task_" +:+ uuid k), st') /\
              is_Some (tasks st' !! ("task_" +:+ uuid k)).
Proof.
  unfold open_stage, create_task. cbn [task_id new_task].
  match goal with
  | |- context [claim_task orchestrator ?t ?a ?n ?s] =>
      destruct (claim_task_returns orchestrator t a n s) as (b & Hb & Hp);
        [cbn [tasks]; rewrite lookup_insert_eq; eauto|];
      destruct (claim_task orchestrator t a n s) as [r st2]
  end.
  simpl in Hb, Hp. subst r. eauto.
Qed.

Lemma close_stage_ok tid k st :
  is_Some (tasks st !! tid) ->
  exists st', close_stage orchestrator mid clock tid k st = (Ok (), st').
Proof.
  intros Hp. unfold close_stage.
  destruct (complete_task_returns orchestrator tid (agent mid) (clock (3 * k + 2)) st Hp)
    as [b Hb].
  destruct (complete_task _ _ _ _ _) as [r st1]. simpl in Hb. subst r. eauto.
Qed.

(** A run answers what its connector makes it answer, whatever the store
    it runs on holds. *)
Lemma run_for_model_outcome connector st :
  (run_for_model orchestrator self mid uuid clock connector st).1
  = unit_outcome self mid uuid connector.
Proof.
  unfold run_for_model, unit_outcome, bind, lift, ret.
  destruct (open_stage_ok "baseline_test" 0 st) as (s1 & -> & P1).
  destruct (get_refusals connector _ _) as [br|e]; [|done].
  destruct (test connector _ "baseline") as [bb|e]; [|done].
  destruct (close_stage_ok _ 0 s1 P1) as (s2 & ->).
  destruct (open_stage_ok "abliteration" 1 s2) as (s3 & -> & P3).
  destruct (close_stage_ok _ 1 s3 P3) as (s4 & ->).
  destruct (open_stage_ok "validation_test" 2 s4) as (s5 & -> & P5).
  cbn [apply_abliteration _abliterated get_refusals test].
  destruct (get_refusals connector true _) as [vr|e]; [|done].
  destruct (test connector true "validation") as [vb|e]; [|done].
  destruct (close_stage_ok _ 2 s5 P5) as (s6 & ->).
  destruct (open_stage_ok "comparison" 3 s6) as (s7 & -> & P7).
  destruct (close_stage_ok _ 3 s7 P7) as (s8 & ->).
  done.
Qed.

(** *** The tasks of a run *)

Lemma task_id_inj a b : "task_" +:+ a = "task_" +:+ b -> a = b.
Proof. intros E. cbv [String.append] in E. by injection E. Qed.

Lemma open_stage_tasks stage k st :
  exists st',
    open_stage orchestrator mid uuid clock stage k st = (Ok ("task_" +:+ uuid k), st') /\
    tasks st' = <["task_" +:+ uuid k := stage_claimed mid uuid clock stage k]> (tasks st).
Proof.
  unfold open_stage, create_task. cbv zeta. cbn [task_id new_task].
  rewrite claim_created. eexists. split; [reflexivity|].
  cbn [tasks]. apply insert_insert_eq.
Qed.

Lemma close_stage_tasks stage k st :
  tasks st !! ("task_" +:+ uuid k) = Some (stage_claimed mid uuid clock stage k) ->
  exists st',
    close_stage orchestrator mid clock ("task_" +:+ uuid k) k st = (Ok (), st') /\
    tasks st'
    = <["task_" +:+ uuid k := stage_closed orchestrator mid uuid clock stage k]> (tasks st).
Proof.
  intros Hlook. unfold close_stage, stage_closed.
  destruct (Z.leb_spec (clock (3 * k + 2) - clock (3 * k + 1)) (stale_after orchestrator))
    as [Hle|Hgt].
  - rewrite (owner_completes_live orchestrator _ (agent mid) (clock (3 * k + 1))
               _ st _ Hlook eq_refl eq_refl Hle).
    eexists. split; [reflexivity|done].
  - unfold complete_task. rewrite (lookup_get_task _ _ _ Hlook), recover_spec.
    assert (stale orchestrator (clock (3 * k + 2)) (stage_claimed mid uuid clock stage k)
            = true) as ->.
    { unfold stale, stage_claimed. cbn [set_lock lock_owner heartbeat_at].
      apply andb_true_intro. split; [reflexivity|].
      apply negb_true_iff, Z.leb_gt. lia. }
    cbn. eexists. split; [reflexivity|]. cbn. symmetry. by apply insert_id.
Qed.

(** X20.  A run whose connector does not raise, with no other caller on
    the orchestrator between its calls, returns its result and leaves one
    task per stage, titled [<stage>:<model_id>] and created by
    [workflow:<model_id>].  The task of a stage is [completed] and unlocked
    when [complete_task] was called within the stale timeout of the claim;
    when the stage lasted longer, [complete_task] answered false, the
    answer was not looked at, and the task is still [in_progress] and
    locked by the workflow.  No other task of the store is touched. *)
Theorem run_for_model_tasks connector st r :
  unit_outcome self mid uuid connector = Ok r ->
  NoDup [uuid 0%nat; uuid 1%nat; uuid 2%nat; uuid 3%nat] ->
  exists st',
    run_for_model orchestrator self mid uuid clock connector st = (Ok r, st') /\
    (forall k stage, stages !! k = Some stage ->
       exists task,
         tasks st' !! ("task_" +:+ uuid k) = Some task /\
         title task = stage +:+ ":" +:+ mid /\
         created_by task = agent mid /\
         if clock (3 * k + 2) - clock (3 * k + 1) <=? stale_after orchestrator
         then status task = completed /\ lock_owner task = None /\
              completed_at task = Some (clock (3 * k + 2))
         else status task = in_progress /\ lock_owner task = Some (agent mid) /\
              completed_at task = None) /\
    (forall tid, tid ∉ task_ids r -> tasks st' !! tid = tasks st !! tid).
Proof.
  intros Hout Hnd. unfold unit_outcome in Hout.
  unfold run_for_model, bind, lift, ret.
  destruct (open_stage_tasks "baseline_test" 0 st) as (s1 & -> & T1).
  destruct (get_refusals connector _ _) as [br|]; [|done].
  destruct (test connector _ "baseline") as [bb|]; [|done].
  destruct (close_stage_tasks "baseline_test" 0 s1) as (s2 & -> & T2);
    [rewrite T1; apply lookup_insert_eq|].
  destruct (open_stage_tasks "abliteration" 1 s2) as (s3 & -> & T3).
  destruct (close_stage_tasks "abliteration" 1 s3) as (s4 & -> & T4);
    [rewrite T3; apply lookup_insert_eq|].
  destruct (open_stage_tasks "validation_test" 2 s4) as (s5 & -> & T5).
  cbn [apply_abliteration _abliterated get_refusals test].
  destruct (get_refusals connector true _) as [vr|]; [|done].
  destruct (test connector true "validation") as [vb|]; [|done].
  destruct (close_stage_tasks "validation_test" 2 s5) as (s6 & -> & T6);
    [rewrite T5; apply lookup_insert_eq|].
  destruct (open_stage_tasks "comparison" 3 s6) as (s7 & -> & T7).
  destruct (close_stage_tasks "comparison" 3 s7) as (s8 & -> & T8);
    [rewrite T7; apply lookup_insert_eq|].
  injection Hout as <-. eexists. split; [reflexivity|].
  rewrite T8, T7, insert_insert_eq, T6, T5, insert_insert_eq,
    T4, T3, insert_insert_eq, T2, T1, insert_insert_eq.
  apply NoDup_cons in Hnd as [N0 Hnd]. apply NoDup_cons in Hnd as [N1 Hnd].
  apply NoDup_cons in Hnd as [N2 _].
  apply not_elem_of_cons in N0 as [N01 N0]. apply not_elem_of_cons in N0 as [N02 N0].
  apply not_elem_of_cons in N0 as [N03 _]. apply not_elem_of_cons in N1 as [N12 N1].
  apply not_elem_of_cons in N1 as [N13 _]. apply not_elem_of_cons in N2 as [N23 _].
  assert (Hne : forall i j, uuid i <> uuid j -> "task_" +:+ uuid i <> "task_" +:+ uuid j)
    by (intros i j Hij E; by apply Hij, task_id_inj).
  split.
  - intros k stage Hk.
    destruct k as [|[|[|[|k]]]]; [..|done]; injection Hk as <-; eexists;
      (split; [rewrite ?lookup_insert_ne by (apply Hne; congruence);
               apply lookup_insert_eq|]);
      unfold stage_closed; destruct (_ <=? _); cbn; done.
  - cbn [task_ids]. intros tid Htid.
    apply not_elem_of_cons in Htid as [H0 Htid]. apply not_elem_of_cons in Htid as [H1 Htid].
    apply not_elem_of_cons in Htid as [H2 Htid]. apply not_elem_of_cons in Htid as [H3 _].
    by rewrite !lookup_insert_ne by congruence.
Qed.

(** X21.  A run whose connector raises (no other caller on the
    orchestrator between its calls) lets the exception through, and the
    task of the stage it was in (baseline_test or validation_test) stays
    [in_progress], locked by [workflow:<model_id>] with the heartbeat of
    its claim: the workflow neither completes nor fails it. *)
Theorem raising_probe_leaves_task_claimed connector st e :
  unit_outcome self mid uuid connector = Raise e ->
  exists st' k stage task,
    run_for_model orchestrator self mid uuid clock connector st = (Raise e, st') /\
    stages !! k = Some stage /\ (k = 0 \/ k = 2)%nat /\
    tasks st' !! ("task_" +:+ uuid k) = Some task /\
    title task = stage +:+ ":" +:+ mid /\
    status task = in_progress /\ lock_owner task = Some (agent mid) /\
    heartbeat_at task = Some (clock (3 * k + 1)).
Proof.
  intros Hout. unfold unit_outcome in Hout.
  unfold run_for_model, bind, lift, ret.
  destruct (open_stage_tasks "baseline_test" 0 st) as (s1 & -> & T1).
  assert (Hat0 : exists task,
            tasks s1 !! ("task_" +:+ uuid 0%nat) = Some task /\
            title task = "baseline_test" +:+ ":" +:+ mid /\
            status task = in_progress /\ lock_owner task = Some (agent mid) /\
            heartbeat_at task = Some (clock (3 * 0 + 1))).
  { eexists. split; [rewrite T1; apply lookup_insert_eq|done]. }
  destruct Hat0 as (task0 & Hat0).
  destruct (get_refusals connector _ _) as [br|e0].
  2:{ injection Hout as <-. exists s1, 0%nat, "baseline_test", task0. auto. }
  destruct (test connector _ "baseline") as [bb|e0].
  2:{ injection Hout as <-. exists s1, 0%nat, "baseline_test", task0. auto. }
  destruct (close_stage_tasks "baseline_test" 0 s1) as (s2 & -> & T2);
    [rewrite T1; apply lookup_insert_eq|].
  destruct (open_stage_tasks "abliteration" 1 s2) as (s3 & -> & T3).
  destruct (close_stage_tasks "abliteration" 1 s3) as (s4 & -> & T4);
    [rewrite T3; apply lookup_insert_eq|].
  destruct (open_stage_tasks "validation_test" 2 s4) as (s5 & -> & T5).
  assert (Hat2 : exists task,
            tasks s5 !! ("task_" +:+ uuid 2%nat) = Some task /\
            title task = "validation_test" +:+ ":" +:+ mid /\
            status task = in_progress /\ lock_owner task = Some (agent mid) /\
            heartbeat_at task = Some (clock (3 * 2 + 1))).
  { eexists. split; [rewrite T5; apply lookup_insert_eq|done]. }
  destruct Hat2 as (task2 & Hat2).
  cbn [apply_abliteration _abliterated get_refusals test].
  destruct (get_refusals connector true _) as [vr|e0].
  2:{ injection Hout as <-. exists s5, 2%nat, "validation_test", task2. auto. }
  destruct (test connector true "validation") as [vb|e0]; [done|].
  injection Hout as <-. exists s5, 2%nat, "validation_test", task2. auto.
Qed.

End RunFacts.

(** *** The loops of [run_batch] *)

Lemma submit_loop reg recs : forall futs h,
  (forall kv, kv ∈ recs -> kv ∈ _records reg) ->
  registry_keyed reg h ->
  exists h',
    fold_left (submit_one reg) recs.*2 (futs, h, None)
      = (futs ++ submitted reg recs, h', None) /\
    registry_keyed reg h'.
Proof.
  induction recs as [|[k l] recs IH]; intros futs h Hsub Hk.
  - exists h. simpl. by rewrite app_nil_r.
  - assert (Hin : (k, l) ∈ _records reg) by (apply Hsub, elem_of_cons; by left).
    assert (Hrest : forall kv, kv ∈ recs -> kv ∈ _records reg).
    { intros kv Hkv. apply Hsub, elem_of_cons. by right. }
    pose proof Hk as Hk0. unfold registry_keyed in Hk0. rewrite Forall_forall in Hk0.
    destruct (Hk0 _ Hin) as (r & Hr & Hid). simpl in Hr, Hid.
    csimpl. rewrite Hr, Hid.
    destruct (get_connector reg k) as [c|] eqn:Hc.
    + destruct (update_status_keyed reg h k "running" Hk (assoc_of_elem _ _ _ Hin))
        as (h' & -> & Hk').
      destruct (IH (futs ++ [(k, c)]) h' Hrest Hk') as (h'' & -> & Hk'').
      exists h''. by rewrite <- app_assoc.
    + destruct (IH futs h Hrest Hk) as (h'' & -> & Hk''). by exists h''.
Qed.

Lemma run_units orchestrator workflow uuid clock fs : forall acc st,
  exists st',
    fold_left (run_unit orchestrator workflow uuid clock) fs (acc, st)
      = (acc ++ map (fun f => (f.1, unit_outcome workflow f.1 (uuid f.1) f.2)) fs, st').
Proof.
  induction fs as [|f fs IH]; intros acc st.
  - exists st. simpl. by rewrite app_nil_r.
  - simpl.
    pose proof (run_for_model_outcome orchestrator workflow f.1 (uuid f.1)
                  (clock f.1) f.2 st) as Ho.
    destruct (run_for_model _ _ _ _ _ _ st) as [o st1]. simpl in Ho. subst o.
    destruct (IH (acc ++ [(f.1, unit_outcome workflow f.1 (uuid f.1) f.2)]) st1)
      as (st' & ->).
    exists st'. by rewrite <- app_assoc.
Qed.

Lemma collect_loop reg fin : forall res h,
  (forall x, x ∈ fin -> is_Some (assoc x.1 (_records reg))) ->
  registry_keyed reg h ->
  exists h',
    fold_left (collect_one reg) fin (res, h, None)
      = (res ++ map entry_of_outcome fin, h', None) /\
    registry_keyed reg h'.
Proof.
  induction fin as [|[mid o] fin IH]; intros res h Hkeys Hk.
  - exists h. simpl. by rewrite app_nil_r.
  - assert (Hmid : is_Some (assoc mid (_records reg))).
    { apply (Hkeys (mid, o)), elem_of_cons. by left. }
    assert (Hrest : forall x, x ∈ fin -> is_Some (assoc x.1 (_records reg))).
    { intros x Hx. apply Hkeys, elem_of_cons. by right. }
    simpl. destruct o as [r|exc].
    + destruct (update_status_keyed reg h mid "completed" Hk Hmid) as (h' & -> & Hk').
      destruct (IH (res ++ [Success r]) h' Hrest Hk') as (h'' & -> & Hk'').
      exists h''. by rewrite <- app_assoc.
    + destruct (update_status_keyed reg h mid "failed" Hk Hmid) as (h' & -> & Hk').
      destruct (IH (res ++ [Failure mid (exn_str exc)]) h' Hrest Hk')
        as (h'' & -> & Hk'').
      exists h''. by rewrite <- app_assoc.
Qed.

Lemma submitted_keys reg recs f :
  (forall kv, kv ∈ recs -> kv ∈ _records reg) ->
  f ∈ submitted reg recs -> is_Some (assoc f.1 (_records reg)).
Proof.
  intros Hsub Hf. unfold submitted in Hf. apply list_elem_of_omap in Hf
    as ([k l] & Hin & Heq). simpl in Heq.
  destruct (get_connector reg k); [|done]. injection Heq as <-.
  simpl. eapply assoc_of_elem. by apply Hsub.
Qed.

Lemma submitted_length reg recs :
  length (submitted reg recs)
  = length (filter (fun kv => is_Some (get_connector reg kv.1)) recs).
Proof.
  unfold submitted. induction recs as [|kv recs IH]; [done|].
  csimpl. rewrite filter_cons. destruct (get_connector reg kv.1) as [c|].
  - rewrite decide_True by eauto. simpl. by rewrite IH.
  - rewrite decide_False by (by intros [? ?]). done.
Qed.

Lemma items_of_list_models (reg : MultiModelRegistry (ModelConnector num)) (h : Heap) :
  items_of (list_models reg h).2 (list_models reg h).1 = (_records reg).*2.
Proof. unfold items_of, list_models. by rewrite alloc_new. Qed.

(** C10. For a registry without entries [run_batch] returns
    [{"models": [], "summary": {}}]: the summary has none of the fields of
    the full report (and the dictionary has no key [registry]), and neither
    the batch results file nor the task store is written. *)
Theorem empty_registry_empty_report orchestrator reg workflow max_workers
    as_completed uuid clock w :
  _records reg = [] ->
  (run_batch orchestrator reg workflow max_workers as_completed uuid clock w).1
    = Ok {| summary := None; models := []; registry := None |} /\
  batch_results_file
    (run_batch orchestrator reg workflow max_workers as_completed uuid clock w).2
    = batch_results_file w /\
  store (run_batch orchestrator reg workflow max_workers as_completed uuid clock w).2
    = store w.
Proof.
  intros Hempty. unfold run_batch. cbv zeta.
  rewrite items_of_list_models, Hempty. done.
Qed.

(** C3, amended. For a registry changed through its methods only, any
    pool size K >= 1 and any completion order, [run_batch] returns a report
    whose [models] list holds one entry per registry entry that has a
    connector attached (entries without a connector are skipped), in
    completion order: the unit's result if its workflow returned,
    [{model_id, error}] if it raised.  The entry of a unit is determined by
    the unit's own identifier, connector and uuids, so the list is the same
    up to order for every completion order, and a unit that raises changes
    no other unit's entry. *)
Theorem one_entry_per_connected_model orchestrator reg workflow K
    as_completed uuid clock w :
  registry_keyed reg (heap w) ->
  1 <= K ->
  (forall fs, as_completed fs ≡ₚ fs) ->
  exists report w',
    run_batch orchestrator reg workflow K as_completed uuid clock w = (Ok report, w') /\
    models report
      = map (entry_of (default default_workflow workflow) uuid)
            (as_completed (submitted reg (_records reg))) /\
    models report
      ≡ₚ map (entry_of (default default_workflow workflow) uuid)
             (submitted reg (_records reg)) /\
    length (models report)
      = length (filter (fun kv => is_Some (get_connector reg kv.1)) (_records reg)) /\
    (forall f, f ∈ submitted reg (_records reg) ->
       entry_of (default default_workflow workflow) uuid f ∈ models report).
Proof.
  intros Hk HK Hperm.
  set (wf := default default_workflow workflow).
  set (fs := submitted reg (_records reg)).
  assert (Hfacts : forall ms,
            ms = map (entry_of wf uuid) (as_completed fs) ->
            ms ≡ₚ map (entry_of wf uuid) fs /\
            length ms
              = length (filter (fun kv => is_Some (get_connector reg kv.1))
                               (_records reg)) /\
            (forall f, f ∈ fs -> entry_of wf uuid f ∈ ms)).
  { intros ms ->.
    assert (Hp : map (entry_of wf uuid) (as_completed fs) ≡ₚ map (entry_of wf uuid) fs)
      by (apply Permutation_map, Hperm).
    split; [done|]. split.
    - rewrite Hp, length_map. apply submitted_length.
    - intros f Hf. rewrite Hp. apply list_elem_of_fmap. eauto. }
  unfold run_batch. cbv zeta. fold wf.
  rewrite items_of_list_models.
  destruct ((_records reg).*2) as [|x l] eqn:Hl.
  - assert (Hnil : _records reg = []) by (by destruct (_records reg)).
    assert (Hfs : as_completed fs = []).
    { apply Permutation_nil_r. rewrite Hperm. unfold fs, submitted.
      by rewrite Hnil. }
    eexists _, _. split; [reflexivity|]. simpl.
    split; [by rewrite Hfs|]. apply Hfacts. by rewrite Hfs.
  - rewrite <- Hl. clear x l Hl.
    destruct (Z.leb_spec K 0) as [?|_]; [lia|].
    destruct (submit_loop reg (_records reg) [] (list_models reg (heap w)).2)
      as (h1 & -> & Hk1); [done|by apply alloc_keyed|].
    cbn [app]. fold fs.
    destruct (run_units orchestrator wf uuid clock (as_completed fs) [] (store w))
      as (st & ->).
    cbn [app].
    destruct (collect_loop reg
                (map (fun f => (f.1, unit_outcome wf f.1 (uuid f.1) f.2))
                     (as_completed fs)) [] h1) as (h2 & -> & Hk2); [|done|].
    { intros x [f [-> Hf]]%list_elem_of_fmap. simpl.
      apply (submitted_keys reg (_records reg)); [done|].
      fold fs. by rewrite <- (Hperm fs). }
    cbn [app]. eexists _, _. split; [reflexivity|]. cbn [models].
    assert (Heq : map entry_of_outcome
                    (map (fun f => (f.1, unit_outcome wf f.1 (uuid f.1) f.2))
                         (as_completed fs))
                  = map (entry_of wf uuid) (as_completed fs)) by apply map_map.
    rewrite Heq. split; [done|]. by apply Hfacts.
Qed.

(** *** The statuses and the summary of a batch *)

Lemma set_status_same (r : ModelRecord) : set_status r (abliteration_status r) = r.
Proof. by destruct r. Qed.

Lemma keyed_same_loc reg h k k' l :
  registry_keyed reg h -> (k, l) ∈ _records reg -> (k', l) ∈ _records reg -> k = k'.
Proof.
  intros Hk H1 H2. unfold registry_keyed in Hk. rewrite Forall_forall in Hk.
  destruct (Hk _ H1) as (r1 & Hr1 & Hid1), (Hk _ H2) as (r2 & Hr2 & Hid2).
  simpl in *. congruence.
Qed.

Lemma assoc_NoDup_elem {A} k (v : A) d : NoDup d.*1 -> (k, v) ∈ d -> assoc k d = Some v.
Proof.
  induction d as [|[k' v'] d IH]; intros Hnd Hin; [by apply elem_of_nil in Hin|].
  csimpl in Hnd. apply NoDup_cons in Hnd as [Hk' Hnd]. simpl.
  apply elem_of_cons in Hin as [[= -> ->]|Hin]; [by rewrite String.eqb_refl|].
  destruct (String.eqb_spec k' k) as [->|Hne]; [|by apply IH].
  exfalso. apply Hk'. apply list_elem_of_fmap. by exists (k, v).
Qed.

Lemma update_status_lookup reg h mid status k l r :
  registry_keyed reg h -> NoDup (_records reg).*1 ->
  (k, l) ∈ _records reg -> h !! l = Some (ORecord r) ->
  is_Some (assoc mid (_records reg)) ->
  (update_status reg h mid status).2 !! l
  = Some (ORecord (if decide (mid = k) then set_status r status else r)).
Proof.
  intros Hk Hnd Hin Hr [l' Hl']. unfold update_status. rewrite Hl'. cbn [snd].
  unfold mutate. destruct (decide (mid = k)) as [->|Hne].
  - rewrite (assoc_NoDup_elem _ _ _ Hnd Hin) in Hl'. injection Hl' as <-.
    by rewrite lookup_alter_eq, Hr.
  - rewrite lookup_alter_ne; [done|]. intros ->.
    apply Hne. eapply keyed_same_loc; [done|by apply assoc_elem|done].
Qed.

Lemma submit_loop_heap reg recs k l : forall futs h r,
  (forall kv, kv ∈ recs -> kv ∈ _records reg) ->
  registry_keyed reg h -> NoDup (_records reg).*1 ->
  (k, l) ∈ _records reg -> h !! l = Some (ORecord r) ->
  exists r',
    (fold_left (submit_one reg) recs.*2 (futs, h, None)).1.2 !! l = Some (ORecord r') /\
    (get_connector reg k = None -> r' = r) /\
    exists status, r' = set_status r status.
Proof.
  induction recs as [|[k0 l0] recs IH]; intros futs h r Hsub Hk Hnd Hin Hr.
  - exists r. split; [done|]. split; [done|].
    exists (abliteration_status r). by rewrite set_status_same.
  - assert (Hin0 : (k0, l0) ∈ _records reg) by (apply Hsub, elem_of_cons; by left).
    assert (Hrest : forall kv, kv ∈ recs -> kv ∈ _records reg).
    { intros kv Hkv. apply Hsub, elem_of_cons. by right. }
    pose proof Hk as Hk0. unfold registry_keyed in Hk0. rewrite Forall_forall in Hk0.
    destruct (Hk0 _ Hin0) as (r0 & Hr0 & Hid). simpl in Hr0, Hid.
    csimpl. rewrite Hr0, Hid.
    destruct (get_connector reg k0) as [c|] eqn:Hc; [|by apply IH].
    pose proof (update_status_lookup reg h k0 "running" k l r Hk Hnd Hin Hr
                  (assoc_of_elem _ _ _ Hin0)) as Hl.
    destruct (update_status_keyed reg h k0 "running" Hk (assoc_of_elem _ _ _ Hin0))
      as (h' & Heq & Hk').
    rewrite Heq in Hl |- *. cbn [snd] in Hl.
    destruct (IH (futs ++ [(k0, c)]) h' _ Hrest Hk' Hnd Hin Hl) as (r' & Hr' & Hnone & s & Hs).
    exists r'. split; [done|]. destruct (decide (k0 = k)) as [->|Hne].
    + split; [congruence|]. exists s. by rewrite Hs.
    + split; [done|]. by exists s.
Qed.

Lemma collect_loop_heap reg fin k l : forall res h r,
  (forall x, x ∈ fin -> is_Some (assoc x.1 (_records reg))) ->
  registry_keyed reg h -> NoDup (_records reg).*1 ->
  (k, l) ∈ _records reg -> h !! l = Some (ORecord r) ->
  (fold_left (collect_one reg) fin (res, h, None)).1.2 !! l
  = Some (ORecord (fold_left (fun r x => if decide (x.1 = k)
                                         then set_status r (verdict x.2) else r) fin r)).
Proof.
  induction fin as [|[mid o] fin IH]; intros res h r Hkeys Hk Hnd Hin Hr; [done|].
  assert (Hmid : is_Some (assoc mid (_records reg))).
  { apply (Hkeys (mid, o)), elem_of_cons. by left. }
  assert (Hrest : forall x, x ∈ fin -> is_Some (assoc x.1 (_records reg))).
  { intros x Hx. apply Hkeys, elem_of_cons. by right. }
  pose proof (update_status_lookup reg h mid (verdict o) k l r Hk Hnd Hin Hr Hmid) as Hl.
  destruct (update_status_keyed reg h mid (verdict o) Hk Hmid) as (h' & Heq & Hk').
  rewrite Heq in Hl. cbn [snd] in Hl.
  simpl. destruct o as [wr|exc]; cbn [verdict] in Heq; rewrite Heq; by apply IH.
Qed.

Lemma fold_verdict_absorb (fin : list (string * result (@WorkflowResult num))) k v :
  (forall x, x ∈ fin -> x.1 = k -> verdict x.2 = v) ->
  forall r : ModelRecord,
    fold_left (fun r x => if decide (x.1 = k) then set_status r (verdict x.2) else r)
      fin (set_status r v) = set_status r v.
Proof.
  induction fin as [|x fin IH]; intros Hv r; [done|]. simpl.
  assert (Hrest : forall y, y ∈ fin -> y.1 = k -> verdict y.2 = v).
  { intros y Hy. apply Hv, elem_of_cons. by right. }
  destruct (decide (x.1 = k)) as [Hx|Hx]; [|by apply IH].
  rewrite (Hv x) by (done || apply elem_of_cons; by left).
  change (set_status (set_status r v) v) with (set_status r v). by apply IH.
Qed.

Lemma fold_verdict_hit (fin : list (string * result (@WorkflowResult num))) k v :
  (forall x, x ∈ fin -> x.1 = k -> verdict x.2 = v) ->
  (exists x, x ∈ fin /\ x.1 = k) ->
  forall r : ModelRecord,
    fold_left (fun r x => if decide (x.1 = k) then set_status r (verdict x.2) else r)
      fin r = set_status r v.
Proof.
  induction fin as [|x fin IH]; intros Hv (y & Hy & Hyk) r;
    [by apply elem_of_nil in Hy|]. simpl.
  assert (Hrest : forall z, z ∈ fin -> z.1 = k -> verdict z.2 = v).
  { intros z Hz. apply Hv, elem_of_cons. by right. }
  destruct (decide (x.1 = k)) as [Hx|Hx].
  - rewrite (Hv x) by (done || apply elem_of_cons; by left).
    by apply fold_verdict_absorb.
  - apply IH; [done|]. exists y. split; [|done].
    apply elem_of_cons in Hy as [->|Hy]; done.
Qed.

Lemma fold_verdict_miss (fin : list (string * result (@WorkflowResult num))) k :
  (forall x, x ∈ fin -> x.1 <> k) ->
  forall r : ModelRecord,
    fold_left (fun r x => if decide (x.1 = k) then set_status r (verdict x.2) else r)
      fin r = r.
Proof.
  induction fin as [|x fin IH]; intros Hv r; [done|]. simpl.
  rewrite decide_False by (apply Hv, elem_of_cons; by left).
  apply IH. intros y Hy. apply Hv, elem_of_cons. by right.
Qed.

Lemma submitted_elem reg recs f :
  f ∈ submitted reg recs <->
  (exists l, (f.1, l) ∈ recs) /\ get_connector reg f.1 = Some f.2.
Proof.
  unfold submitted. rewrite list_elem_of_omap. split.
  - intros ([k l] & Hin & Heq). simpl in Heq.
    destruct (get_connector reg k) as [c|] eqn:Hc; [|done].
    injection Heq as <-. simpl. eauto.
  - intros ([l Hin] & Hc). exists (f.1, l). split; [done|].
    simpl. rewrite Hc. by destruct f.
Qed.

Lemma snapshot_records (h2 hx : Heap) (recs : list (string * loc)) dicts lx :
  hx !! lx = Some (OList dicts) ->
  Forall2 (fun kv d => exists r, h2 !! kv.2 = Some (ORecord r) /\
                                 hx !! d = Some (ODict r)) recs dicts ->
  snapshot_of hx lx = omap (fun kv => record_of h2 kv.2) recs.
Proof.
  intros Hl Hf. unfold snapshot_of, items_of. rewrite Hl. clear Hl.
  induction Hf as [|kv d recs dicts (r & Hr & Hd) Hf IH]; [done|].
  csimpl. unfold record_of at 1. rewrite Hd, Hr. f_equal. by apply IH.
Qed.

(** The shape of a run over a registry that is not empty. *)
Lemma run_batch_shape orchestrator reg workflow K as_completed uuid clock w :
  registry_keyed reg (heap w) -> _records reg <> [] -> 1 <= K ->
  (forall fs, as_completed fs ≡ₚ fs) ->
  let wf := default default_workflow workflow in
  let fs := submitted reg (_records reg) in
  let fin := map (fun f => (f.1, unit_outcome wf f.1 (uuid f.1) f.2)) (as_completed fs) in
  exists h1 h2 st,
    fold_left (submit_one reg) (_records reg).*2 ([], (list_models reg (heap w)).2, None)
      = (fs, h1, None) /\
    registry_keyed reg h1 /\
    fold_left (collect_one reg) fin ([], h1, None) = (map entry_of_outcome fin, h2, None) /\
    registry_keyed reg h2 /\
    (forall x, x ∈ fin -> is_Some (assoc x.1 (_records reg))) /\
    run_batch orchestrator reg workflow K as_completed uuid clock w
    = (Ok {| summary := Some (summarize (length (_records reg))
                                (map entry_of_outcome fin));
             models := map entry_of_outcome fin;
             registry := Some (snapshot_of (export_records reg h2).2
                                           (export_records reg h2).1) |},
       {| heap := (export_records reg h2).2; store := st;
          batch_results_file :=
            Some {| summary := Some (summarize (length (_records reg))
                                       (map entry_of_outcome fin));
                    models := map entry_of_outcome fin;
                    registry := Some (snapshot_of (export_records reg h2).2
                                                  (export_records reg h2).1) |} |}).
Proof.
  intros Hk Hne HK Hperm wf fs fin.
  unfold run_batch. cbv zeta. fold wf. rewrite items_of_list_models.
  destruct ((_records reg).*2) as [|x l] eqn:Hl.
  { by destruct (_records reg). }
  rewrite <- Hl. clear x l Hl.
  destruct (Z.leb_spec K 0) as [?|_]; [lia|].
  destruct (submit_loop reg (_records reg) [] (list_models reg (heap w)).2)
    as (h1 & Hsub & Hk1); [done|by apply alloc_keyed|].
  rewrite Hsub. cbn [app]. fold fs.
  destruct (run_units orchestrator wf uuid clock (as_completed fs) [] (store w))
    as (st & ->).
  cbn [app]. fold fin.
  assert (Hkeys : forall x, x ∈ fin -> is_Some (assoc x.1 (_records reg))).
  { intros x [f [-> Hf]]%list_elem_of_fmap. simpl.
    apply (submitted_keys reg (_records reg)); [done|].
    fold fs. by rewrite <- (Hperm fs). }
  destruct (collect_loop reg fin [] h1) as (h2 & Hcol & Hk2); [done..|].
  rewrite Hcol. cbn [app]. rewrite length_fmap.
  exists h1, h2, st. done.
Qed.

(** X22.  After a batch over a registry that is not empty, the record of
    every model that has a connector carries the status [completed] if its
    workflow returned and [failed] if it raised, whatever the completion
    order; the record of a model without a connector keeps its status; no
    other field of a record changes.  The [registry] section of the report
    lists the records with these statuses, in registry order, and the batch
    results file holds the report that is returned. *)
Theorem statuses_after_batch orchestrator reg workflow K as_completed uuid clock w :
  registry_keyed reg (heap w) -> NoDup (_records reg).*1 -> _records reg <> [] ->
  1 <= K -> (forall fs, as_completed fs ≡ₚ fs) ->
  exists report w',
    run_batch orchestrator reg workflow K as_completed uuid clock w = (Ok report, w') /\
    batch_results_file w' = Some report /\
    (forall kv, kv ∈ _records reg ->
       is_Some (record_of (heap w) kv.2) /\
       record_of (heap w') kv.2
       = settled (default default_workflow workflow) uuid reg (heap w) kv) /\
    registry report
    = Some (omap (settled (default default_workflow workflow) uuid reg (heap w))
                 (_records reg)) /\
    length (default [] (registry report)) = length (_records reg).
Proof.
  intros Hk Hnd Hne HK Hperm.
  destruct (run_batch_shape orchestrator reg workflow K as_completed uuid clock w
              Hk Hne HK Hperm) as (h1 & h2 & st & Hsub & Hk1 & Hcol & Hk2 & Hkeys & ->).
  set (wf := default default_workflow workflow) in *.
  set (fs := submitted reg (_records reg)) in *.
  set (fin := map (fun f => (f.1, unit_outcome wf f.1 (uuid f.1) f.2)) (as_completed fs))
    in *.
  destruct (export_records_spec reg h2 (registry_keyed_wf _ _ Hk2))
    as (dicts & Hlist & Hdicts & Hold & _).
  assert (Hfinal : forall kv, kv ∈ _records reg ->
            is_Some (record_of (heap w) kv.2) /\
            record_of h2 kv.2 = settled wf uuid reg (heap w) kv).
  { intros [k l] Hin. pose proof Hk as Hk0. unfold registry_keyed in Hk0.
    rewrite Forall_forall in Hk0. destruct (Hk0 _ Hin) as (r & Hr & _). clear Hk0.
    cbn [fst snd] in *. unfold settled, record_of at 1 3. cbn [fst snd]. rewrite Hr.
    split; [eauto|]. cbn [fmap option_fmap option_map].
    assert (Hr0 : (list_models reg (heap w)).2 !! l = Some (ORecord r)).
    { unfold list_models. rewrite alloc_old; [done|]. apply elem_of_dom; eauto. }
    destruct (submit_loop_heap reg (_records reg) k l [] (list_models reg (heap w)).2 r
                ltac:(done) (alloc_keyed _ _ _ Hk) Hnd Hin Hr0)
      as (r1 & Hr1 & Hnone & s & Hs).
    rewrite Hsub in Hr1. cbn [fst snd] in Hr1.
    pose proof (collect_loop_heap reg fin k l [] h1 r1 Hkeys Hk1 Hnd Hin Hr1) as Hr2.
    rewrite Hcol in Hr2. cbn [fst snd] in Hr2. unfold record_of. rewrite Hr2.
    f_equal. unfold final_status.
    destruct (get_connector reg k) as [c|] eqn:Hc.
    - rewrite (fold_verdict_hit fin k (verdict (unit_outcome wf k (uuid k) c))).
      + by rewrite Hs.
      + intros x [f [-> Hf]]%list_elem_of_fmap Hx. simpl in Hx. subst k. simpl.
        rewrite (Hperm fs) in Hf. apply submitted_elem in Hf as [_ Hf].
        rewrite Hc in Hf. by injection Hf as ->.
      + exists (k, unit_outcome wf k (uuid k) c). split; [|done].
        apply list_elem_of_fmap. exists (k, c). split; [done|].
        rewrite (Hperm fs). apply submitted_elem. simpl. eauto.
    - rewrite fold_verdict_miss.
      + rewrite (Hnone eq_refl). by rewrite set_status_same.
      + intros x [f [-> Hf]]%list_elem_of_fmap Hx. simpl in Hx. subst k.
        rewrite (Hperm fs) in Hf. apply submitted_elem in Hf as [_ Hf]. congruence. }
  assert (Hreg : snapshot_of (export_records reg h2).2 (export_records reg h2).1
                 = omap (settled wf uuid reg (heap w)) (_records reg)).
  { rewrite (snapshot_records h2 _ _ _ _ Hlist Hdicts).
    clear -Hfinal. induction (_records reg) as [|kv recs IH]; [done|].
    csimpl. rewrite (proj2 (Hfinal kv ltac:(apply elem_of_cons; by left))).
    rewrite IH; [done|]. intros kv' Hin. apply Hfinal, elem_of_cons. by right. }
  eexists _, _. split; [reflexivity|]. cbn [batch_results_file heap registry].
  split; [done|]. split; [|split].
  - intros kv Hin. destruct (Hfinal kv Hin) as [Hsome <-]. split; [done|].
    unfold record_of. rewrite Hold; [done|].
    apply (record_alive reg); [by apply registry_keyed_wf|done].
  - by rewrite Hreg.
  - rewrite Hreg. cbn [default from_option id].
    clear -Hfinal. induction (_records reg) as [|kv recs IH]; [done|].
    csimpl.
    destruct (Hfinal kv ltac:(apply elem_of_cons; by left)) as [[r Hsome] _].
    unfold settled at 1. rewrite Hsome. simpl. f_equal.
    apply IH. intros kv' Hin. apply Hfinal, elem_of_cons. by right.
Qed.

(** X23.  The counts of the summary of such a batch: [total_models] counts
    the registry entries, [processed_models] the entries that have a
    connector, [successful_models] those of them whose workflow returned;
    so successful <= processed <= total, and the counts do not depend on
    the completion order. *)
Theorem summary_counts orchestrator reg workflow K as_completed uuid clock w :
  registry_keyed reg (heap w) -> _records reg <> [] ->
  1 <= K -> (forall fs, as_completed fs ≡ₚ fs) ->
  exists report w' s,
    run_batch orchestrator reg workflow K as_completed uuid clock w = (Ok report, w') /\
    summary report = Some s /\
    total_models s = length (_records reg) /\
    processed_models s
    = length (filter (fun kv => is_Some (get_connector reg kv.1)) (_records reg)) /\
    processed_models s = length (models report) /\
    successful_models s
    = length (filter (fun f => is_ok (unit_outcome (default default_workflow workflow)
                                        f.1 (uuid f.1) f.2) = true)
                     (submitted reg (_records reg))) /\
    (successful_models s <= processed_models s <= total_models s)%nat.
Proof.
  intros Hk Hne HK Hperm.
  destruct (run_batch_shape orchestrator reg workflow K as_completed uuid clock w
              Hk Hne HK Hperm) as (h1 & h2 & st & _ & _ & _ & _ & _ & ->).
  set (wf := default default_workflow workflow) in *.
  set (fs := submitted reg (_records reg)) in *.
  set (fin := map (fun f => (f.1, unit_outcome wf f.1 (uuid f.1) f.2)) (as_completed fs)).
  eexists _, _, _. split; [reflexivity|]. split; [reflexivity|].
  cbn [total_models processed_models successful_models summarize models].
  assert (Hproc : length (map entry_of_outcome fin)
                  = length (filter (fun kv => is_Some (get_connector reg kv.1))
                                   (_records reg))).
  { unfold fin. rewrite !length_map, (Hperm fs). apply submitted_length. }
  assert (Hsucc : length (filter (fun e => is_success e = true) (map entry_of_outcome fin))
                  = length (filter (fun f => is_ok (unit_outcome wf f.1 (uuid f.1) f.2)
                                             = true) fs)).
  { transitivity (length (filter (fun f => is_ok (unit_outcome wf f.1 (uuid f.1) f.2)
                                           = true) (as_completed fs)));
      [|by rewrite (Hperm fs)].
    unfold fin. clear.
    induction (as_completed fs) as [|f l IH]; [done|].
    csimpl. rewrite !filter_cons. unfold entry_of_outcome at 1. cbn [fst snd].
    destruct (unit_outcome wf f.1 (uuid f.1) f.2) as [r|e]; cbn [is_success is_ok].
    - rewrite !decide_True by done. simpl. by rewrite IH.
    - rewrite !decide_False by done. done. }
  split; [done|]. split; [done|]. split; [done|]. split; [done|].
  rewrite Hsucc, Hproc. split.
  - rewrite <- submitted_length. apply length_filter.
  - apply length_filter.
Qed.

(** *** Objects the batch does not write *)

Lemma submit_loop_frame reg x recs :
  (forall kv, kv ∈ _records reg -> kv.2 <> x) ->
  forall acc, (fold_left (submit_one reg) recs acc).1.2 !! x = acc.1.2 !! x.
Proof.
  intros Hx. induction recs as [|l recs IH]; intros acc; [done|].
  simpl. rewrite IH. destruct acc as [[futs h] raised]. unfold submit_one.
  destruct raised; [done|].
  destruct (h !! l) as [[r| |]|]; try done.
  destruct (get_connector reg (model_id r)); [|done].
  pose proof (update_status_frame reg h (model_id r) "running" x Hx) as Hf.
  by destruct (update_status reg h (model_id r) "running") as [[u|e] h'].
Qed.

Lemma collect_loop_frame reg x fin :
  (forall kv, kv ∈ _records reg -> kv.2 <> x) ->
  forall acc, (fold_left (collect_one reg) fin acc).1.2 !! x = acc.1.2 !! x.
Proof.
  intros Hx. induction fin as [|[mid o] fin IH]; intros acc; [done|].
  simpl. rewrite IH. destruct acc as [[res h] raised]. unfold collect_one.
  destruct raised; [done|]. destruct o as [r|exc].
  - pose proof (update_status_frame reg h mid "completed" x Hx) as Hf.
    destruct (update_status reg h mid "completed") as [[u|e] h']; [done|].
    pose proof (update_status_frame reg h' mid "failed" x Hx) as Hf'.
    cbn [fst snd] in Hf |- *. rewrite <- Hf.
    by destruct (update_status reg h' mid "failed") as [[u|e'] h''].
  - pose proof (update_status_frame reg h mid "failed" x Hx) as Hf.
    by destruct (update_status reg h mid "failed") as [[u|e] h'].
Qed.

Lemma lookup_dom_agree (h h' : Heap) x : h' !! x = h !! x -> x ∈ dom h -> x ∈ dom h'.
Proof. intros Heq Hd. apply elem_of_dom. rewrite Heq. by apply elem_of_dom. Qed.

Lemma run_batch_frame orchestrator reg workflow K as_completed uuid clock w x :
  x ∈ dom (heap w) -> (forall kv, kv ∈ _records reg -> kv.2 <> x) ->
  heap (run_batch orchestrator reg workflow K as_completed uuid clock w).2 !! x
  = heap w !! x.
Proof.
  intros Hd Hx. unfold run_batch. cbv zeta.
  assert (H0 : (list_models reg (heap w)).2 !! x = heap w !! x) by (by apply alloc_old).
  destruct (items_of _ _) as [|l0 ls]; [done|].
  destruct (K <=? 0); [done|].
  pose proof (submit_loop_frame reg x (l0 :: ls) Hx ([], (list_models reg (heap w)).2, None))
    as H1.
  destruct (fold_left (submit_one reg) _ _) as [[futs h1] raised1].
  cbn [fst snd] in H1. rewrite H0 in H1.
  destruct (fold_left (run_unit _ _ _ _) _ _) as [fin st].
  destruct raised1; [done|].
  pose proof (collect_loop_frame reg x fin Hx ([], h1, None)) as H2.
  destruct (fold_left (collect_one reg) _ _) as [[res h2] raised2].
  cbn [fst snd] in H2. rewrite H1 in H2.
  destruct raised2; [done|]. cbn [heap snd].
  unfold export_records.
  destruct (alloc_all_spec (concat (map (asdict h2) (_records reg).*2)) h2)
    as (_ & I2 & I3 & _).
  assert (Hd2 : x ∈ dom h2) by (by apply (lookup_dom_agree (heap w))).
  rewrite alloc_old by auto. by rewrite I2.
Qed.

End WorkflowFacts.

(** Scenario C of the specification: of three units one raises in
    mid-workflow; the report has two results and one error entry, and the
    averages are taken over the two results. *)
Example scenario_C :
  let run := run_batch demo three_models.1 None 10 reverse demo_uuid demo_clock
               (world_on three_models.2) in
  let result_of m :=
    {| wr_model_id := m;
       refusal_rates := {| before := 610; after := 120; delta := 490 |};
       benchmark_scores := {| before := 520; after := 780; delta := 260 |};
       personality_shifts := {| before := 880; after := 880; delta := 0 |};
       task_ids := ["task_" +:+ m +:+ "0"; "task_" +:+ m +:+ "1";
                    "task_" +:+ m +:+ "2"; "task_" +:+ m +:+ "3"] |} in
  (models <$> run.1,
   summary <$> run.1,
   (fun r => abliteration_status <$> default [] (registry r)) <$> run.1)
  = (Ok [Success (result_of "c"); Failure "b" "backend unavailable";
         Success (result_of "a")],
     Ok (Some {| total_models := 3; processed_models := 3; successful_models := 2;
                 avg_refusal_reduction := 490; avg_benchmark_gain := 260 |}),
     Ok ["completed"; "failed"; "completed"]) /\
  Some <$> run.1 = Ok (batch_results_file run.2).
Proof. split; vm_compute; reflexivity. Qed.

Lemma empty_registry_empty_report_witness :
  (run_batch demo (new_registry 8) None 10 reverse demo_uuid demo_clock (world_on ∅)).1
    = Ok {| summary := None; models := []; registry := None |} /\
  batch_results_file
    (run_batch demo (new_registry 8) None 10 reverse demo_uuid demo_clock (world_on ∅)).2
    = None.
Proof.
  destruct (empty_registry_empty_report demo (new_registry 8) None 10 reverse
              demo_uuid demo_clock (world_on ∅)) as (Hr & Hf & _).
  - reflexivity.
  - split; [exact Hr|exact Hf].
Defined.

Lemma one_entry_per_connected_model_witness :
  exists report w',
    run_batch demo three_models.1 None 10 reverse demo_uuid demo_clock
      (world_on three_models.2) = (Ok report, w') /\
    length (models report) = 3%nat.
Proof.
  destruct (one_entry_per_connected_model demo three_models.1 None 10 reverse
              demo_uuid demo_clock (world_on three_models.2))
    as (report & w' & Hrun & _ & _ & Hlen & _).
  - repeat constructor; eexists; split; vm_compute; reflexivity.
  - lia.
  - intros fs. apply reverse_Permutation.
  - exists report, w'. split; [exact Hrun|]. rewrite Hlen. vm_compute. reflexivity.
Defined.

Lemma run_for_model_tasks_witness :
  exists r st' task,
    run_for_model demo default_workflow "a" (demo_uuid "a") (demo_clock "a") exo
      empty_store = (Ok r, st') /\
    tasks st' !! "task_a3" = Some task /\ status task = completed.
Proof.
  destruct (run_for_model_tasks demo default_workflow "a" (demo_uuid "a") (demo_clock "a")
              exo empty_store _ eq_refl) as (st' & Hrun & Hstages & _).
  - apply (bool_decide_unpack _). vm_compute. exact I.
  - destruct (Hstages 3%nat "comparison" eq_refl) as (task & Hl & _ & _ & Hif).
    eexists _, st', task. split; [exact Hrun|]. split; [exact Hl|].
    vm_compute in Hif. by destruct Hif.
Defined.

Lemma raising_probe_leaves_task_claimed_witness :
  exists st' k task,
    run_for_model demo default_workflow "b" (demo_uuid "b") (demo_clock "b") breaking
      empty_store = (Raise (RuntimeError "backend unavailable"), st') /\
    tasks st' !! ("task_" +:+ demo_uuid "b" k) = Some task /\
    status task = in_progress.
Proof.
  destruct (raising_probe_leaves_task_claimed demo default_workflow "b" (demo_uuid "b")
              (demo_clock "b") breaking empty_store (RuntimeError "backend unavailable")
              eq_refl) as (st' & k & stage & task & Hrun & _ & _ & Hl & _ & Hs & _).
  exists st', k, task. split; [exact Hrun|]. split; [exact Hl|exact Hs].
Defined.

Lemma statuses_after_batch_witness :
  exists report w',
    run_batch demo three_models.1 None 10 reverse demo_uuid demo_clock
      (world_on three_models.2) = (Ok report, w') /\
    abliteration_status <$> default [] (registry report)
    = ["completed"; "failed"; "completed"].
Proof.
  destruct (statuses_after_batch demo three_models.1 None 10 reverse demo_uuid demo_clock
              (world_on three_models.2)) as (report & w' & Hrun & _ & _ & Hreg & _).
  - repeat constructor; eexists; split; vm_compute; reflexivity.
  - apply (bool_decide_unpack _). vm_compute. exact I.
  - vm_compute. discriminate.
  - lia.
  - intros fs. apply reverse_Permutation.
  - exists report, w'. split; [exact Hrun|]. rewrite Hreg. vm_compute. reflexivity.
Defined.

Lemma summary_counts_witness :
  exists report w' s,
    run_batch demo three_models.1 None 10 reverse demo_uuid demo_clock
      (world_on three_models.2) = (Ok report, w') /\
    summary report = Some s /\
    (total_models s, processed_models s, successful_models s) = (3, 3, 2)%nat.
Proof.
  destruct (summary_counts demo three_models.1 None 10 reverse demo_uuid demo_clock
              (world_on three_models.2))
    as (report & w' & s & Hrun & Hsum & Ht & Hp & _ & Hs & _).
  - repeat constructor; eexists; split; vm_compute; reflexivity.
  - vm_compute. discriminate.
  - lia.
  - intros fs. apply reverse_Permutation.
  - exists report, w', s. split; [exact Hrun|]. split; [exact Hsum|].
    rewrite Ht, Hp, Hs. vm_compute. reflexivity.
Defined.

(** C3 as stated fails: the registry below has one entry, which has no
    connector; [run_batch] skips it, and the report lists no entry for it
    while counting it in [total_models]. *)
Lemma model_without_connector_has_no_entry :
  length (_records no_connector.1) = 1%nat /\
  1 <= 10 /\
  (run_batch demo no_connector.1 None 10 reverse demo_uuid demo_clock
     (world_on no_connector.2)).1
    = Ok {| summary := Some {| total_models := 1; processed_models := 0;
                               successful_models := 0;
                               avg_refusal_reduction := 0;
                               avg_benchmark_gain := 0 |};
            models := [];
            registry := Some [ {| model_id := "m1"; source := "exo";
                                  model_type := "llm"; capabilities := [];
                                  abliteration_status := "pending";
                                  endpoint := None; metadata := [] |} ] |}.
Proof. split; [|split]; vm_compute; reflexivity || discriminate. Qed.

End Batch.

(* ===================================================================== *)
(** ** control_center.py *)
(* ===================================================================== *)

Module ControlCenter.
Import Orchestrator Registry Batch.

Section Experiment.
Context {num : Type} `{FloatOps num}.

(** What [run_abliteration_experiment] acts on: the world of [run_batch]
    and the file [experiment_<timestamp>.json] of the call ([None]: not
    written). *)
Record LabWorld := {
  batch : BatchWorld num;
  experiment_file : option (@Report num)
}.

(** The orchestrator the method builds: a stale timeout of 300 seconds, no
    event hook.  [second] is the number of clock ticks in a second. *)
Definition experiment_orchestrator (second : Z) : AgentOrchestrator :=
  {| stale_after := 300 * second; event_hook := None |}.

(** One turn of the loop that fills the temporary registry. *)
Definition copy_model (center : MultiModelRegistry (ModelConnector num))
    (acc : result (MultiModelRegistry (ModelConnector num)) * Heap) (mid : string)
    : result (MultiModelRegistry (ModelConnector num)) * Heap :=
  match acc.1 with
  | Raise _ => acc
  | Ok temp =>
      match get_model center mid, get_connector center mid with
      | Some l, Some connector =>
          match acc.2 !! l with
          | Some (ORecord model) =>
              let r := register_model temp acc.2 mid (source model) (model_type model)
                         (Some (capabilities model)) "pending" None None
                         (Some connector) in
              (match r.1.1 with
               | Ok _ => Ok r.1.2
               | Raise e => Raise e
               end, r.2)
          | _ => (Raise (Exception "AttributeError: source"), acc.2)
          end
      | _, _ => acc
      end
  end.

(** The registry handed to [run_batch]: a temporary one when [model_ids] is
    a list that is not empty, the control center's own otherwise. *)
Definition experiment_registry (center : MultiModelRegistry (ModelConnector num))
    (model_ids : option (list string)) (h : Heap)
    : result (MultiModelRegistry (ModelConnector num)) * Heap :=
  match model_ids with
  | Some (mid :: ids) =>
      fold_left (copy_model center) (mid :: ids)
                (Ok (new_registry (length (mid :: ids))), h)
  | _ => (Ok center, h)
  end.

(** The lines printed after the batch read
    [report['summary']['successful_models']] first. *)
Definition read_summary (report : @Report num) : result unit :=
  match summary report with
  | Some _ => Ok ()
  | None => Raise (KeyError "successful_models")
  end.

(** [run_abliteration_experiment]; what it prints is left out. *)
Definition run_abliteration_experiment (second : Z)
    (center : MultiModelRegistry (ModelConnector num))
    (model_ids : option (list string))
    (as_completed : list Future -> list Future)
    (uuid : string -> nat -> string) (clock : string -> nat -> Z)
    (w : LabWorld) : result Report * LabWorld :=
  let orchestrator := experiment_orchestrator second in
  match experiment_registry center model_ids (heap (batch w)) with
  | (Raise e, h) =>
      (Raise e,
       {| batch := {| heap := h; store := store (batch w);
                      batch_results_file := batch_results_file (batch w) |};
          experiment_file := experiment_file w |})
  | (Ok registry, h) =>
      match run_batch orchestrator registry (Some default_workflow) 10 as_completed
              uuid clock
              {| heap := h; store := store (batch w);
                 batch_results_file := batch_results_file (batch w) |} with
      | (Raise e, b) => (Raise e, {| batch := b; experiment_file := experiment_file w |})
      | (Ok report, b) =>
          match read_summary report with
          | Raise e => (Raise e, {| batch := b; experiment_file := experiment_file w |})
          | Ok _ => (Ok report, {| batch := b; experiment_file := Some report |})
          end
      end
  end.

End Experiment.
Arguments LabWorld : clear implicits.

#[local] Existing Instance thousandths.

(** A control center before any experiment, over the objects of [h]. *)
Definition lab_on (h : Heap) : LabWorld Z :=
  {| batch := world_on h; experiment_file := None |}.

Section ExperimentFacts.
Context {num : Type} `{FloatOps num}.
Implicit Types (center temp : MultiModelRegistry (ModelConnector num)) (h : Heap).

Lemma assoc_set_elem {A} k (v : A) d kv :
  kv ∈ assoc_set k v d -> kv = (k, v) \/ kv ∈ d.
Proof.
  induction d as [|[k' v'] d IH]; simpl.
  - intros ->%list_elem_of_singleton. by left.
  - destruct (String.eqb k' k).
    + intros [->|Hin]%elem_of_cons; [by left|]. right. apply elem_of_cons. by right.
    + intros [->|Hin]%elem_of_cons; [right; apply elem_of_cons; by left|].
      destruct (IH Hin) as [->|Hd]; [by left|]. right. apply elem_of_cons. by right.
Qed.

Lemma register_model_cases temp h mid src mtype caps status ep meta connector :
  (exists e, register_model temp h mid src mtype caps status ep meta connector
             = (Raise e, temp, h)) \/
  (exists o temp',
     register_model temp h mid src mtype caps status ep meta connector
     = (Ok (alloc o h).1, temp', (alloc o h).2) /\
     _records temp' = assoc_set mid (alloc o h).1 (_records temp)).
Proof.
  unfold register_model. destruct (bool_decide _); [left; eauto|].
  destruct (max_models temp <=? length (_records temp))%nat; [left; eauto|].
  right. eexists _, _. split; [reflexivity|done].
Qed.

Lemma copy_loop_raise center ids e h :
  fold_left (copy_model center) ids (Raise e, h) = (Raise e, h).
Proof. induction ids as [|mid ids IH]; [done|]. simpl. exact IH. Qed.

Lemma copy_loop center ids : forall temp h,
  (forall x, x ∈ dom h ->
     (fold_left (copy_model center) ids (Ok temp, h)).2 !! x = h !! x) /\
  (forall temp', (fold_left (copy_model center) ids (Ok temp, h)).1 = Ok temp' ->
     forall kv, kv ∈ _records temp' -> kv ∈ _records temp \/ kv.2 ∉ dom h).
Proof.
  induction ids as [|mid ids IH]; intros temp h.
  - simpl. split; [done|]. intros temp' [= <-] kv Hkv. by left.
  - simpl. unfold copy_model at 2 4. cbn [fst snd].
    destruct (get_model center mid) as [l|]; [|apply IH].
    destruct (get_connector center mid) as [c|]; [|apply IH].
    destruct (h !! l) as [[model| |]|];
      try (rewrite copy_loop_raise; split; [done|by intros temp' [=]]).
    cbv zeta.
    destruct (register_model_cases temp h mid (source model) (model_type model)
                (Some (capabilities model)) "pending" None None (Some c))
      as [[e ->]|(o & temp1 & -> & Hrec)]; cbn [fst snd].
    + rewrite copy_loop_raise. split; [done|by intros temp' [=]].
    + destruct (IH temp1 (alloc o h).2) as [I1 I2]. split.
      * intros x Hx. rewrite I1 by (by apply alloc_dom). by apply alloc_old.
      * intros temp' Ht kv Hkv. destruct (I2 temp' Ht kv Hkv) as [Hin|Hnew].
        -- rewrite Hrec in Hin. apply assoc_set_elem in Hin as [->|Hin]; [|by left].
           right. apply alloc_fresh.
        -- right. intros Hd. by apply Hnew, alloc_dom.
Qed.

Lemma copy_loop_skips center ids : forall temp h,
  (forall mid, mid ∈ ids -> get_model center mid = None \/ get_connector center mid = None) ->
  fold_left (copy_model center) ids (Ok temp, h) = (Ok temp, h).
Proof.
  induction ids as [|mid ids IH]; intros temp h Hall; [done|].
  simpl. unfold copy_model at 2. cbn [fst snd].
  assert (Hrest : forall m, m ∈ ids ->
            get_model center m = None \/ get_connector center m = None).
  { intros m Hm. apply Hall, elem_of_cons. by right. }
  destruct (Hall mid) as [-> | Hc]; [apply elem_of_cons; by left|by apply IH|].
  rewrite Hc. destruct (get_model center mid); by apply IH.
Qed.

Lemma empty_registry_run orchestrator (reg : MultiModelRegistry (ModelConnector num))
    workflow K as_completed uuid clock (w : BatchWorld num) :
  _records reg = [] ->
  run_batch orchestrator reg workflow K as_completed uuid clock w
  = (Ok {| summary := None; models := []; registry := None |},
     {| heap := (list_models reg (heap w)).2; store := store w;
        batch_results_file := batch_results_file w |}).
Proof.
  intros Hempty. unfold run_batch. cbv zeta.
  by rewrite items_of_list_models, Hempty.
Qed.

(** X24.  An experiment that has no registry entry to run on ends in
    [KeyError('successful_models')]: when [model_ids] is empty or absent and
    the control center's registry is empty, and when [model_ids] names only
    models that lack a record or a connector.  [run_batch] has then
    returned its empty report; no experiment file is written, and the batch
    results file and the task store are as before. *)
Theorem experiment_without_units_raises second center model_ids as_completed
    uuid clock (w : LabWorld num) :
  (default [] model_ids = [] /\ _records center = []) \/
  (default [] model_ids <> [] /\
   forall mid, mid ∈ default [] model_ids ->
     get_model center mid = None \/ get_connector center mid = None) ->
  exists w',
    run_abliteration_experiment second center model_ids as_completed uuid clock w
    = (Raise (KeyError "successful_models"), w') /\
    experiment_file w' = experiment_file w /\
    batch_results_file (batch w') = batch_results_file (batch w) /\
    store (batch w') = store (batch w).
Proof.
  intros Hcase. unfold run_abliteration_experiment. cbv zeta.
  assert (Hreg : exists reg,
            experiment_registry center model_ids (heap (batch w))
            = (Ok reg, heap (batch w)) /\ _records reg = []).
  { destruct Hcase as [[Hids Hempty]|[Hids Hall]].
    - exists center. split; [|done]. unfold experiment_registry.
      destruct model_ids as [[|mid ids]|]; done.
    - destruct model_ids as [[|mid ids]|]; [done| |done].
      exists (new_registry (length (mid :: ids))). split; [|done].
      unfold experiment_registry. by apply copy_loop_skips. }
  destruct Hreg as (reg & -> & Hempty).
  rewrite (empty_registry_run _ reg _ _ _ _ _ _ Hempty).
  eexists. split; [reflexivity|]. done.
Qed.

(** X25.  With a list of [model_ids] that is not empty the batch runs on
    copies: whatever the experiment does (return or raise), the records of
    the control center's own registry are exactly as before, so the
    statuses [running], [completed] and [failed] written by [run_batch] do
    not reach them. *)
Theorem experiment_leaves_center_records second center mid ids as_completed
    uuid clock (w : LabWorld num) :
  registry_keyed center (heap (batch w)) ->
  forall kv, kv ∈ _records center ->
    heap (batch (run_abliteration_experiment second center (Some (mid :: ids))
                   as_completed uuid clock w).2) !! kv.2
    = heap (batch w) !! kv.2.
Proof.
  intros Hk kv Hin.
  assert (Hd : kv.2 ∈ dom (heap (batch w))).
  { apply (record_alive center); [by apply registry_keyed_wf|done]. }
  unfold run_abliteration_experiment, experiment_registry. cbv zeta.
  destruct (copy_loop center (mid :: ids) (new_registry (length (mid :: ids)))
              (heap (batch w))) as [Hagree Hfresh].
  destruct (fold_left (copy_model center) (mid :: ids) _) as [[temp|e] h1];
    cbn [fst snd] in Hagree, Hfresh; [|by apply Hagree].
  assert (Hsep : forall kv', kv' ∈ _records temp -> kv'.2 <> kv.2).
  { intros kv' Hkv' Heq. destruct (Hfresh temp eq_refl kv' Hkv') as [Hnil|Hnew].
    - by apply elem_of_nil in Hnil.
    - apply Hnew. by rewrite Heq. }
  pose proof (run_batch_frame (experiment_orchestrator second) temp (Some default_workflow)
                10 as_completed uuid clock
                {| heap := h1; store := store (batch w);
                   batch_results_file := batch_results_file (batch w) |} kv.2) as Hf.
  assert (Hd1 : kv.2 ∈ dom h1).
  { apply (lookup_dom_agree (heap (batch w))); [by apply Hagree|done]. }
  cbn [heap] in Hf. specialize (Hf Hd1 Hsep). rewrite <- (Hagree _ Hd).
  destruct (run_batch _ _ _ _ _ _ _ _) as [[report|e] b]; cbn [snd] in Hf.
  - by destruct (read_summary report).
  - done.
Qed.

End ExperimentFacts.

Lemma experiment_without_units_raises_witness :
  (run_abliteration_experiment 1 three_models.1 (Some ["x"; "y"]) reverse demo_uuid
     demo_clock (lab_on three_models.2)).1
  = Raise (KeyError "successful_models").
Proof.
  destruct (experiment_without_units_raises 1 three_models.1 (Some ["x"; "y"]) reverse
              demo_uuid demo_clock (lab_on three_models.2)) as (w' & -> & _).
  - right. split; [discriminate|]. intros mid Hmid. left.
    apply elem_of_cons in Hmid as [->|Hmid]; [vm_compute; reflexivity|].
    apply list_elem_of_singleton in Hmid as ->. vm_compute. reflexivity.
  - reflexivity.
Defined.

Lemma experiment_leaves_center_records_witness :
  exists l r,
    get_model three_models.1 "a" = Some l /\
    heap (batch (run_abliteration_experiment 1 three_models.1 (Some ["a"; "b"]) reverse
                   demo_uuid demo_clock (lab_on three_models.2)).2) !! l
    = Some (ORecord r) /\
    abliteration_status r = "pending".
Proof.
  destruct (get_model three_models.1 "a") as [l|] eqn:Hl; [|vm_compute in Hl; discriminate].
  assert (Hin : ("a", l) ∈ _records three_models.1) by (by apply assoc_elem).
  pose proof (experiment_leaves_center_records 1 three_models.1 "a" ["b"] reverse
                demo_uuid demo_clock (lab_on three_models.2)
                ltac:(repeat constructor; eexists; split; vm_compute; reflexivity)
                ("a", l) Hin) as Hsame.
  cbn [snd] in Hsame. vm_compute in Hl. injection Hl as <-.
  eexists _, _. split; [reflexivity|]. rewrite Hsame.
  split; vm_compute; reflexivity.
Defined.

End ControlCenter.
